(** * vernon: ray geometry, adaptive ray sampling and Stokes image access

    A shallow embedding of [pylib/geometry.py] and of the [IntegratedImages]
    class and the row groups of [seed_cli] of [vernon/integrate.py].

    Number model.  Python floats and numpy float64 arrays are idealised as
    real numbers ([R]) and lists of reals: there is no rounding, no NaN and
    no signed zero.  The one place where the control flow of the code relies
    on an infinite value (the stiffness step [max_dxlam1 / lam1] with
    [lam1 = 0], in vacuum) is modelled with an explicit extended value.  numpy's
    [sqrt], [sin], [cos], [arcsin], [arccos] and [arctan2] are the
    mathematical functions.  A quotient by zero, which numpy evaluates to an
    infinity or a NaN and carries on, has the value 0 here; apart from the
    stiffness step no statement below depends on such a quotient.  The
    fractional polarisations of [IntegratedImages], which guard their
    quotient against a zero divisor, are written for an arbitrary quotient,
    so that the statement on that guard does not rest on this convention.
    A quotient of Python floats by zero raises [ZeroDivisionError].

    Exceptions are values: a function that may raise returns a [result]. *)

From Stdlib Require Import Reals Lra Lia List String Ascii ZArith Bool.
From Stdlib Require Import Sorted.
Import ListNotations.

Open Scope R_scope.

(** ** Python values that end up in exception messages, and exceptions *)

(** [scipy.optimize.RootResults], as returned by [brentq(..., full_output=True)]. *)
Record RootResults : Type := mkRootResults {
  root : R;
  iterations : nat;
  function_calls : nat;
  converged : bool
}.

Inductive pyvalue : Type :=
| PyFloat (r : R)
| PyStr (s : string)
| PyInfo (i : RootResults).

(** [raise E(fmt % args)]: the format string and the values formatted into it. *)
Inductive exn : Type :=
| ValueError (fmt : string) (args : list pyvalue)
| RuntimeError (fmt : string) (args : list pyvalue)
| IndexError
| KeyError (key : string)
| AttributeError (name : string)
| ZeroDivisionError.

(** The outcome of a call: a value, an exception, or (for the one loop of
    the code whose termination depends on its inputs) no outcome within the
    iterations allowed. *)
Inductive result (A : Type) : Type :=
| Ok (a : A)
| Raise (e : exn)
| OutOfFuel.

Arguments Ok {A} a.
Arguments Raise {A} e.
Arguments OutOfFuel {A}.

Definition bind {A B : Type} (m : result A) (k : A -> result B) : result B :=
  match m with
  | Ok a => k a
  | Raise e => Raise e
  | OutOfFuel => OutOfFuel
  end.

Declare Scope result_scope.
Delimit Scope result_scope with result.
Notation "x <- m ;; k" := (bind m (fun x => k))
  (at level 61, m at next level, right associativity) : result_scope.

Definition raises {A : Type} (m : result A) : Prop :=
  exists e, m = Raise e.

Definition returns {A : Type} (m : result A) : Prop :=
  exists a, m = Ok a.

(** ** Constants of [pwkit.astutil] *)

Definition halfpi : R := PI / 2.
Definition twopi : R := 2 * PI.

(** ** numpy primitives on scalars *)

(** [np.clip(a, lo, hi)] is [minimum(maximum(a, lo), hi)]. *)
Definition clip (a lo hi : R) : R := Rmin (Rmax a lo) hi.

(** [np.arctan2(y, x)] on real arguments, with values in (-pi, pi].  The
    value -pi, which numpy returns for a negative zero [y] and a negative
    [x], has no counterpart: the reals have one zero, and for [y = 0],
    [x < 0] the value here is pi, that of the positive zero. *)
Definition arctan2 (y x : R) : R :=
  if Rlt_dec 0 x then atan (y / x)
  else if Rlt_dec x 0 then
    if Rle_dec 0 y then atan (y / x) + PI else atan (y / x) - PI
  else if Rlt_dec 0 y then PI / 2
  else if Rlt_dec y 0 then - (PI / 2)
  else 0.

(** A function of three floats applied to an unpacked triple. *)
Definition uncurry3 {A : Type} (f : R -> R -> R -> A) (p : R * R * R) : A :=
  let '(a, b, c) := p in f a b c.

(** ** Module-level coordinate transforms *)

Definition cart_to_sph (x y z : R) : R * R * R :=
  let r := sqrt (x ^ 2 + y ^ 2 + z ^ 2) in
  let lat := asin (clip (z / Rmax r 1e-10) (-1) 1) in
  let lon := arctan2 y x in
  (lat, lon, r).

Definition sph_to_cart (lat lon r : R) : R * R * R :=
  let x := r * cos lat * cos lon in
  let y := r * cos lat * sin lon in
  let z := r * sin lat in
  (x, y, z).

Definition sph_vec_to_cart_vec (lat0 lon0 Vlat Vlon Vr : R) : R * R * R :=
  let slat := sin lat0 in
  let clat := cos lat0 in
  let slon := sin lon0 in
  let clon := cos lon0 in
  let Vx := (- slat * clon) * Vlat + (- slon) * Vlon + (clat * clon) * Vr in
  let Vy := (- slat * slon) * Vlat + clon * Vlon + (clat * slon) * Vr in
  let Vz := clat * Vlat + slat * Vr in
  (Vx, Vy, Vz).

Definition rot2d (u v theta : R) : R * R :=
  let c := cos theta in
  let s := sin theta in
  let uprime := c * u + - s * v in
  let vprime := s * u + c * v in
  (uprime, vprime).

(** ** class ObserverToBodycentric *)

Module ObserverToBodycentric.

Record t : Type := mk { loc : R; cml : R }.

Section Init.
    (** [pwkit.astutil.angcen], which normalises an angle; pwkit is not part
        of the repository, so the function is a parameter of construction. *)
Variable angcen : R -> R.

Definition __init__ (loc cml : R) : result t :=
      if Rlt_dec loc 0 then
        Raise (ValueError "illegal latitude-of-center %r" [PyFloat loc])
      else if Rlt_dec halfpi loc then
        Raise (ValueError "illegal latitude-of-center %r" [PyFloat loc])
      else Ok (mk loc (angcen cml)).
End Init.

Definition _to_bc (self : t) (x y z : R) : R * R * R :=
    let '(x, y, z) := (z, x, y) in
    let '(x, z) := rot2d x z (loc self) in
    let '(x, y) := rot2d x y (cml self) in
    (x, y, z).

Definition __call__ (self : t) (x y z : R) : R * R * R :=
    let '(bx, by_, bz) := _to_bc self x y z in
    cart_to_sph bx by_ bz.

Definition _from_bc (self : t) (x y z : R) : R * R * R :=
    let '(x, y) := rot2d x y (- cml self) in
    let '(x, z) := rot2d x z (- loc self) in
    let '(z, x, y) := (x, y, z) in
    (x, y, z).

Definition inverse (self : t) (lat lon r : R) : R * R * R :=
    let '(x, y, z) := sph_to_cart lat lon r in
    _from_bc self x y z.

Definition theta_zhat (self : t) (x y z dir_blat dir_blon dir_r : R) : R :=
    let '(blat, blon, _) := __call__ self x y z in
    let '(dx, dy, dz) := sph_vec_to_cart_vec blat blon dir_blat dir_blon dir_r in
    let '(zx, zy, zz) := _to_bc self 0 0 1 in
    let dot := zx * dx + zy * dy + zz * dz in
    let scale := sqrt (dx ^ 2 + dy ^ 2 + dz ^ 2) in
    acos (dot / scale).

Definition theta_yhat_projected (self : t) (x y z dir_blat dir_blon dir_r : R) : R :=
    let '(blat, blon, _) := __call__ self x y z in
    let '(bx, by_, bz) := sph_vec_to_cart_vec blat blon dir_blat dir_blon dir_r in
    let '(ox, oy, _) := _from_bc self bx by_ bz in
    arctan2 ox oy.

End ObserverToBodycentric.

(** ** class TiltedDipoleField *)

Module TiltedDipoleField.

Record t : Type := mk { tilt : R; moment : R }.

Definition __init__ (tilt moment : R) : result t :=
    if Rlt_dec tilt 0 then
      Raise (ValueError "illegal tilt value %r" [PyFloat tilt])
    else if Rle_dec PI tilt then
      Raise (ValueError "illegal tilt value %r" [PyFloat tilt])
    else Ok (mk tilt moment).

Definition _to_dc (self : t) (bc_lat bc_lon bc_r : R) : R * R * R :=
    let '(x, y, z) := sph_to_cart bc_lat bc_lon bc_r in
    let ctilt := cos (tilt self) in
    let stilt := sin (tilt self) in
    let zprime := ctilt * z + stilt * x in
    let xprime := - stilt * z + ctilt * x in
    cart_to_sph xprime y zprime.

Definition _from_dc (self : t) (dc_lat dc_lon dc_r : R) : R * R * R :=
    let '(x, y, z) := sph_to_cart dc_lat dc_lon dc_r in
    let ctilt := cos (- tilt self) in
    let stilt := sin (- tilt self) in
    let zprime := ctilt * z + stilt * x in
    let xprime := - stilt * z + ctilt * x in
    cart_to_sph xprime y zprime.

Definition __call__ (self : t) (bc_lat bc_lon bc_r : R) : R * R * R :=
    let '(dc_lat, dc_lon, dc_r) := _to_dc self bc_lat bc_lon bc_r in
    let L := dc_r / cos dc_lat ^ 2 in
    (dc_lat, dc_lon, L).

Definition bhat (self : t) (pos_blat pos_blon pos_r : R) (epsilon : R) : R * R * R :=
    let '(pos_mlat0, pos_mlon0, pos_mr0) := _to_dc self pos_blat pos_blon pos_r in
    let bhat_r := 2 * moment self * sin pos_mlat0 in
    let bhat_lat := - moment self * cos pos_mlat0 in
    let scale := epsilon / sqrt (bhat_r ^ 2 + bhat_lat ^ 2) in
    let bhat_r := bhat_r * scale in
    let bhat_lat := bhat_lat * scale in
    let '(blat1, blon1, br1) :=
      _from_dc self (pos_mlat0 + bhat_lat) pos_mlon0 (pos_mr0 + bhat_r) in
    let dlat := blat1 - pos_blat in
    let dlon := blon1 - pos_blon in
    let dr := br1 - pos_r in
    let scale := 1 / sqrt (dlat ^ 2 + dlon ^ 2 + dr ^ 2) in
    (scale * dlat, scale * dlon, scale * dr).

Definition bmag (self : t) (blat blon r : R) : R :=
    let '(mlat, mlon, mr) := _to_dc self blat blon r in
    Rabs (moment self) * sqrt (1 + 3 * sin mlat ^ 2) / mr ^ 3.

(** [theta_b] calls [self.bhat] without its own [epsilon], so that the
    offset is always the default 1e-8. *)
Definition theta_b (self : t) (pos_blat pos_blon pos_r dir_blat dir_blon dir_r : R)
    (epsilon : R) : R :=
    let '(b1, b2, b3) := bhat self pos_blat pos_blon pos_r 1e-8 in
    let '(bx, by_, bz) := sph_vec_to_cart_vec pos_blat pos_blon b1 b2 b3 in
    let '(dx, dy, dz) := sph_vec_to_cart_vec pos_blat pos_blon dir_blat dir_blon dir_r in
    let dot := bx * dx + by_ * dy + bz * dz in
    let scale := sqrt ((bx ^ 2 + by_ ^ 2 + bz ^ 2) * (dx ^ 2 + dy ^ 2 + dz ^ 2)) in
    acos (dot / scale).

End TiltedDipoleField.

(** ** numpy primitives on arrays *)

(** A value that is either a float array or Python's [None]. *)
Definition pyarr : Type := option (list R).

Definition row4 : Type := (R * R * R * R)%type.
Definition row3 : Type := (R * R * R)%type.

Definition Rltb (a b : R) : bool := if Rlt_dec a b then true else false.
Definition Reqb (a b : R) : bool := if Req_dec_T a b then true else false.

(** The ceiling of a real number, from the archimedean [up]. *)
Definition ceil (x : R) : Z := (1 - up (- x))%Z.

(** [np.arange(start, stop, step)]: [ceil((stop - start) / step)] elements
    [start + i * step] (none when that count is not positive). *)
Definition arange (start stop step : R) : list R :=
  map (fun i => start + INR i * step)
      (seq 0 (Z.to_nat (ceil ((stop - start) / step)))).

(** [np.arange] as the code calls it, on Python floats: numpy computes the
    length from the quotient by the step and raises [ZeroDivisionError] on a
    zero step. *)
Definition np_arange (start stop step : R) : result (list R) :=
  if Req_dec_T step 0
  then Raise ZeroDivisionError
  else Ok (arange start stop step).

(** [np.linspace(start, stop, num)]: [start + i * step] with
    [step = (stop - start) / (num - 1)].  numpy overwrites the last element
    with [stop]; over the reals it already has that value. *)
Definition linspace (start stop : R) (num : nat) : list R :=
  map (fun i => start + INR i * ((stop - start) / INR (num - 1)))
      (seq 0 num).

(** [np.zeros(n)]. *)
Definition zeros (n : nat) : list R := repeat 0 n.

(** [a.min()] and [a.max()]; numpy raises [ValueError] on an empty array. *)
Definition np_min (a : list R) : result R :=
  match a with
  | [] => Raise (ValueError "zero-size array to reduction operation minimum which has no identity" [])
  | a0 :: rest => Ok (fold_left Rmin rest a0)
  end.

Definition np_max (a : list R) : result R :=
  match a with
  | [] => Raise (ValueError "zero-size array to reduction operation maximum which has no identity" [])
  | a0 :: rest => Ok (fold_left Rmax rest a0)
  end.

(** [zsamps[nesamps > cutoff]]: boolean-mask selection. *)
Definition select_above (cutoff : R) (zsamps nesamps : list R) : list R :=
  map fst (filter (fun p => Rltb cutoff (snd p)) (combine zsamps nesamps)).

(** [a.mean()]: the sum over the size. *)
Definition np_mean (a : list R) : R :=
  fold_right Rplus 0 a / INR (List.length a).

(** [a ** c] on floats: [exp(c * log a)] for a positive base and the
    integer power for an integral exponent.  Where numpy yields an infinity
    or a NaN (a zero base with a negative exponent, a negative base with a
    fractional exponent) the value here is 0, as for quotients. *)
Definition np_power (a c : R) : R :=
  if Rlt_dec 0 a then Rpower a c
  else if Req_dec_T c (IZR (Int_part c)) then powerRZ a (Int_part c)
  else 0.

(** ** Python sequences *)

(** [a[i]] on a list or a one-dimensional array: a negative index counts
    from the end, and an index out of range raises [IndexError]. *)
Definition py_index {A : Type} (a : list A) (i : Z) : result A :=
  let n := Z.of_nat (List.length a) in
  let k := if (i <? 0)%Z then (i + n)%Z else i in
  if ((k <? 0) || (n <=? k))%Z then Raise IndexError
  else match nth_error a (Z.to_nat k) with
       | Some v => Ok v
       | None => Raise IndexError
       end.

(** [[f(i) for i in l]]: the first call that raises ends the
    comprehension. *)
Fixpoint comprehension {A B : Type} (f : A -> result B) (l : list A)
  : result (list B) :=
  match l with
  | [] => Ok []
  | a :: l' =>
      (b <- f a ;; bs <- comprehension f l' ;; Ok (b :: bs))%result
  end.

(** ** Python dicts and object attributes keyed by name *)

Fixpoint dict_set {V : Type} (d : list (string * V)) (k : string) (v : V)
  : list (string * V) :=
  match d with
  | [] => [(k, v)]
  | (k', v') :: d' =>
      if String.eqb k' k then (k', v) :: d' else (k', v') :: dict_set d' k v
  end.

Fixpoint dict_get {V : Type} (d : list (string * V)) (k : string) : option V :=
  match d with
  | [] => None
  | (k', v') :: d' => if String.eqb k' k then Some v' else dict_get d' k
  end.

(** [dict(pairs)]: later pairs overwrite earlier ones. *)
Definition dict_of {V : Type} (pairs : list (string * V)) : list (string * V) :=
  fold_left (fun d kv => dict_set d (fst kv) (snd kv)) pairs [].

(** ** The collaborators of a setup *)

(** A particle distribution.  [get_samples mlat mlon L just_ne] is the tuple
    returned at one point; called on arrays the code gets the same tuple of
    arrays, point by point.  The tuple has one entry per parameter name and
    [n_e] comes first. *)
Record Distribution : Type := mkDistribution {
  parameter_names : list string;
  get_samples : R -> R -> R -> bool -> list R
}.

(** The synchrotron calculator: [get_coeffs nu B n_e theta psi extras]
    returns the arrays [(j, alpha, rho)] of shapes (n,4), (n,4), (n,3). *)
Record SynchCalc : Type := mkSynchCalc {
  param_names : list string;
  get_coeffs : R -> pyarr -> pyarr -> pyarr -> pyarr ->
               list (string * pyarr) ->
               list row4 * list row4 * list row3
}.

(** [VanAllenSetup]; the ray tracer and the integrator that it also holds
    are not read by the code modelled here. *)
Record VanAllenSetup : Type := mkSetup {
  o2b : ObserverToBodycentric.t;
  bfield : TiltedDipoleField.t;
  distrib : Distribution;
  synch_calc : SynchCalc;
  radius : R;
  nu : R
}.

(** One recorded invocation of [synch_calc.get_coeffs]. *)
Record CoeffCall : Type := mkCoeffCall {
  call_nu : R;
  call_B : pyarr;
  call_n_e : pyarr;
  call_theta : pyarr;
  call_psi : pyarr;
  call_extras : list (string * pyarr)
}.

(** ** class Ray *)

Module Ray.

(** The attributes of a ray.  Every derived attribute starts as [None]
    (the class-level default).  [attrs] holds the attributes that the code
    sets by name with [setattr], one per distribution parameter. *)
Record t : Type := mk {
  setup : VanAllenSetup;
  x : R;
  y : R;
  z : list R;
  s : pyarr;
  bc : option (list (R * R * R));
  mc : option (list (R * R * R));
  theta : pyarr;
  B : pyarr;
  psi : pyarr;
  j : option (list row4);
  alpha : option (list row4);
  rho : option (list row3);
  attrs : list (string * list R)
}.

Definition setattr (self : t) (name : string) (value : list R) : t :=
  mk (setup self) (x self) (y self) (z self) (s self) (bc self) (mc self)
     (theta self) (B self) (psi self) (j self) (alpha self) (rho self)
     (dict_set (attrs self) name value).

(** [None] as an attribute value, for the attributes whose other values
    (a tuple of arrays, a two-dimensional array) are not vectors. *)
Definition none_or_missing {A : Type} (v : option A) : option pyarr :=
  match v with
  | None => Some None
  | Some _ => None
  end.

(** [getattr(self, name)], as [ensure_rt_coeffs] uses it to hand vectors to
    the calculator: [None] stands for [AttributeError].  An attribute set by
    name comes first; then the attributes that the class declares, each
    with default [None]: [n_e] and [p] (still unset here), the vectors [s],
    [theta], [B], [psi] and [z], the floats [x] and [y] (a vector of one
    element, as everywhere for a float handed to the calculator), and
    [bc], [mc], [j], [alpha], [rho] while they are [None].  Any other name
    raises.  Not covered, and answered as missing: [setup], and [bc], [mc],
    [j], [alpha], [rho] once they hold their tuples and two-dimensional
    arrays, which are not vectors. *)
Definition getattr (self : t) (name : string) : option pyarr :=
  match dict_get (attrs self) name with
  | Some v => Some (Some v)
  | None =>
      if (String.eqb name "n_e" || String.eqb name "p")%bool then Some None
      else if String.eqb name "s" then Some (s self)
      else if String.eqb name "theta" then Some (theta self)
      else if String.eqb name "B" then Some (B self)
      else if String.eqb name "psi" then Some (psi self)
      else if String.eqb name "z" then Some (Some (z self))
      else if String.eqb name "x" then Some (Some [x self])
      else if String.eqb name "y" then Some (Some [y self])
      else if String.eqb name "bc" then none_or_missing (bc self)
      else if String.eqb name "mc" then none_or_missing (mc self)
      else if String.eqb name "j" then none_or_missing (j self)
      else if String.eqb name "alpha" then none_or_missing (alpha self)
      else if String.eqb name "rho" then none_or_missing (rho self)
      else None
  end.

(** [self.n_e]. *)
Definition n_e (self : t) : pyarr := dict_get (attrs self) "n_e".

(** [__init__].  In the last loop [zip] pairs the parameter names with the
    arrays that the distribution returns and stops at the shorter of the
    two: a name without an array stays unset. *)
Definition __init__ (x y : R) (z : list R) (setup : VanAllenSetup)
    (zeros_ no_init : bool) : result t :=
  let self := mk setup x y z None None None None None None None None None [] in
  if no_init then Ok self
  else
    match np_min z with
    | Raise e => Raise e
    | OutOfFuel => OutOfFuel
    | Ok zmin =>
        let s := map (fun zi => (zi - zmin) * radius setup) z in
        let bc := map (fun zi => ObserverToBodycentric.__call__ (o2b setup) x y zi) z in
        let mc := map (uncurry3 (TiltedDipoleField.__call__ (bfield setup))) bc in
        if zeros_ then
          let self := mk setup x y z (Some s) (Some bc) (Some mc)
                         (Some (zeros (List.length z))) (Some (zeros (List.length z)))
                         (Some (zeros (List.length z))) None None None [] in
          Ok (fold_left (fun r pn => setattr r pn (zeros (List.length z)))
                        (parameter_names (distrib setup)) self)
        else
          let bhat := map (uncurry3 (fun a b c =>
                             TiltedDipoleField.bhat (bfield setup) a b c 1e-8)) bc in
          let theta := map (fun zb => uncurry3 (ObserverToBodycentric.theta_zhat
                                                  (o2b setup) x y (fst zb)) (snd zb))
                           (combine z bhat) in
          let B := map (uncurry3 (TiltedDipoleField.bmag (bfield setup))) bc in
          let psi := map (fun zb => uncurry3 (ObserverToBodycentric.theta_yhat_projected
                                                (o2b setup) x y (fst zb)) (snd zb))
                         (combine z bhat) in
          let samples := map (uncurry3 (fun a b c =>
                                get_samples (distrib setup) a b c false)) mc in
          let names := parameter_names (distrib setup) in
          let self := mk setup x y z (Some s) (Some bc) (Some mc)
                         (Some theta) (Some B) (Some psi) None None None [] in
          Ok (fold_left (fun r ip =>
                           setattr r (snd ip)
                                   (map (fun smp => nth (fst ip) smp 0) samples))
                        (combine (seq 0 (List.length (hd [] samples))) names) self)
    end.

(** [(n, getattr(self, n)) for n in names]; the first unset name raises
    [AttributeError]. *)
Fixpoint collect_extras (self : t) (names : list string)
  : result (list (string * pyarr)) :=
  match names with
  | [] => Ok []
  | n :: rest =>
      match getattr self n with
      | None => Raise (AttributeError n)
      | Some v =>
          match collect_extras self rest with
          | Ok d => Ok ((n, v) :: d)
          | Raise e => Raise e
          | OutOfFuel => OutOfFuel
          end
      end
  end.

(** [ensure_rt_coeffs], threading the log of calculator invocations. *)
Definition ensure_rt_coeffs (self : t) (log : list CoeffCall)
  : result t * list CoeffCall :=
  match j self with
  | None =>
      match collect_extras self (param_names (synch_calc (setup self))) with
      | Raise e => (Raise e, log)
      | OutOfFuel => (OutOfFuel, log)
      | Ok extras =>
          let call := mkCoeffCall (nu (setup self)) (B self) (n_e self)
                                  (theta self) (psi self) (dict_of extras) in
          let '(j', alpha', rho') :=
            get_coeffs (synch_calc (setup self)) (nu (setup self)) (B self)
                       (n_e self) (theta self) (psi self) (dict_of extras) in
          (Ok (mk (setup self) (x self) (y self) (z self) (s self) (bc self)
                  (mc self) (theta self) (B self) (psi self)
                  (Some j') (Some alpha') (Some rho') (attrs self)),
           log ++ [call])
      end
  | Some _ => (Ok self, log)
  end.

End Ray.

(** ** class BasicRayTracer *)

Module BasicRayTracer.

(** The class attributes, which an instance or a subclass may override. *)
Record t : Type := mk {
  way_back_z : R;
  way_front_z : R;
  surface_delta_radius : R;
  ne0_cutoff : R;
  delta_z : R;
  nsamps : nat
}.

Definition default : t := mk (-15) 15 0.03 1 1 300.

(** The local function [z_to_ne] of [create_ray].  The source requires of
    [get_samples] that it return a tuple of data arrays with [n_e] being the
    first one: the tuple is taken not to be empty (on an empty tuple the
    subscript would raise [IndexError]). *)
Definition z_to_ne (x y : R) (setup : VanAllenSetup) (z : R) : R :=
  let '(blat, blon, br) := ObserverToBodycentric.__call__ (o2b setup) x y z in
  let '(mlat, mlon, L) := TiltedDipoleField.__call__ (bfield setup) blat blon br in
  hd 0 (get_samples (distrib setup) mlat mlon L true).

(** The first assignment of [z0] in [create_ray]: just above the surface
    for a pixel on the disk, else well behind the body. *)
Definition start_z (self : t) (x y : R) : R :=
  if Rle_dec (x ^ 2 + y ^ 2) 1
  then sqrt ((1 + surface_delta_radius self) ^ 2 - (x ^ 2 + y ^ 2))
  else way_back_z self.

(** The coarse samples [zsamps] and [nesamps] of [create_ray] (for a
    nonzero [delta_z]). *)
Definition coarse_zsamps (self : t) (x y : R) : list R :=
  arange (start_z self x y) (way_front_z self) (delta_z self).

Definition coarse_nesamps (self : t) (x y : R) (setup : VanAllenSetup) : list R :=
  map (z_to_ne x y setup) (coarse_zsamps self x y).

Section CreateRay.

(** [scipy.optimize.brentq f a b] called with [full_output=True]; scipy is
    not part of the repository.  It may raise by itself. *)
Variable brentq : (R -> R) -> R -> R -> result (R * RootResults).

(** The method [_sample_ray] as the class of [self] defines it
    ([self._sample_ray] is resolved at run time). *)
Variable self_sample_ray : R -> R -> R -> R -> VanAllenSetup -> result Ray.t.

(** The two root-finding blocks of [create_ray] have one shape: take the
    outermost coarse sample above the cutoff ([zstart]), call [brentq] on the
    bracket, re-bind the bound to what it returns, and raise unless the
    report says it converged. *)
Definition find_bound (fmt : string) (ofs_n_e : R -> R) (bound : R)
    (zstart : result R) : result R :=
  (zstart <- zstart ;;
   r <- brentq ofs_n_e bound zstart ;;
   let '(bound', info) := r in
   if converged info then Ok bound'
   else Raise (RuntimeError fmt [PyFloat bound'; PyFloat zstart; PyInfo info]))%result.

Definition create_ray_via (self : t) (x y : R) (setup : VanAllenSetup)
  : result Ray.t :=
  let z0 := start_z self x y in
  let z1 := way_front_z self in
  (zsamps <- np_arange z0 z1 (delta_z self) ;;
  let nesamps := map (z_to_ne x y setup) zsamps in
  if negb (existsb (fun ne => Rltb (ne0_cutoff self) ne) nesamps) then
    Ray.__init__ x y (linspace z0 z1 2) setup true false
  else
    let ofs_n_e := fun z => z_to_ne x y setup z - ne0_cutoff self in
    (z0 <- (if Rltb (hd 0 nesamps) (ne0_cutoff self) then
              find_bound "could not find suitable starting point: %r %r %r"
                         ofs_n_e z0
                         (np_min (select_above (ne0_cutoff self) zsamps nesamps))
            else Ok z0) ;;
     z1 <- (if Rltb (last nesamps 0) (ne0_cutoff self) then
              find_bound "could not find suitable ending point: %r %r %r"
                         ofs_n_e z1
                         (np_max (select_above (ne0_cutoff self) zsamps nesamps))
            else Ok z1) ;;
     self_sample_ray x y z0 z1 setup))%result.

End CreateRay.

(** "The default implementation always uses a fixed number of samples." *)
Definition _sample_ray (self : t) (x y z0 z1 : R) (setup : VanAllenSetup)
  : result Ray.t :=
  Ray.__init__ x y (linspace z0 z1 (nsamps self)) setup false false.

(** [create_ray] on an instance of [BasicRayTracer] itself. *)
Definition create_ray (brentq : (R -> R) -> R -> R -> result (R * RootResults))
    (self : t) (x y : R) (setup : VanAllenSetup) : result Ray.t :=
  create_ray_via brentq (_sample_ray self) self x y setup.

End BasicRayTracer.

(** ** class FormalRayTracer(BasicRayTracer) *)

(** A float that may be [+inf]: numpy's quotient of a positive number by
    zero.  The stiffness step below is modelled for a positive [max_dxlam1]
    and a positive body radius, where no other special value arises. *)
Inductive ext : Type :=
| Finite (r : R)
| PosInf.

(** [a / b] in numpy for [a > 0] and [b >= 0]. *)
Definition ext_div (a b : R) : ext :=
  if Req_dec_T b 0 then PosInf else Finite (a / b).

(** [a / r] for [r > 0]. *)
Definition ext_div_pos (a : ext) (r : R) : ext :=
  match a with
  | Finite v => Finite (v / r)
  | PosInf => PosInf
  end.

(** [min(a, b)] with [b] finite. *)
Definition ext_min (a : ext) (b : R) : R :=
  match a with
  | Finite v => Rmin v b
  | PosInf => b
  end.

Module FormalRayTracer.

Record t : Type := mk {
  base : BasicRayTracer.t;
  warn_n_pts : nat;
  min_n_pts : nat
}.

Definition default : t := mk BasicRayTracer.default 1000 200.

(** One row of [buf]: columns 0 (z), 1 (B), 2 (theta), 3 (psi), 4:8 (j),
    8:12 (alpha), 12:15 (rho) and 15: (the distribution samples). *)
Record sample : Type := mkSample {
  buf_z : R;
  buf_B : R;
  buf_theta : R;
  buf_psi : R;
  buf_j : row4;
  buf_alpha : row4;
  buf_rho : row3;
  buf_dsamps : list R
}.

(** [dict((n, d_extras[n]) for n in names)]; a missing key raises. *)
Fixpoint pick_extras (d_extras : list (string * R)) (names : list string)
  : result (list (string * pyarr)) :=
  match names with
  | [] => Ok []
  | n :: rest =>
      match dict_get d_extras n with
      | None => Raise (KeyError n)
      | Some v =>
          match pick_extras d_extras rest with
          | Ok d => Ok ((n, Some [v]) :: d)
          | Raise e => Raise e
          | OutOfFuel => OutOfFuel
          end
      end
  end.

(** The stiffness scalar [lam1] of the loop body. *)
Definition lam1 (alpha : row4) (rho : row3) : R :=
  let '(_, aQ, aU, aV) := alpha in
  let '(rho0, rho1, rho2_) := rho in
  let a2 := aQ ^ 2 + aU ^ 2 + aV ^ 2 in
  let rho2 := rho1 ^ 2 + rho2_ ^ 2 in
  let arho := aQ * rho0 + aU * rho1 + aV * rho2_ in
  let q := 0.5 * (a2 - rho2) in
  sqrt (sqrt (q ^ 2 + arho ^ 2) + q).

Section SampleRay.

Variable self : t.
Variables x y z0 z1 : R.
Variable setup : VanAllenSetup.
Variable max_dxlam1 : R.

Definition max_step_size : R := (z1 - z0) / INR (min_n_pts self).
Definition min_step_size : R := 1e-5 * (z1 - z0).

(** The step that the loop body takes from [z], given the coefficients
    there. *)
Definition step_size (z : R) (alpha : row4) (rho : row3) : R :=
  let dx := ext_div max_dxlam1 (lam1 alpha rho) in
  let dz := ext_div_pos dx (radius setup) in
  let dz := ext_min dz max_step_size in
  let dz := Rmin dz (z1 - z) in
  let dz := Rmax dz min_step_size in
  dz.

(** The loop body: the row written to [buf] for [z] and the step [dz].
    The step is computed from row 0 of [alpha] and of [rho], which raises
    [IndexError] when one of them has no row.  The writes come after it:
    [buf[i,4:8] = j], [buf[i,8:12] = alpha] and [buf[i,12:15] = rho] need
    exactly one row each, and [buf[i,15:] = dsamps] needs one sample per
    parameter column, or a single sample, which numpy repeats; otherwise
    numpy raises [ValueError]. *)
Definition sample_at (z : R) : result (sample * R) :=
  let '(blat, blon, br) := ObserverToBodycentric.__call__ (o2b setup) x y z in
  let '(bhat1, bhat2, bhat3) :=
    TiltedDipoleField.bhat (bfield setup) blat blon br 1e-8 in
  let theta := ObserverToBodycentric.theta_zhat (o2b setup) x y z bhat1 bhat2 bhat3 in
  let B := TiltedDipoleField.bmag (bfield setup) blat blon br in
  let psi :=
    ObserverToBodycentric.theta_yhat_projected (o2b setup) x y z bhat1 bhat2 bhat3 in
  let '(mlat, mlon, L) := TiltedDipoleField.__call__ (bfield setup) blat blon br in
  let dsamps := get_samples (distrib setup) mlat mlon L false in
  let d_extras := dict_of (combine (parameter_names (distrib setup)) dsamps) in
  (sc_extras <- pick_extras d_extras (param_names (synch_calc setup)) ;;
   match dsamps with
   | [] => Raise IndexError
   | dsamps0 :: _ =>
       match get_coeffs (synch_calc setup) (nu setup) (Some [B]) (Some [dsamps0])
                        (Some [theta]) (Some [psi]) (dict_of sc_extras) with
       | (j, alpha0 :: alpha_rest, rho0 :: rho_rest) =>
           let dz := step_size z alpha0 rho0 in
           let ncols := List.length (parameter_names (distrib setup)) in
           match j, alpha_rest, rho_rest with
           | [j0], [], [] =>
               if Nat.eqb (List.length dsamps) ncols then
                 Ok (mkSample z B theta psi j0 alpha0 rho0 dsamps, dz)
               else if Nat.eqb (List.length dsamps) 1 then
                 Ok (mkSample z B theta psi j0 alpha0 rho0 (repeat dsamps0 ncols), dz)
               else Raise (ValueError "could not broadcast input array" [])
           | _, _, _ => Raise (ValueError "could not broadcast input array" [])
           end
       | _ => Raise IndexError
       end
   end)%result.

(** [while z <= z1: ...].  The buffer, which the code doubles when it is
    full and truncates to [buf[:i]] at the end, is the list of rows written
    so far; the diagnostic [print] is not modelled. *)
Fixpoint sample_loop (fuel : nat) (z : R) (buf : list sample)
  : result (list sample) :=
  if Rle_dec z z1 then
    match fuel with
    | O => OutOfFuel
    | S fuel' =>
        match sample_at z with
        | Ok (row, dz) => sample_loop fuel' (z + dz) (buf ++ [row])
        | Raise e => Raise e
        | OutOfFuel => OutOfFuel
        end
    end
  else Ok buf.

(** [_sample_ray].  With [min_n_pts = 0] the code cannot return: the step
    bound [(z1 - z0) / self.min_n_pts] is a quotient of Python floats by
    zero, which raises [ZeroDivisionError].  (Were a bound a numpy float,
    the quotient would pass with a warning and the first write into the
    empty buffer would raise [IndexError]; the model has one type of
    floats and follows Python's.) *)
Definition _sample_ray (fuel : nat) : result Ray.t :=
  match min_n_pts self with
  | O => Raise ZeroDivisionError
  | S _ =>
  (buf <- sample_loop fuel z0 [] ;;
   let z := map buf_z buf in
   match z with
   | [] => Raise IndexError
   | zfirst :: _ =>
       let names := parameter_names (distrib setup) in
       let r := Ray.mk setup x y z
                  (Some (map (fun zi => (zi - zfirst) * radius setup) z))
                  None None
                  (Some (map buf_theta buf)) (Some (map buf_B buf))
                  (Some (map buf_psi buf))
                  (Some (map buf_j buf)) (Some (map buf_alpha buf))
                  (Some (map buf_rho buf)) [] in
       Ok (fold_left (fun r ip =>
                        Ray.setattr r (snd ip)
                                    (map (fun row => nth (fst ip) (buf_dsamps row) 0) buf))
                     (combine (seq 0 (List.length names)) names) r)
   end)%result
  end.

End SampleRay.

(** The inherited [create_ray] on an instance of [FormalRayTracer]; its
    keyword arguments are passed on to [_sample_ray], where [max_dxlam1]
    defaults to 50. *)
Definition create_ray (brentq : (R -> R) -> R -> R -> result (R * RootResults))
    (fuel : nat) (self : t) (x y : R) (setup : VanAllenSetup) (max_dxlam1 : R)
  : result Ray.t :=
  BasicRayTracer.create_ray_via brentq
    (fun x y z0 z1 setup => _sample_ray self x y z0 z1 setup max_dxlam1 fuel)
    (base self) x y setup.

End FormalRayTracer.

(** ** class IntegratedImages (vernon/integrate.py) *)

(** [str.lower()] on the ASCII letters. *)
Definition lower_ascii (c : ascii) : ascii :=
  let n := nat_of_ascii c in
  if ((65 <=? n) && (n <=? 90))%nat then ascii_of_nat (n + 32) else c.

Fixpoint lower (s : string) : string :=
  match s with
  | EmptyString => EmptyString
  | String c s' => String (lower_ascii c) (lower s')
  end.

(** A two-dimensional float array, as its list of rows. *)
Definition img : Type := list (list R).

(** A four-plane Stokes array of shape (4, ny, nx), kept as the ny-by-nx
    grid of its (I, Q, U, V) columns, so that the four planes have one
    shape by construction. *)
Definition cube : Type := list (list row4).

Definition stokes_I (p : row4) : R := let '(i, _, _, _) := p in i.
Definition stokes_Q (p : row4) : R := let '(_, q, _, _) := p in q.
Definition stokes_U (p : row4) : R := let '(_, _, u, _) := p in u.
Definition stokes_V (p : row4) : R := let '(_, _, _, v) := p in v.

Definition zip_with {A B C : Type} (f : A -> B -> C) (a : list A) (b : list B)
  : list C :=
  map (fun p => f (fst p) (snd p)) (combine a b).

(** Elementwise operations on arrays of one shape. *)
Definition img_map (f : R -> R) (a : img) : img := map (map f) a.
Definition img_map2 (f : R -> R -> R) (a b : img) : img :=
  zip_with (zip_with f) a b.

(** [a == 0] and [a[mask] = v]. *)
Definition img_eq0 (a : img) : list (list bool) := map (map (fun v => Reqb v 0)) a.
Definition img_assign (a : img) (mask : list (list bool)) (v : R) : img :=
  zip_with (zip_with (fun e (m : bool) => if m then v else e)) a mask.

(** [np.nansum(a)]; there is no NaN among the reals. *)
Definition nansum (a : img) : R := fold_right Rplus 0 (List.concat a).

Module IntegratedImages.

(** The open file with its name tables, as the function that reads the
    dataset of a (CML, frequency) index pair, and the flux scale. *)
Record t : Type := mk {
  ds : Z -> Z -> result cube;
  scale : R
}.

(** A value of [i_stokes]: an integer index, or a [str]. *)
Inductive selector : Type :=
| SelInt (k : Z)
| SelStr (s : string).

Definition stokesset (self : t) (i_cml i_freq : Z) : result cube :=
  (c <- ds self i_cml i_freq ;;
   Ok (map (map (fun p : row4 =>
                   let '(i, q, u, v) := p in
                   (i * scale self, q * scale self, u * scale self, v * scale self)))
           c))%result.

(** [arr[k]] on the first axis, of length 4, with Python's negative
    indices. *)
Definition plane (c : cube) (k : Z) : result img :=
  let pick (f : row4 -> R) : result img := Ok (map (map f) c) in
  if (4 <=? k)%Z then Raise IndexError
  else if (k <? -4)%Z then Raise IndexError
  else match (k mod 4)%Z with
       | 0%Z => pick stokes_I
       | 1%Z => pick stokes_Q
       | 2%Z => pick stokes_U
       | _ => pick stokes_V
       end.

(** [frame] with a non-string [i_stokes] and [yflip=False]; the report of
    non-finite pixels that it prints is not modelled. *)
Definition frame_index (self : t) (i_cml i_freq : Z) (k : Z) : result img :=
  (c <- stokesset self i_cml i_freq ;; plane c k)%result.

(** [flux] with a non-string [i_stokes]: [np.nansum] of the frame. *)
Definition flux_index (self : t) (i_cml i_freq : Z) (k : Z) : result R :=
  (a <- frame_index self i_cml i_freq k ;; Ok (nansum a))%result.

(** The quotient of two floats is that of the reals when the divisor is not
    zero.  For a zero divisor numpy yields an infinity or a NaN, which no
    real number stands for: [frame] and [flux] are written for a quotient
    [divide] that is left open, so that a statement made for every [divide]
    that agrees with the reals off zero cannot rest on the value of a
    quotient by zero. *)
Section Quotient.

Variable divide : R -> R -> R.

Definition frame_noflip_with (self : t) (i_cml i_freq : Z) (i_stokes : selector)
  : result img :=
  match i_stokes with
  | SelInt k => frame_index self i_cml i_freq k
  | SelStr s =>
      let i_stokes := lower s in
      let frame := frame_index self i_cml i_freq in
      (if String.eqb i_stokes "i" then frame 0%Z
       else if String.eqb i_stokes "q" then frame 1%Z
       else if String.eqb i_stokes "u" then frame 2%Z
       else if String.eqb i_stokes "v" then frame 3%Z
       else if String.eqb i_stokes "absv" then
         v <- frame 3%Z ;; Ok (img_map Rabs v)
       else if String.eqb i_stokes "l" then
         q <- frame 1%Z ;;
         u <- frame 2%Z ;;
         Ok (img_map2 (fun q u => sqrt (q ^ 2 + u ^ 2)) q u)
       else if String.eqb i_stokes "fl" then
         i <- frame 0%Z ;;
         let no_i := img_eq0 i in
         let i := img_assign i no_i 1 in
         q <- frame 1%Z ;;
         u <- frame 2%Z ;;
         let fl := img_map2 divide (img_map2 (fun q u => sqrt (q ^ 2 + u ^ 2)) q u) i in
         let fl := img_assign fl no_i 0 in
         Ok fl
       else if String.eqb i_stokes "fc" then
         i <- frame 0%Z ;;
         let no_i := img_eq0 i in
         let i := img_assign i no_i 1 in
         v <- frame 3%Z ;;
         let fc := img_map2 divide v i in
         let fc := img_assign fc no_i 0 in
         Ok fc
       else
         Raise (ValueError "unrecognized textual i_stokes value %r" [PyStr i_stokes])
      )%result
  end.

(** [frame]: with [yflip] it calls itself once without and reverses the
    rows ([arr[::-1]]). *)
Definition frame_with (self : t) (i_cml i_freq : Z) (i_stokes : selector)
    (yflip : bool) : result img :=
  if yflip then
    (arr <- frame_noflip_with self i_cml i_freq i_stokes ;; Ok (rev arr))%result
  else frame_noflip_with self i_cml i_freq i_stokes.

Definition flux_with (self : t) (i_cml i_freq : Z) (i_stokes : selector)
  : result R :=
  match i_stokes with
  | SelInt k => flux_index self i_cml i_freq k
  | SelStr s =>
      let i_stokes := lower s in
      let flux := flux_index self i_cml i_freq in
      (if String.eqb i_stokes "i" then flux 0%Z
       else if String.eqb i_stokes "q" then flux 1%Z
       else if String.eqb i_stokes "u" then flux 2%Z
       else if String.eqb i_stokes "v" then flux 3%Z
       else if String.eqb i_stokes "absv" then
         v <- flux 3%Z ;; Ok (Rabs v)
       else if String.eqb i_stokes "l" then
         q <- flux 1%Z ;;
         u <- flux 2%Z ;;
         Ok (sqrt (q ^ 2 + u ^ 2))
       else if String.eqb i_stokes "fl" then
         i <- flux 0%Z ;;
         if Reqb i 0 then Ok 0
         else
           q <- flux 1%Z ;;
           u <- flux 2%Z ;;
           Ok (divide (sqrt (q ^ 2 + u ^ 2)) i)
       else if String.eqb i_stokes "fc" then
         i <- flux 0%Z ;;
         if Reqb i 0 then Ok 0
         else
           v <- flux 3%Z ;;
           Ok (divide v i)
       else
         Raise (ValueError "unrecognized textual i_stokes value %r" [PyStr i_stokes])
      )%result
  end.

End Quotient.

(** [frame] and [flux] in the number model of this file, where the quotient
    is that of the reals. *)
Definition frame_noflip (self : t) (i_cml i_freq : Z) (i_stokes : selector)
  : result img :=
  frame_noflip_with Rdiv self i_cml i_freq i_stokes.

Definition frame (self : t) (i_cml i_freq : Z) (i_stokes : selector)
    (yflip : bool) : result img :=
  frame_with Rdiv self i_cml i_freq i_stokes yflip.

Definition flux (self : t) (i_cml i_freq : Z) (i_stokes : selector)
  : result R :=
  flux_with Rdiv self i_cml i_freq i_stokes.

(** The selector mnemonics that [frame] and [flux] recognise. *)
Definition recognized : list string :=
  ["i"; "q"; "u"; "v"; "absv"; "l"; "fl"; "fc"]%string.

(** [self.n_cmls] and [self.n_freqs]: the lengths of the two name tables
    that [__init__] reads from the file. *)
Record axes : Type := mkAxes {
  n_cmls : nat;
  n_freqs : nat
}.

Definition lightcurve (self : t) (ax : axes) (i_freq : Z) (i_stokes : selector)
  : result (list R) :=
  comprehension (fun i => flux self (Z.of_nat i) i_freq i_stokes)
                (seq 0 (n_cmls ax)).

Definition rot_avg_flux (self : t) (ax : axes) (i_freq : Z) (i_stokes : selector)
  : result R :=
  (lc <- lightcurve self ax i_freq i_stokes ;; Ok (np_mean lc))%result.

(** "Returns (min, avg, max)."  The three reductions run in this order. *)
Definition rot_flux_stats (self : t) (ax : axes) (i_freq : Z) (i_stokes : selector)
  : result (R * R * R) :=
  (lc <- lightcurve self ax i_freq i_stokes ;;
   lo <- np_min lc ;;
   let avg := np_mean lc in
   hi <- np_max lc ;;
   Ok (lo, avg, hi))%result.

(** [lc_360[:-1] = lc] fills all but the last of the [n_cmls + 1] cells, and
    [lc_360[-1] = lc[0]] the last one. *)
Definition lightcurve_360 (self : t) (ax : axes) (i_freq : Z) (i_stokes : selector)
  : result (list R * list R) :=
  (lc <- lightcurve self ax i_freq i_stokes ;;
   let cmls_360 := linspace 0 360 (n_cmls ax + 1) in
   lc0 <- py_index lc 0 ;;
   Ok (cmls_360, lc ++ [lc0]))%result.

Definition rotmovie (self : t) (ax : axes) (i_freq : Z) (i_stokes : selector)
    (yflip : bool) : result (list img) :=
  comprehension (fun i => frame self (Z.of_nat i) i_freq i_stokes yflip)
                (seq 0 (n_cmls ax)).

Definition spectrum (self : t) (ax : axes) (i_cml : Z) (i_stokes : selector)
  : result (list R) :=
  comprehension (fun i => flux self i_cml (Z.of_nat i) i_stokes)
                (seq 0 (n_freqs ax)).

Definition specmovie (self : t) (ax : axes) (i_cml : Z) (i_stokes : selector)
    (yflip : bool) : result (list img) :=
  comprehension (fun i => frame self i_cml (Z.of_nat i) i_stokes yflip)
                (seq 0 (n_freqs ax)).

End IntegratedImages.

(** ** class SimpleTorusDistribution *)

Module SimpleTorusDistribution.

Record t : Type := mk { r1 : R; r2 : R; n_e : R; p : R }.

Definition parameter_names : list string := ["n_e"; "p"]%string.

(** The pair [(n_e, p)] at one point; [just_ne] is accepted and not read. *)
Definition get_samples (self : t) (mlat mlon L : R) (just_ne : bool) : list R :=
  let r := L * cos mlat ^ 2 in
  let '(x, y, z) := sph_to_cart mlat mlon r in
  let a := r1 self in
  let b := r2 self in
  let q := (x ^ 2 + y ^ 2 + z ^ 2 - (a ^ 2 + b ^ 2)) ^ 2
           - 4 * a * b * (b ^ 2 - z ^ 2) in
  let inside := Rltb q 0 in
  let n_e := if inside then n_e self else 0 in
  let p := if inside then p self else 0 in
  [n_e; p].

(** The instance as the [distrib] of a setup. *)
Definition distribution (self : t) : Distribution :=
  mkDistribution parameter_names (get_samples self).

End SimpleTorusDistribution.

(** ** class SimpleWasherDistribution *)

Module SimpleWasherDistribution.

Record t : Type := mk {
  r_inner : R;
  r_outer : R;
  thickness : R;
  p : R;
  radial_concentration : R;
  _density_factor : R
}.

Definition parameter_names : list string := ["n_e"; "p"]%string.

(** The arguments have been through [float()], so the two quotients are
    Python's, which raise [ZeroDivisionError] on a zero divisor where numpy
    carries on. *)
Definition __init__ (r_inner r_outer thickness n_e p radial_concentration : R)
  : result t :=
  let c := radial_concentration in
  let numer := n_e * (r_outer ^ 2 - r_inner ^ 2) in
  if Req_dec_T ((c + 1) * (c + 2)) 0 then Raise ZeroDivisionError
  else
    let denom := 2 * (r_outer - r_inner) * ((c + 1) * r_inner + r_outer)
                 / ((c + 1) * (c + 2)) in
    if Req_dec_T denom 0 then Raise ZeroDivisionError
    else Ok (mk r_inner r_outer thickness p c (numer / denom)).

Definition get_samples (self : t) (mlat mlon L : R) (just_ne : bool) : list R :=
  let r := L * cos mlat ^ 2 in
  let '(x, y, z) := sph_to_cart mlat mlon r in
  let r2 := x ^ 2 + y ^ 2 in
  let inside := (Rltb (r_inner self ^ 2) r2 && Rltb r2 (r_outer self ^ 2)
                 && Rltb (Rabs z) (0.5 * thickness self))%bool in
  let n_e :=
    if inside then
      _density_factor self *
      np_power ((r_outer self - r) / (r_outer self - r_inner self))
               (radial_concentration self)
    else 0 in
  let p := if inside then p self else 0 in
  [n_e; p].

Definition distribution (self : t) : Distribution :=
  mkDistribution parameter_names (get_samples self).

End SimpleWasherDistribution.

(** ** class ImageMaker *)

Module ImageMaker.

(** The class attributes, which the keyword arguments of [__init__]
    override; a pixel count is a natural number. *)
Record t : Type := mk {
  nx : nat;
  ny : nat;
  xhalfsize : R;
  yhalfsize : R
}.

Definition default : t := mk 23 23 7 7.

Definition _xvals (self : t) : list R :=
  linspace (- xhalfsize self) (xhalfsize self) (nx self).

Definition _yvals (self : t) : list R :=
  linspace (- yhalfsize self) (yhalfsize self) (ny self).

Definition map_pixel (self : t) (ix iy : Z) : result (R * R) :=
  (x <- py_index (_xvals self) ix ;;
   y <- py_index (_yvals self) iy ;;
   Ok (x, y))%result.

(** [get_ray]: [self.setup.get_ray(x, y)] is
    [ray_tracer.create_ray(x, y, setup)], the tracer being a parameter. *)
Definition get_ray (create_ray : R -> R -> VanAllenSetup -> result Ray.t)
    (self : t) (setup : VanAllenSetup) (ix iy : Z) : result Ray.t :=
  (xy <- map_pixel self ix iy ;;
   create_ray (fst xy) (snd xy) setup)%result.

Section Imaging.

(** [self.get_ray], which a subclass may override, and the function
    applied to each ray, which returns a one-dimensional array (the Stokes
    vector of [integrate], say). *)
Variable ray_t : Type.
Variable self_get_ray : Z -> Z -> result ray_t.
Variable func : ray_t -> result (list R).

(** The body of the inner loop of [_image_ray_func_serial].  [k] is
    [v_shape] once [data] has been allocated; the write
    [data[:,iyrel,ix] = value] needs [k] numbers, or a single one, which
    numpy repeats.  The result is the pixel as stored. *)
Definition pixel (k : option nat) (ix iyabs : Z) : result (nat * list R) :=
  (ray <- self_get_ray ix iyabs ;;
   value <- func ray ;;
   let k := match k with Some k => k | None => List.length value end in
   if Nat.eqb (List.length value) k then Ok (k, value)
   else if Nat.eqb (List.length value) 1 then Ok (k, repeat (hd 0 value) k)
   else Raise (ValueError "could not broadcast input array" []))%result.

(** [for ix in range(self.nx)]. *)
Fixpoint row_loop (k : option nat) (iyabs : Z) (ixs : list nat)
  : result (option nat * list (list R)) :=
  match ixs with
  | [] => Ok (k, [])
  | ix :: rest =>
      (kv <- pixel k (Z.of_nat ix) iyabs ;;
       r <- row_loop (Some (fst kv)) iyabs rest ;;
       Ok (fst r, snd kv :: snd r))%result
  end.

(** [for iyrel, iyabs in enumerate(row_indices)]. *)
Fixpoint rows_loop (k : option nat) (nx : nat) (row_indices : list Z)
  : result (option nat * list (list (list R))) :=
  match row_indices with
  | [] => Ok (k, [])
  | iyabs :: rest =>
      (row <- row_loop k iyabs (seq 0 nx) ;;
       r <- rows_loop (fst row) nx rest ;;
       Ok (fst r, snd row :: snd r))%result
  end.

(** [range(first_row, first_row + n_rows)]. *)
Definition row_range (first_row n_rows : Z) : list Z :=
  map (fun i => (first_row + Z.of_nat i)%Z) (seq 0 (Z.to_nat n_rows)).

(** [_image_ray_func_serial].  The array [data] of shape
    [v_shape + (n_rows, nx)] is kept as its [n_rows] rows of [nx] pixels,
    each pixel a vector; every cell is written once, in row order.  The
    result is [None] when the loops have no iteration.  The optional
    printing is not modelled. *)
Definition _image_ray_func_serial (self : t) (first_row : Z) (n_rows : option Z)
  : result (option (list (list (list R)))) :=
  let n_rows := match n_rows with Some n => n | None => Z.of_nat (ny self) end in
  (r <- rows_loop None (nx self) (row_range first_row n_rows) ;;
   match fst r with
   | None => Ok None
   | Some _ => Ok (Some (snd r))
   end)%result.

End Imaging.

End ImageMaker.

(** ** class PrecomputedImageMaker(ImageMaker) *)

Module PrecomputedImageMaker.

(** One frame group of the file: the integer array [counts] of shape
    (ny, nx), and the other items, of shape (ny, nx, n), in the order in
    which iterating the group gives them. *)
Record frame_group : Type := mkGroup {
  counts : list (list nat);
  items : list (string * list (list (list R)))
}.

(** [nx] and [ny] are the shape of [counts] in the group [/frame0000];
    [cur_frame_group] is the group selected since. *)
Record t : Type := mk {
  nx : Z;
  ny : Z;
  cur_frame_group : frame_group
}.

(** The ray that [get_ray] builds: [Ray(None, None, None, setup,
    no_init=True)] with [ix], [iy] and one attribute per item set on it;
    every other attribute keeps the class default [None]. *)
Record ray : Type := mkRay {
  ray_ix : Z;
  ray_iy : Z;
  ray_attrs : list (string * list R)
}.

(** [arr[iy,ix]] for indices that are not negative. *)
Definition at2 {A : Type} (arr : list (list A)) (iy ix : Z) : result A :=
  match nth_error arr (Z.to_nat iy) with
  | Some row =>
      match nth_error row (Z.to_nat ix) with
      | Some v => Ok v
      | None => Raise IndexError
      end
  | None => Raise IndexError
  end.

(** The body of the loop over the items of the group. *)
Definition load_item (iy ix : Z) (n : nat) (r : ray)
    (item : string * list (list (list R))) : result ray :=
  let '(itemname, arr) := item in
  if String.eqb itemname "counts" then Ok r
  else
    (cell <- at2 arr iy ix ;;
     let data := firstn n cell in
     let data :=
       if String.eqb itemname "p" then map (fun v => clip v 1.5 7) data
       else if String.eqb itemname "k" then map (fun v => clip v 0 9) data
       else data in
     Ok (mkRay (ray_ix r) (ray_iy r) (dict_set (ray_attrs r) itemname data)))%result.

Fixpoint load_items (iy ix : Z) (n : nat) (r : ray)
    (l : list (string * list (list (list R)))) : result ray :=
  match l with
  | [] => Ok r
  | item :: rest =>
      (r' <- load_item iy ix n r item ;; load_items iy ix n r' rest)%result
  end.

(** [get_ray]; the integers formatted into the messages are given by
    their values. *)
Definition get_ray (self : t) (ix iy : Z) : result ray :=
  if ((ix <? 0) || (nx self <=? ix))%Z then
    Raise (ValueError "bad ix (%r); nx = %d" [PyFloat (IZR ix); PyFloat (IZR (nx self))])
  else if ((iy <? 0) || (ny self <=? iy))%Z then
    Raise (ValueError "bad iy (%r); ny = %d" [PyFloat (IZR iy); PyFloat (IZR (ny self))])
  else
    (n <- at2 (counts (cur_frame_group self)) iy ix ;;
     load_items iy ix n (mkRay ix iy []) (items (cur_frame_group self)))%result.

End PrecomputedImageMaker.

(** ** The row groups of [seed_cli] (vernon/integrate.py) *)

(** The lists [start_rows] and [row_heights] that [seed_cli] builds from the
    number of image rows and the number of groups asked for; [//] is floor
    division. *)
Definition row_groups (n_rows n_row_groups : Z) : result (list Z * list Z) :=
  if (n_row_groups =? 1)%Z then Ok ([0%Z], [n_rows])
  else if (n_row_groups =? 0)%Z then Raise ZeroDivisionError
  else
    let rest_height := (n_rows / n_row_groups)%Z in
    let first_height := (n_rows - (n_row_groups - 1) * rest_height)%Z in
    let start_rows := [0%Z; first_height] in
    let row_heights := [first_height; rest_height] in
    Ok (fold_left
          (fun (acc : list Z * list Z) (_ : nat) =>
             (fst acc ++ [(last (fst acc) 0 + rest_height)%Z],
              snd acc ++ [rest_height]))
          (seq 0 (Z.to_nat (n_row_groups - 2)))
          (start_rows, row_heights)).

(** The pairs [(start_row, n_rows)] of the tasks printed for one frame and
    one frequency: [for icg in range(n_row_groups)]. *)
Definition row_tasks (groups : list Z * list Z) (n_row_groups : Z)
  : result (list (Z * Z)) :=
  comprehension
    (fun icg =>
       (start_row <- py_index (fst groups) (Z.of_nat icg) ;;
        n_rows <- py_index (snd groups) (Z.of_nat icg) ;;
        Ok (start_row, n_rows))%result)
    (seq 0 (Z.to_nat n_row_groups)).

(** ** Vocabulary of the statements *)

(** The z coordinates that the adaptive loop may store when it is entered
    at [z]: every stored value is at most [z1], each step lies between the
    two step bounds and is no longer than the larger of the remaining
    distance and the minimum step, and the loop stops at the first value
    beyond [z1]. *)
Inductive stepping (lo hi z1 : R) : R -> list R -> Prop :=
| stepping_stop (z : R) : z1 < z -> stepping lo hi z1 z []
| stepping_step (z dz : R) (zs : list R) :
    z <= z1 -> lo <= dz <= hi -> dz <= Rmax (z1 - z) lo ->
    stepping lo hi z1 (z + dz) zs ->
    stepping lo hi z1 z (z :: zs).

(** A setup whose collaborators honour the shapes that the adaptive loop
    indexes and writes: the calculator asks only for parameters that the
    distribution provides, the distribution returns one sample per parameter
    and at least the density, and the calculator returns exactly one row of
    each coefficient. *)
Definition well_shaped (setup : VanAllenSetup) : Prop :=
  (forall n, In n (param_names (synch_calc setup)) ->
             In n (parameter_names (distrib setup))) /\
  (forall mlat mlon L,
     List.length (get_samples (distrib setup) mlat mlon L false) =
     List.length (parameter_names (distrib setup)) /\
     get_samples (distrib setup) mlat mlon L false <> []) /\
  (forall nu B n_e theta psi extras,
     exists j0 a0 r0,
       get_coeffs (synch_calc setup) nu B n_e theta psi extras =
       ([j0], [a0], [r0])).

(** [fromDipoleCentric(toDipoleCentric(lat, lon, r))]. *)
Definition dipole_round_trip (f : TiltedDipoleField.t) (lat lon r : R) : R * R * R :=
  uncurry3 (TiltedDipoleField._from_dc f) (TiltedDipoleField._to_dc f lat lon r).

(** Two longitudes that differ by a multiple of 2 pi. *)
Definition same_longitude (a b : R) : Prop :=
  exists k : Z, a = b + 2 * IZR k * PI.

(** Blocks of rows [(start, height)] that follow one another without gap
    or overlap from row [a] up to row [b]. *)
Inductive tiles : Z -> list (Z * Z) -> Z -> Prop :=
| tiles_nil (a : Z) : tiles a [] a
| tiles_cons (a h b : Z) (rest : list (Z * Z)) :
    (0 <= h)%Z -> tiles (a + h) rest b -> tiles a ((a, h) :: rest) b.

(** An array of the shape (ny, nx) of another: as many rows, and row by
    row as many cells. *)
Definition same_shape {A B : Type} (a : list (list A)) (b : list (list B)) : Prop :=
  Forall2 (fun ra rb => List.length ra = List.length rb) a b.

(** ** Example configurations *)

(** A distribution without particles. *)
Definition empty_distribution : Distribution :=
  mkDistribution ["n_e"; "p"]%string (fun _ _ _ _ => [0; 0]).

(** A distribution with density 2 outside the shell L = 5 and none inside. *)
Definition outer_distribution : Distribution :=
  mkDistribution ["n_e"]%string
    (fun _ _ L _ => [if Rlt_dec L 5 then 0 else 2]).

(** A distribution with density 2 and power-law index 3 everywhere. *)
Definition uniform_distribution : Distribution :=
  mkDistribution ["n_e"; "p"]%string (fun _ _ _ _ => [2; 3]).

(** A calculator with constant coefficients, for which [lam1 = 1]. *)
Definition constant_calc : SynchCalc :=
  mkSynchCalc []
    (fun _ _ _ _ _ _ => ([(1, 0, 0, 0)], [(1, 1, 0, 0)], [(0, 0, 0)])).

Definition example_setup (d : Distribution) (radius : R) : VanAllenSetup :=
  mkSetup (ObserverToBodycentric.mk 0 0) (TiltedDipoleField.mk 0 3000)
          d constant_calc radius 1.

(** A setup in which the stiffness step is 0.00999995 body radii at every
    point: [lam1 = 1] and [dz = 50 / 1 / radius]. *)
Definition grazing_setup : VanAllenSetup :=
  example_setup empty_distribution (50 / 0.00999995).

(** A root finder that gives up at once and reports it. *)
Definition failing_brentq (f : R -> R) (a b : R) : result (R * RootResults) :=
  Ok (a, mkRootResults a 0 0 false).

(** A ray on which no coefficient has been computed yet. *)
Definition fresh_ray : Ray.t :=
  Ray.mk (example_setup empty_distribution 1) 0 0 [0; 1]
         (Some [0; 1]) None None (Some [0; 0]) (Some [0; 0]) (Some [0; 0])
         None None None [("n_e"%string, [0; 0]); ("p"%string, [0; 0])].

(** * Properties *)

(** ** Construction-time validation *)

Section Construction.

Variable angcen : R -> R.

Lemma observer_init_out_of_range (loc cml : R) :
  loc < 0 \/ halfpi < loc ->
  ObserverToBodycentric.__init__ angcen loc cml =
  Raise (ValueError "illegal latitude-of-center %r" [PyFloat loc]).
Proof.
  intros H. unfold ObserverToBodycentric.__init__.
  destruct (Rlt_dec loc 0) as [|Hn]; [reflexivity|].
  destruct (Rlt_dec halfpi loc); [reflexivity|].
  destruct H; contradiction.
Qed.

Lemma observer_init_in_range (loc cml : R) :
  0 <= loc <= halfpi ->
  ObserverToBodycentric.__init__ angcen loc cml =
  Ok (ObserverToBodycentric.mk loc (angcen cml)).
Proof.
  intros [H0 H1]. unfold ObserverToBodycentric.__init__.
  destruct (Rlt_dec loc 0); [lra|].
  destruct (Rlt_dec halfpi loc); [lra|reflexivity].
Qed.

Lemma dipole_init_out_of_range (tilt moment : R) :
  tilt < 0 \/ PI <= tilt ->
  TiltedDipoleField.__init__ tilt moment =
  Raise (ValueError "illegal tilt value %r" [PyFloat tilt]).
Proof.
  intros H. unfold TiltedDipoleField.__init__.
  destruct (Rlt_dec tilt 0); [reflexivity|].
  destruct (Rle_dec PI tilt); [reflexivity|].
  destruct H; contradiction.
Qed.

Lemma dipole_init_in_range (tilt moment : R) :
  0 <= tilt < PI ->
  TiltedDipoleField.__init__ tilt moment = Ok (TiltedDipoleField.mk tilt moment).
Proof.
  intros [H0 H1]. unfold TiltedDipoleField.__init__.
  destruct (Rlt_dec tilt 0); [lra|].
  destruct (Rle_dec PI tilt); [lra|reflexivity].
Qed.

(** C5.  Constructing an [ObserverToBodycentric] with a latitude of centre
    outside [0, pi/2], or a [TiltedDipoleField] with a tilt outside [0, pi),
    raises [ValueError]; for every value in range the constructor returns an
    object whose stored value is the argument itself. *)
Theorem construction_validates_range (loc cml tilt moment : R) :
  (loc < 0 \/ PI / 2 < loc ->
   ObserverToBodycentric.__init__ angcen loc cml =
   Raise (ValueError "illegal latitude-of-center %r" [PyFloat loc])) /\
  (0 <= loc <= PI / 2 ->
   exists o, ObserverToBodycentric.__init__ angcen loc cml = Ok o /\
             ObserverToBodycentric.loc o = loc) /\
  (tilt < 0 \/ PI <= tilt ->
   TiltedDipoleField.__init__ tilt moment =
   Raise (ValueError "illegal tilt value %r" [PyFloat tilt])) /\
  (0 <= tilt < PI ->
   exists f, TiltedDipoleField.__init__ tilt moment = Ok f /\
             TiltedDipoleField.tilt f = tilt).
Proof.
  repeat split.
  - intros H. apply observer_init_out_of_range. exact H.
  - intros H. eexists. split; [apply observer_init_in_range; exact H|reflexivity].
  - intros H. apply dipole_init_out_of_range. exact H.
  - intros H. eexists. split; [apply dipole_init_in_range; exact H|reflexivity].
Qed.

End Construction.

Lemma construction_validates_range_witness :
  ObserverToBodycentric.__init__ (fun a => a) (-1) 0 =
    Raise (ValueError "illegal latitude-of-center %r" [PyFloat (-1)]) /\
  (exists o, ObserverToBodycentric.__init__ (fun a => a) (PI / 4) 0 = Ok o /\
             ObserverToBodycentric.loc o = PI / 4) /\
  TiltedDipoleField.__init__ PI 3000 =
    Raise (ValueError "illegal tilt value %r" [PyFloat PI]) /\
  (exists f, TiltedDipoleField.__init__ 1 3000 = Ok f /\
             TiltedDipoleField.tilt f = 1).
Proof.
  pose proof PI_RGT_0 as Hpi.
  pose proof PI_4 as Hpi4.
  destruct (construction_validates_range (fun a => a) (-1) 0 PI 3000)
    as (Ho & _ & Ht & _).
  destruct (construction_validates_range (fun a => a) (PI / 4) 0 1 3000)
    as (_ & Ho' & _ & Ht').
  split; [apply Ho; left; lra|].
  split; [apply Ho'; lra|].
  split; [apply Ht; right; lra|].
  apply Ht'. pose proof PI2_3_2. lra.
Defined.

(** ** Stokes selectors of [IntegratedImages] *)

Section Images.

Import IntegratedImages.

Lemma zip_with_map {A B C D : Type} (f : B -> C -> D) (g : A -> B) (h : A -> C)
    (l : list A) :
  zip_with f (map g l) (map h l) = map (fun a => f (g a) (h a)) l.
Proof.
  unfold zip_with. induction l as [|a l IH]; simpl; [reflexivity|].
  f_equal. exact IH.
Qed.

Lemma zip_with_map2 {A B C D : Type} (f : B -> C -> D) (g : A -> B) (h : A -> C)
    (c : list (list A)) :
  zip_with (zip_with f) (map (map g) c) (map (map h) c) =
  map (map (fun a => f (g a) (h a))) c.
Proof.
  rewrite zip_with_map. apply map_ext. intros row. apply zip_with_map.
Qed.



Lemma frame_index_planes (self : t) (i_cml i_freq : Z) (c : cube) :
  stokesset self i_cml i_freq = Ok c ->
  frame_index self i_cml i_freq 0 = Ok (map (map stokes_I) c) /\
  frame_index self i_cml i_freq 1 = Ok (map (map stokes_Q) c) /\
  frame_index self i_cml i_freq 2 = Ok (map (map stokes_U) c) /\
  frame_index self i_cml i_freq 3 = Ok (map (map stokes_V) c).
Proof.
  intros H. unfold frame_index. rewrite H. simpl. repeat split; reflexivity.
Qed.

Lemma stokesset_returns (self : t) (i_cml i_freq : Z) (c : cube) :
  ds self i_cml i_freq = Ok c -> returns (stokesset self i_cml i_freq).
Proof.
  intros H. unfold stokesset. rewrite H. simpl. eexists. reflexivity.
Qed.

Lemma frame_flips (self : t) (i_cml i_freq : Z) (i_stokes : selector) (yflip : bool) :
  frame self i_cml i_freq i_stokes yflip =
  if yflip then
    (arr <- frame_noflip self i_cml i_freq i_stokes ;; Ok (rev arr))%result
  else frame_noflip self i_cml i_freq i_stokes.
Proof. reflexivity. Qed.

Lemma frame_unrecognized (self : t) (i_cml i_freq : Z) (s : string) (yflip : bool) :
  ~ In (lower s) recognized ->
  frame self i_cml i_freq (SelStr s) yflip =
  Raise (ValueError "unrecognized textual i_stokes value %r" [PyStr (lower s)]).
Proof.
  intros Hn.
  assert (E : frame_noflip self i_cml i_freq (SelStr s) =
              Raise (ValueError "unrecognized textual i_stokes value %r"
                                [PyStr (lower s)])).
  { unfold frame_noflip, frame_noflip_with.
    repeat match goal with
    | |- context [String.eqb (lower s) ?k] =>
        destruct (String.eqb_spec (lower s) k) as [E|_];
        [exfalso; apply Hn; rewrite E; simpl; tauto|]
    end.
    reflexivity. }
  rewrite frame_flips, E. destruct yflip; reflexivity.
Qed.

Lemma flux_unrecognized (self : t) (i_cml i_freq : Z) (s : string) :
  ~ In (lower s) recognized ->
  flux self i_cml i_freq (SelStr s) =
  Raise (ValueError "unrecognized textual i_stokes value %r" [PyStr (lower s)]).
Proof.
  intros Hn. unfold flux, flux_with.
  repeat match goal with
  | |- context [String.eqb (lower s) ?k] =>
      destruct (String.eqb_spec (lower s) k) as [E|_];
      [exfalso; apply Hn; rewrite E; simpl; tauto|]
  end.
  reflexivity.
Qed.

Lemma flux_index_planes (self : t) (i_cml i_freq : Z) (c : cube) :
  stokesset self i_cml i_freq = Ok c ->
  flux_index self i_cml i_freq 0 = Ok (nansum (map (map stokes_I) c)) /\
  flux_index self i_cml i_freq 1 = Ok (nansum (map (map stokes_Q) c)) /\
  flux_index self i_cml i_freq 2 = Ok (nansum (map (map stokes_U) c)) /\
  flux_index self i_cml i_freq 3 = Ok (nansum (map (map stokes_V) c)).
Proof.
  intros H. destruct (frame_index_planes self i_cml i_freq c H) as (H0 & H1 & H2 & H3).
  unfold flux_index.
  rewrite H0, H1, H2, H3. simpl. repeat split; reflexivity.
Qed.

Lemma frame_recognized_returns (self : t) (i_cml i_freq : Z) (s : string)
    (yflip : bool) (c : cube) :
  In (lower s) recognized ->
  ds self i_cml i_freq = Ok c ->
  returns (frame self i_cml i_freq (SelStr s) yflip).
Proof.
  intros Hin Hds.
  destruct (stokesset_returns self i_cml i_freq c Hds) as [c' Hc'].
  destruct (frame_index_planes self i_cml i_freq c' Hc') as (H0 & H1 & H2 & H3).
  assert (E : returns (frame_noflip self i_cml i_freq (SelStr s))).
  { unfold frame_noflip, frame_noflip_with. simpl in Hin.
    repeat (destruct Hin as [Hin|Hin]; [rewrite <- Hin; simpl;
      rewrite ?H0, ?H1, ?H2, ?H3; simpl; eexists; reflexivity|]).
    contradiction. }
  destruct E as [a Ha]. rewrite frame_flips, Ha.
  destruct yflip; simpl; eexists; reflexivity.
Qed.

Lemma flux_recognized_returns (self : t) (i_cml i_freq : Z) (s : string) (c : cube) :
  In (lower s) recognized ->
  ds self i_cml i_freq = Ok c ->
  returns (flux self i_cml i_freq (SelStr s)).
Proof.
  intros Hin Hds.
  destruct (stokesset_returns self i_cml i_freq c Hds) as [c' Hc'].
  destruct (flux_index_planes self i_cml i_freq c' Hc') as (H0 & H1 & H2 & H3).
  unfold flux, flux_with. simpl in Hin.
  repeat (destruct Hin as [Hin|Hin]; [rewrite <- Hin; simpl;
    rewrite ?H0, ?H1, ?H2, ?H3; simpl;
    try match goal with |- context [Reqb ?a ?b] => destruct (Reqb a b) end;
    simpl; rewrite ?H0, ?H1, ?H2, ?H3; simpl; eexists; reflexivity|]).
  contradiction.
Qed.

(** C9.  A string selector whose lower-case form is not one of
    'i', 'q', 'u', 'v', 'absv', 'l', 'fl', 'fc' makes both [frame] and [flux]
    raise the [ValueError] that names that lower-case form; a selector whose
    lower-case form is one of them makes both return whenever the dataset
    itself can be read. *)
Theorem unrecognized_selector_is_rejected (self : t) (i_cml i_freq : Z)
    (s : string) (yflip : bool) :
  (~ In (lower s) recognized ->
   frame self i_cml i_freq (SelStr s) yflip =
     Raise (ValueError "unrecognized textual i_stokes value %r" [PyStr (lower s)]) /\
   flux self i_cml i_freq (SelStr s) =
     Raise (ValueError "unrecognized textual i_stokes value %r" [PyStr (lower s)])) /\
  (In (lower s) recognized ->
   forall c, ds self i_cml i_freq = Ok c ->
   returns (frame self i_cml i_freq (SelStr s) yflip) /\
   returns (flux self i_cml i_freq (SelStr s))).
Proof.
  split.
  - intros Hn. split; [apply frame_unrecognized|apply flux_unrecognized]; exact Hn.
  - intros Hin c Hds. split.
    + apply (frame_recognized_returns self i_cml i_freq s yflip c Hin Hds).
    + apply (flux_recognized_returns self i_cml i_freq s c Hin Hds).
Qed.

End Images.

Lemma unrecognized_selector_is_rejected_witness :
  let self := IntegratedImages.mk (fun _ _ => Ok [[(1, 2, 3, 4)]]) 1 in
  (IntegratedImages.frame self 0 0 (IntegratedImages.SelStr "Stokes-I") true =
     Raise (ValueError "unrecognized textual i_stokes value %r" [PyStr "stokes-i"]) /\
   IntegratedImages.flux self 0 0 (IntegratedImages.SelStr "Stokes-I") =
     Raise (ValueError "unrecognized textual i_stokes value %r" [PyStr "stokes-i"])) /\
  (returns (IntegratedImages.frame self 0 0 (IntegratedImages.SelStr "AbsV") true) /\
   returns (IntegratedImages.flux self 0 0 (IntegratedImages.SelStr "AbsV"))).
Proof.
  intros self. split.
  - apply (proj1 (unrecognized_selector_is_rejected self 0 0 "Stokes-I" true)).
    vm_compute. intuition discriminate.
  - apply (proj2 (unrecognized_selector_is_rejected self 0 0 "AbsV" true)
             ltac:(vm_compute; tauto) [[(1, 2, 3, 4)]]).
    reflexivity.
Defined.

Section FractionalPolarization.

Import IntegratedImages.



Lemma img_map2_map {A : Type} (g : R -> R -> R) (f1 f2 : A -> R)
    (c : list (list A)) :
  img_map2 g (map (map f1) c) (map (map f2) c) =
  map (map (fun p => g (f1 p) (f2 p))) c.
Proof.
  unfold img_map2. apply zip_with_map2.
Qed.

Variable divide : R -> R -> R.
Hypothesis Hdivide : forall a b : R, b <> 0 -> divide a b = a / b.

Variable self : t.
Variables i_cml i_freq : Z.
Variable c : cube.
Hypothesis Hset : stokesset self i_cml i_freq = Ok c.








End FractionalPolarization.


(** ** Memoised coefficients of a ray *)

Lemma ensure_rt_coeffs_sets_j (r r1 : Ray.t) (log log1 : list CoeffCall) :
  Ray.ensure_rt_coeffs r log = (Ok r1, log1) -> Ray.j r1 <> None.
Proof.
  unfold Ray.ensure_rt_coeffs. intros H.
  destruct (Ray.j r) eqn:Ej.
  - inversion H; subst. rewrite Ej. discriminate.
  - destruct (Ray.collect_extras r _); try discriminate.
    destruct (get_coeffs _ _ _ _ _ _ _) as [[j' a'] rho'].
    inversion H; subst. simpl. discriminate.
Qed.

Lemma ensure_rt_coeffs_cached (r : Ray.t) (log : list CoeffCall) :
  Ray.j r <> None -> Ray.ensure_rt_coeffs r log = (Ok r, log).
Proof.
  unfold Ray.ensure_rt_coeffs. intros H.
  destruct (Ray.j r); [reflexivity|contradiction].
Qed.

(** C7.  Once [ensure_rt_coeffs] has run on a ray, a second call leaves
    the log of calculator invocations as it is and returns the very same
    ray, with the coefficient arrays [j], [alpha] and [rho] that the first
    call left. *)
Theorem ensure_rt_coeffs_idempotent (r r1 : Ray.t) (log log1 : list CoeffCall) :
  Ray.ensure_rt_coeffs r log = (Ok r1, log1) ->
  Ray.ensure_rt_coeffs r1 log1 = (Ok r1, log1) /\ Ray.j r1 <> None.
Proof.
  intros H. pose proof (ensure_rt_coeffs_sets_j r r1 log log1 H) as Hj.
  split; [apply ensure_rt_coeffs_cached; exact Hj|exact Hj].
Qed.

Lemma ensure_rt_coeffs_idempotent_witness :
  let r1 := Ray.mk (example_setup empty_distribution 1) 0 0 [0; 1]
         (Some [0; 1]) None None (Some [0; 0]) (Some [0; 0]) (Some [0; 0])
         (Some [(1, 0, 0, 0)]) (Some [(1, 1, 0, 0)]) (Some [(0, 0, 0)])
         [("n_e"%string, [0; 0]); ("p"%string, [0; 0])] in
  let log1 := [mkCoeffCall 1 (Some [0; 0]) (Some [0; 0]) (Some [0; 0])
                           (Some [0; 0]) []] in
  Ray.ensure_rt_coeffs fresh_ray [] = (Ok r1, log1) /\
  Ray.ensure_rt_coeffs r1 log1 = (Ok r1, log1) /\ Ray.j r1 <> None.
Proof.
  intros r1 log1.
  assert (H : Ray.ensure_rt_coeffs fresh_ray [] = (Ok r1, log1)) by reflexivity.
  split; [exact H|].
  exact (ensure_rt_coeffs_idempotent fresh_ray r1 [] log1 H).
Defined.

(** ** Attributes set by name *)

Lemma dict_get_set_same {V : Type} (d : list (string * V)) (k : string) (v : V) :
  dict_get (dict_set d k v) k = Some v.
Proof.
  induction d as [|[k' v'] d IH]; simpl.
  - rewrite String.eqb_refl. reflexivity.
  - destruct (String.eqb k' k) eqn:E; simpl; rewrite E; [reflexivity|exact IH].
Qed.

Lemma dict_get_set_other {V : Type} (d : list (string * V)) (k k' : string) (v : V) :
  k <> k' -> dict_get (dict_set d k v) k' = dict_get d k'.
Proof.
  intros Hne. induction d as [|[k0 v0] d IH]; simpl.
  - destruct (String.eqb_spec k k'); [contradiction|reflexivity].
  - destruct (String.eqb_spec k0 k) as [E|E]; simpl.
    + subst k0. destruct (String.eqb_spec k k'); [contradiction|reflexivity].
    + destruct (String.eqb k0 k'); [reflexivity|exact IH].
Qed.

Lemma dict_get_set_keeps {V : Type} (d : list (string * V)) (k k' : string) (v : V) :
  dict_get d k' = Some v -> dict_get (dict_set d k v) k' = Some v.
Proof.
  intros H. destruct (String.eqb_spec k k') as [E|E].
  - subst. apply dict_get_set_same.
  - rewrite dict_get_set_other; assumption.
Qed.

Lemma setattr_all_fields (v : list R) (names : list string) (r : Ray.t) :
  let r' := fold_left (fun r pn => Ray.setattr r pn v) names r in
  Ray.setup r' = Ray.setup r /\ Ray.z r' = Ray.z r /\ Ray.s r' = Ray.s r /\
  Ray.theta r' = Ray.theta r /\ Ray.B r' = Ray.B r /\ Ray.psi r' = Ray.psi r /\
  Ray.j r' = Ray.j r /\
  (forall pn, dict_get (Ray.attrs r) pn = Some v ->
              dict_get (Ray.attrs r') pn = Some v) /\
  (forall pn, In pn names -> dict_get (Ray.attrs r') pn = Some v).
Proof.
  revert r. induction names as [|n names IH]; intros r; simpl.
  - repeat split; try reflexivity; [auto|contradiction].
  - destruct (IH (Ray.setattr r n v)) as (H1 & H2 & H3 & H4 & H5 & H6 & H7 & H8 & H9).
    simpl in *. repeat split; try assumption.
    + intros pn Hpn. apply H8. apply dict_get_set_keeps. exact Hpn.
    + intros pn [E|Hin].
      * subst. apply H8. apply dict_get_set_same.
      * apply H9. exact Hin.
Qed.

(** ** The empty ray *)

Lemma np_arange_nonzero (start stop step : R) :
  step <> 0 -> np_arange start stop step = Ok (arange start stop step).
Proof.
  intros H. unfold np_arange. destruct (Req_dec_T step 0); [contradiction|reflexivity].
Qed.

Lemma existsb_none_above (cutoff : R) (f : R -> R) (zs : list R) :
  Forall (fun z => ~ cutoff < f z) zs ->
  existsb (fun ne => Rltb cutoff ne) (map f zs) = false.
Proof.
  induction 1 as [|z zs Hz _ IH]; simpl; [reflexivity|].
  rewrite IH. unfold Rltb. destruct (Rlt_dec cutoff (f z)); [contradiction|reflexivity].
Qed.

Section EmptyRay.

Variable brentq : (R -> R) -> R -> R -> result (R * RootResults).
Variable sample_ray : R -> R -> R -> R -> VanAllenSetup -> result Ray.t.
Variable self : BasicRayTracer.t.
Variables x y : R.
Variable setup : VanAllenSetup.

(** C3.  When no coarse sample along z (taken with a nonzero step) has an
    electron density above [ne0_cutoff], [create_ray] returns (it does not
    raise) a two-sample ray between the unrefined bounds on which [theta],
    [B], [psi] and every distribution parameter are arrays of zeros. *)
Theorem no_density_yields_empty_ray :
  BasicRayTracer.delta_z self <> 0 ->
  Forall (fun ne => ~ BasicRayTracer.ne0_cutoff self < ne)
         (BasicRayTracer.coarse_nesamps self x y setup) ->
  exists r,
    BasicRayTracer.create_ray_via brentq sample_ray self x y setup = Ok r /\
    Ray.z r = linspace (BasicRayTracer.start_z self x y)
                       (BasicRayTracer.way_front_z self) 2 /\
    Ray.theta r = Some [0; 0] /\
    Ray.B r = Some [0; 0] /\
    Ray.psi r = Some [0; 0] /\
    (forall pn, In pn (parameter_names (distrib setup)) ->
                Ray.getattr r pn = Some (Some [0; 0])).
Proof.
  intros Hstep Hnone. unfold BasicRayTracer.create_ray_via.
  rewrite (np_arange_nonzero _ _ _ Hstep). cbn [bind].
  unfold BasicRayTracer.coarse_nesamps, BasicRayTracer.coarse_zsamps in Hnone.
  rewrite Forall_map in Hnone.
  rewrite (existsb_none_above _ _ _ Hnone). cbn [negb].
  unfold Ray.__init__, linspace. cbn [seq map np_min List.length zeros repeat].
  match goal with
  | |- context [fold_left ?f ?names ?r0] =>
      destruct (setattr_all_fields [0; 0] names r0)
        as (_ & Hz & _ & Hth & HB & Hpsi & _ & _ & Hattr)
  end.
  eexists. split; [reflexivity|].
  split; [exact Hz|]. split; [exact Hth|]. split; [exact HB|]. split; [exact Hpsi|].
  intros pn Hpn. unfold Ray.getattr. rewrite (Hattr pn Hpn). reflexivity.
Qed.

End EmptyRay.

Lemma no_density_yields_empty_ray_witness :
  exists r,
    BasicRayTracer.create_ray failing_brentq BasicRayTracer.default 100 100
      (example_setup empty_distribution 1) = Ok r /\
    Ray.z r = linspace (BasicRayTracer.start_z BasicRayTracer.default 100 100) 15 2 /\
    Ray.theta r = Some [0; 0] /\
    Ray.B r = Some [0; 0] /\
    Ray.psi r = Some [0; 0] /\
    (forall pn, In pn ["n_e"; "p"]%string -> Ray.getattr r pn = Some (Some [0; 0])).
Proof.
  apply (no_density_yields_empty_ray failing_brentq
           (BasicRayTracer._sample_ray BasicRayTracer.default)
           BasicRayTracer.default 100 100 (example_setup empty_distribution 1)).
  { simpl. lra. }
  unfold BasicRayTracer.coarse_nesamps. rewrite Forall_map.
  apply Forall_forall. intros z _. unfold BasicRayTracer.z_to_ne.
  destruct (ObserverToBodycentric.__call__ _ _ _ _) as [[blat blon] br].
  destruct (TiltedDipoleField.__call__ _ _ _ _) as [[mlat mlon] L].
  simpl. lra.
Defined.

(** ** Tightening the bounds of a ray *)

Lemma Rltb_true (a b : R) : a < b -> Rltb a b = true.
Proof. intros H. unfold Rltb. destruct (Rlt_dec a b); [reflexivity|contradiction]. Qed.

Lemma Rltb_false (a b : R) : ~ a < b -> Rltb a b = false.
Proof. intros H. unfold Rltb. destruct (Rlt_dec a b); [contradiction|reflexivity]. Qed.

Lemma Rltb_lt (a b : R) : Rltb a b = true -> a < b.
Proof. unfold Rltb. destruct (Rlt_dec a b); [trivial|discriminate]. Qed.

Lemma select_above_nonempty (cutoff : R) (f : R -> R) (zs : list R) :
  existsb (fun ne => Rltb cutoff ne) (map f zs) = true ->
  select_above cutoff zs (map f zs) <> [].
Proof.
  unfold select_above. induction zs as [|z zs IH]; simpl; [discriminate|].
  destruct (Rltb cutoff (f z)); simpl; [discriminate|exact IH].
Qed.

Lemma np_min_returns (a : list R) : a <> [] -> returns (np_min a).
Proof. destruct a; [contradiction|]. intros _. eexists. reflexivity. Qed.

Lemma np_max_returns (a : list R) : a <> [] -> returns (np_max a).
Proof. destruct a; [contradiction|]. intros _. eexists. reflexivity. Qed.

Section BoundSearch.

Variable brentq : (R -> R) -> R -> R -> result (R * RootResults).
Variable sample_ray : R -> R -> R -> R -> VanAllenSetup -> result Ray.t.
Variable self : BasicRayTracer.t.
Variables x y : R.
Variable setup : VanAllenSetup.

Let cutoff : R := BasicRayTracer.ne0_cutoff self.
Let z0 : R := BasicRayTracer.start_z self x y.
Let z1 : R := BasicRayTracer.way_front_z self.
Let zsamps : list R := BasicRayTracer.coarse_zsamps self x y.
Let nesamps : list R := BasicRayTracer.coarse_nesamps self x y setup.
Let ofs_n_e : R -> R := fun z => BasicRayTracer.z_to_ne x y setup z - cutoff.
Let above : list R := select_above cutoff zsamps nesamps.

Lemma find_bound_unconverged (fmt : string) (a zstart bound : R) (info : RootResults)
    (sel : result R) :
  sel = Ok zstart ->
  brentq ofs_n_e a zstart = Ok (bound, info) ->
  converged info = false ->
  BasicRayTracer.find_bound brentq fmt ofs_n_e a sel =
  Raise (RuntimeError fmt [PyFloat bound; PyFloat zstart; PyInfo info]).
Proof.
  intros Hs Hb Hc. unfold BasicRayTracer.find_bound. rewrite Hs. cbn [bind].
  rewrite Hb. cbn [bind]. rewrite Hc. reflexivity.
Qed.

Lemma find_bound_ok (fmt : string) (a bound : R) (sel : result R) :
  BasicRayTracer.find_bound brentq fmt ofs_n_e a sel = Ok bound ->
  exists zstart info,
    sel = Ok zstart /\ brentq ofs_n_e a zstart = Ok (bound, info) /\
    converged info = true.
Proof.
  unfold BasicRayTracer.find_bound. intros H.
  destruct sel as [zstart| |]; cbn [bind] in H; try discriminate H.
  destruct (brentq ofs_n_e a zstart) as [[b info]| |] eqn:Hb;
    cbn [bind] in H; try discriminate H.
  destruct (converged info) eqn:Hc; [|discriminate H].
  inversion H; subst. exists zstart, info. auto.
Qed.

(** C4.  Suppose the coarse search finds a density above the cutoff.  If
    the root find for the start bound runs and reports that it did not
    converge, [create_ray] raises the [RuntimeError] "could not find suitable
    starting point" formatted with the bound that the root finder returned,
    the other end [zstart] of the bracket and the root finder's report; the
    same holds for the end bound once the start bound is settled; and a ray
    is returned only if every root find that ran has converged. *)
Theorem unconverged_bound_is_fatal :
  BasicRayTracer.delta_z self <> 0 ->
  existsb (fun ne => Rltb cutoff ne) nesamps = true ->
  (forall zstart bound info,
     hd 0 nesamps < cutoff ->
     np_min above = Ok zstart ->
     brentq ofs_n_e z0 zstart = Ok (bound, info) ->
     converged info = false ->
     BasicRayTracer.create_ray_via brentq sample_ray self x y setup =
     Raise (RuntimeError "could not find suitable starting point: %r %r %r"
                         [PyFloat bound; PyFloat zstart; PyInfo info])) /\
  (forall zend bound info,
     (~ hd 0 nesamps < cutoff \/
      exists zstart z0' info0,
        np_min above = Ok zstart /\
        brentq ofs_n_e z0 zstart = Ok (z0', info0) /\ converged info0 = true) ->
     last nesamps 0 < cutoff ->
     np_max above = Ok zend ->
     brentq ofs_n_e z1 zend = Ok (bound, info) ->
     converged info = false ->
     BasicRayTracer.create_ray_via brentq sample_ray self x y setup =
     Raise (RuntimeError "could not find suitable ending point: %r %r %r"
                         [PyFloat bound; PyFloat zend; PyInfo info])) /\
  (forall r,
     BasicRayTracer.create_ray_via brentq sample_ray self x y setup = Ok r ->
     (hd 0 nesamps < cutoff ->
      exists zstart bound info,
        np_min above = Ok zstart /\
        brentq ofs_n_e z0 zstart = Ok (bound, info) /\ converged info = true) /\
     (last nesamps 0 < cutoff ->
      exists zend bound info,
        np_max above = Ok zend /\
        brentq ofs_n_e z1 zend = Ok (bound, info) /\ converged info = true)).
Proof.
  intros Hdelta Hany. unfold BasicRayTracer.create_ray_via.
  rewrite (np_arange_nonzero _ _ _ Hdelta). cbn [bind].
  change (arange (BasicRayTracer.start_z self x y) (BasicRayTracer.way_front_z self)
                 (BasicRayTracer.delta_z self)) with zsamps.
  change (map (BasicRayTracer.z_to_ne x y setup) zsamps) with nesamps.
  fold z0 z1 cutoff. fold ofs_n_e. fold above.
  rewrite Hany. cbn [negb].
  split; [|split].
  - intros zstart bound info Hlt Hmin Hb Hc.
    rewrite (Rltb_true _ _ Hlt).
    rewrite (find_bound_unconverged _ _ _ _ _ _ Hmin Hb Hc). reflexivity.
  - intros zend bound info Hstart Hlt Hmax Hb Hc.
    rewrite (Rltb_true _ _ Hlt).
    rewrite (find_bound_unconverged _ _ _ _ _ _ Hmax Hb Hc).
    destruct Hstart as [Hn|(zstart & z0' & info0 & Hmin & Hb0 & Hc0)].
    + rewrite (Rltb_false _ _ Hn). reflexivity.
    + destruct (Rltb (hd 0 nesamps) cutoff); [|reflexivity].
      unfold BasicRayTracer.find_bound at 1. rewrite Hmin. cbn [bind].
      rewrite Hb0. cbn [bind]. rewrite Hc0. reflexivity.
  - intros r Hr. split.
    + intros Hlt. rewrite (Rltb_true _ _ Hlt) in Hr.
      destruct (BasicRayTracer.find_bound brentq _ ofs_n_e z0 (np_min above))
        as [b| |] eqn:Hf; cbn [bind] in Hr; try discriminate.
      destruct (find_bound_ok _ _ _ _ Hf) as (zstart & info & Hs & Hb & Hc).
      exists zstart, b, info. auto.
    + intros Hlt. rewrite (Rltb_true _ _ Hlt) in Hr.
      destruct (if Rltb (hd 0 nesamps) cutoff then _ else _) as [b0| |];
        cbn [bind] in Hr; try discriminate.
      destruct (BasicRayTracer.find_bound brentq _ ofs_n_e z1 (np_max above))
        as [b| |] eqn:Hf; cbn [bind] in Hr; try discriminate.
      destruct (find_bound_ok _ _ _ _ Hf) as (zend & info & Hs & Hb & Hc).
      exists zend, b, info. auto.
Qed.

End BoundSearch.

(** ** The line of sight through the centre of the disk *)

Lemma ceil_between (x : R) (n : Z) : IZR n - 1 < x <= IZR n -> ceil x = n.
Proof.
  intros [Hlo Hhi]. unfold ceil.
  assert (E : (1 - n)%Z = up (- x)).
  { apply tech_up; rewrite minus_IZR; lra. }
  rewrite <- E. lia.
Qed.

Lemma rot2d_zero (u v : R) : rot2d u v 0 = (u, v).
Proof. unfold rot2d. rewrite cos_0, sin_0. f_equal; ring. Qed.

Lemma clip_inside (a lo hi : R) : lo <= a <= hi -> clip a lo hi = a.
Proof.
  intros [H1 H2]. unfold clip. rewrite (Rmax_left a lo H1). apply Rmin_left. exact H2.
Qed.

Lemma arctan2_pos_x_axis (x : R) : 0 < x -> arctan2 0 x = 0.
Proof.
  intros H. unfold arctan2. destruct (Rlt_dec 0 x); [|contradiction].
  replace (0 / x) with 0 by (field; lra). apply atan_0.
Qed.

Lemma cart_to_sph_x_axis (x : R) : 0 < x -> cart_to_sph x 0 0 = (0, 0, x).
Proof.
  intros H. unfold cart_to_sph.
  replace (x ^ 2 + 0 ^ 2 + 0 ^ 2) with (x * x) by ring.
  rewrite (sqrt_square x) by lra.
  replace (0 / Rmax x 1e-10) with 0 by (unfold Rdiv; ring).
  rewrite clip_inside by lra. rewrite asin_0, (arctan2_pos_x_axis x H). reflexivity.
Qed.

Lemma sph_to_cart_x_axis (r : R) : sph_to_cart 0 0 r = (r, 0, 0).
Proof. unfold sph_to_cart. rewrite cos_0, sin_0. repeat f_equal; ring. Qed.

Lemma centre_line_bodycentric (z : R) :
  0 < z ->
  ObserverToBodycentric.__call__ (ObserverToBodycentric.mk 0 0) 0 0 z = (0, 0, z).
Proof.
  intros H. unfold ObserverToBodycentric.__call__, ObserverToBodycentric._to_bc.
  cbn [ObserverToBodycentric.loc ObserverToBodycentric.cml].
  rewrite !rot2d_zero. apply cart_to_sph_x_axis. exact H.
Qed.

Lemma untilted_equator_magnetic (moment r : R) :
  0 < r ->
  TiltedDipoleField.__call__ (TiltedDipoleField.mk 0 moment) 0 0 r = (0, 0, r).
Proof.
  intros H. unfold TiltedDipoleField.__call__, TiltedDipoleField._to_dc.
  cbn [TiltedDipoleField.tilt]. rewrite sph_to_cart_x_axis, cos_0, sin_0.
  replace (- 0 * 0 + 1 * r) with r by ring.
  replace (1 * 0 + 0 * r) with 0 by ring.
  rewrite (cart_to_sph_x_axis r H), cos_0. f_equal. field.
Qed.

Lemma centre_line_density (radius z : R) :
  0 < z ->
  BasicRayTracer.z_to_ne 0 0 (example_setup outer_distribution radius) z =
  if Rlt_dec z 5 then 0 else 2.
Proof.
  intros H. unfold BasicRayTracer.z_to_ne, example_setup.
  cbn [o2b bfield distrib]. rewrite (centre_line_bodycentric z H).
  rewrite (untilted_equator_magnetic 3000 z H). reflexivity.
Qed.

Lemma centre_start_z : BasicRayTracer.start_z BasicRayTracer.default 0 0 = 1.03.
Proof.
  unfold BasicRayTracer.start_z, BasicRayTracer.default.
  cbn [BasicRayTracer.surface_delta_radius BasicRayTracer.way_back_z].
  destruct (Rle_dec (0 ^ 2 + 0 ^ 2) 1) as [_|Hn]; [|exfalso; apply Hn; lra].
  replace ((1 + 0.03) ^ 2 - (0 ^ 2 + 0 ^ 2)) with (1.03 * 1.03) by lra.
  apply sqrt_square. lra.
Qed.

Lemma centre_zsamps :
  arange (BasicRayTracer.start_z BasicRayTracer.default 0 0) 15 1 =
  map (fun i => 1.03 + INR i * 1) (seq 0 14).
Proof.
  unfold arange. rewrite centre_start_z.
  rewrite (ceil_between ((15 - 1.03) / 1) 14) by lra. reflexivity.
Qed.

Lemma unconverged_bound_is_fatal_witness :
  exists zstart,
    BasicRayTracer.create_ray failing_brentq BasicRayTracer.default 0 0
      (example_setup outer_distribution 1) =
    Raise (RuntimeError "could not find suitable starting point: %r %r %r"
             [PyFloat (BasicRayTracer.start_z BasicRayTracer.default 0 0);
              PyFloat zstart;
              PyInfo (mkRootResults
                        (BasicRayTracer.start_z BasicRayTracer.default 0 0)
                        0 0 false)]).
Proof.
  assert (Hany : existsb (fun ne => Rltb 1 ne)
            (map (BasicRayTracer.z_to_ne 0 0 (example_setup outer_distribution 1))
                 (arange (BasicRayTracer.start_z BasicRayTracer.default 0 0) 15 1))
            = true).
  { apply existsb_exists. exists 2. split.
    - apply in_map_iff. exists (1.03 + INR 4 * 1). split.
      + rewrite centre_line_density by (simpl; lra).
        destruct (Rlt_dec (1.03 + INR 4 * 1) 5) as [Hlt|_]; [simpl in Hlt; lra|reflexivity].
      + rewrite centre_zsamps. apply in_map_iff. exists 4%nat.
        split; [reflexivity|]. apply in_seq. lia.
    - apply Rltb_true. lra. }
  destruct (np_min_returns _ (select_above_nonempty 1 _ _ Hany)) as [zstart Hmin].
  exists zstart.
  assert (Hdelta : BasicRayTracer.delta_z BasicRayTracer.default <> 0)
    by (simpl; lra).
  apply (proj1 (unconverged_bound_is_fatal failing_brentq
                  (BasicRayTracer._sample_ray BasicRayTracer.default)
                  BasicRayTracer.default 0 0
                  (example_setup outer_distribution 1) Hdelta Hany)
               zstart
               (BasicRayTracer.start_z BasicRayTracer.default 0 0)
               (mkRootResults (BasicRayTracer.start_z BasicRayTracer.default 0 0)
                              0 0 false)).
  - unfold BasicRayTracer.coarse_nesamps, BasicRayTracer.coarse_zsamps.
    cbn [BasicRayTracer.way_front_z BasicRayTracer.delta_z BasicRayTracer.default
         BasicRayTracer.ne0_cutoff].
    rewrite centre_zsamps. cbn [seq map hd].
    rewrite centre_line_density by (simpl; lra).
    destruct (Rlt_dec (1.03 + INR 0 * 1) 5) as [_|Hn]; [lra|simpl in Hn; lra].
  - exact Hmin.
  - reflexivity.
  - reflexivity.
Defined.

(** ** The adaptive sampling loop *)

Lemma stepping_upper (lo hi z1 z : R) (zs : list R) :
  stepping lo hi z1 z zs -> Forall (fun v => v <= z1) zs.
Proof. induction 1; constructor; assumption. Qed.

Lemma stepping_first (lo hi z1 z : R) (zs : list R) :
  stepping lo hi z1 z zs -> z <= z1 -> exists zs', zs = z :: zs'.
Proof.
  intros H Hz. destruct H as [z Hgt|z dz zs _ _ _ _]; [lra|]. eexists. reflexivity.
Qed.



Lemma stepping_consecutive (lo hi z1 z : R) (zs : list R) :
  stepping lo hi z1 z zs ->
  forall i a b, nth_error zs i = Some a -> nth_error zs (S i) = Some b ->
                lo <= b - a <= hi.
Proof.
  induction 1 as [|z dz zs Hz Hdz Hrem Hs IH]; intros i a b Ha Hb.
  - destruct i; discriminate.
  - destruct i as [|i].
    + simpl in Ha, Hb. inversion Ha; subst a.
      inversion Hs; subst; simpl in Hb; [discriminate|].
      inversion Hb; subst b. lra.
    + simpl in Ha. exact (IH i a b Ha Hb).
Qed.

Lemma stepping_last (lo hi z1 z : R) (zs : list R) (d : R) :
  stepping lo hi z1 z zs -> z <= z1 ->
  z1 - lo < last zs d <= z1.
Proof.
  induction 1 as [|z dz zs Hz Hdz Hrem Hs IH]; intros Hle; [lra|].
  inversion Hs as [z' Hgt|z' dz' zs' Hz' Hdz' Hrem' Hs']; subst.
  - simpl. split; [|lra].
    unfold Rmax in Hrem. destruct (Rle_dec (z1 - z) lo); lra.
  - change (last (z :: (z + dz) :: zs') d) with (last ((z + dz) :: zs') d).
    apply IH. exact Hz'.
Qed.

Section AdaptiveLoop.

Variable self : FormalRayTracer.t.
Variables x y z0 z1 : R.
Variable setup : VanAllenSetup.
Variable max_dxlam1 : R.

Let lo : R := FormalRayTracer.min_step_size z0 z1.
Let hi : R := FormalRayTracer.max_step_size self z0 z1.

Hypothesis Hbounds : z0 < z1.

Lemma min_step_positive : 0 < lo.
Proof. unfold lo, FormalRayTracer.min_step_size. nra. Qed.

Lemma min_step_below_max :
  (1 <= Z.of_nat (FormalRayTracer.min_n_pts self) <= 100000)%Z -> lo <= hi.
Proof.
  intros Hpts.
  unfold lo, hi, FormalRayTracer.min_step_size, FormalRayTracer.max_step_size.
  assert (Hn : 1 <= INR (FormalRayTracer.min_n_pts self) <= 100000).
  { rewrite INR_IZR_INZ. split; apply IZR_le; lia. }
  assert (Hinv : / 100000 <= / INR (FormalRayTracer.min_n_pts self)).
  { apply Rinv_le_contravar; lra. }
  unfold Rdiv. nra.
Qed.

Lemma step_size_bounds (z : R) (alpha : row4) (rho : row3) :
  lo <= FormalRayTracer.step_size self z0 z1 setup max_dxlam1 z alpha rho
     <= Rmax lo hi /\
  FormalRayTracer.step_size self z0 z1 setup max_dxlam1 z alpha rho
    <= Rmax (z1 - z) lo.
Proof.
  unfold FormalRayTracer.step_size. fold lo hi.
  set (raw := ext_div_pos _ _).
  assert (Hcap : ext_min raw hi <= hi).
  { destruct raw; simpl; [apply Rmin_r|lra]. }
  pose proof (Rmin_l (ext_min raw hi) (z1 - z)) as H1.
  pose proof (Rmin_r (ext_min raw hi) (z1 - z)) as H2.
  pose proof (Rmax_l lo hi) as H3.
  pose proof (Rmax_r lo hi) as H4.
  repeat split.
  - apply Rmax_r.
  - apply Rmax_lub; lra.
  - apply Rmax_lub; [|apply Rmax_r].
    eapply Rle_trans; [exact H2|apply Rmax_l].
Qed.

Lemma sample_at_ok (z dz : R) (row : FormalRayTracer.sample) :
  FormalRayTracer.sample_at self x y z0 z1 setup max_dxlam1 z = Ok (row, dz) ->
  FormalRayTracer.buf_z row = z /\
  dz = FormalRayTracer.step_size self z0 z1 setup max_dxlam1 z
         (FormalRayTracer.buf_alpha row) (FormalRayTracer.buf_rho row).
Proof.
  unfold FormalRayTracer.sample_at. intros H.
  destruct (ObserverToBodycentric.__call__ _ _ _ _) as [[blat blon] br].
  destruct (TiltedDipoleField.bhat _ _ _ _ _) as [[b1 b2] b3].
  destruct (TiltedDipoleField.__call__ _ _ _ _) as [[mlat mlon] L].
  destruct (FormalRayTracer.pick_extras _ _) as [ex| |]; cbn [bind] in H;
    try discriminate H.
  destruct (get_samples _ _ _ _ _) as [|d0 ds]; [discriminate H|].
  destruct (get_coeffs _ _ _ _ _ _ _) as [[js [|a0 als]] [|r0 rs]];
    try discriminate H.
  cbv zeta in H.
  destruct js as [|j0 [|j1 js]]; try discriminate H.
  destruct als as [|a1 als]; try discriminate H.
  destruct rs as [|r1 rs]; try discriminate H.
  destruct (Nat.eqb _ _); [|destruct (Nat.eqb _ _); [|discriminate H]];
    inversion H; subst; simpl; split; reflexivity.
Qed.

Lemma sample_at_never_out_of_fuel (z : R) :
  FormalRayTracer.sample_at self x y z0 z1 setup max_dxlam1 z <> OutOfFuel.
Proof.
  unfold FormalRayTracer.sample_at.
  destruct (ObserverToBodycentric.__call__ _ _ _ _) as [[blat blon] br].
  destruct (TiltedDipoleField.bhat _ _ _ _ _) as [[b1 b2] b3].
  destruct (TiltedDipoleField.__call__ _ _ _ _) as [[mlat mlon] L].
  assert (Hp : forall d names, FormalRayTracer.pick_extras d names <> OutOfFuel).
  { intros d names. induction names as [|n names IH]; simpl; [discriminate|].
    destruct (dict_get d n); [|discriminate].
    destruct (FormalRayTracer.pick_extras d names); [discriminate|discriminate|contradiction]. }
  destruct (FormalRayTracer.pick_extras _ _) as [ex| |] eqn:E; cbn [bind];
    [|discriminate|exfalso; exact (Hp _ _ E)].
  destruct (get_samples _ _ _ _ _) as [|d0 ds]; [discriminate|].
  destruct (get_coeffs _ _ _ _ _ _ _) as [[js [|a0 als]] [|r0 rs]];
    try discriminate.
  cbv zeta.
  destruct js as [|j0 [|j1 js]]; try discriminate.
  destruct als as [|a1 als]; try discriminate.
  destruct rs as [|r1 rs]; try discriminate.
  destruct (Nat.eqb _ _); [|destruct (Nat.eqb _ _)]; discriminate.
Qed.

Lemma sample_loop_stepping (fuel : nat) :
  forall z buf res,
    FormalRayTracer.sample_loop self x y z0 z1 setup max_dxlam1 fuel z buf = Ok res ->
    exists rows, res = buf ++ rows /\
                 stepping lo (Rmax lo hi) z1 z (map FormalRayTracer.buf_z rows).
Proof.
  induction fuel as [|fuel IH]; intros z buf res H; simpl in H;
    destruct (Rle_dec z z1) as [Hle|Hgt].
  - discriminate H.
  - inversion H; subst. exists []. rewrite app_nil_r.
    split; [reflexivity|]. constructor. lra.
  - destruct (FormalRayTracer.sample_at _ _ _ _ _ _ _ z) as [[row dz]| |] eqn:Es;
      try discriminate H.
    destruct (sample_at_ok _ _ _ Es) as [Hz Hdz].
    destruct (IH _ _ _ H) as (rows & Hres & Hstep).
    exists (row :: rows). split.
    + rewrite Hres, <- app_assoc. reflexivity.
    + simpl. rewrite Hz.
      destruct (step_size_bounds z (FormalRayTracer.buf_alpha row)
                                 (FormalRayTracer.buf_rho row)) as [Hb Hr].
      rewrite <- Hdz in Hb, Hr.
      apply (stepping_step lo (Rmax lo hi) z1 z dz); assumption.
  - inversion H; subst. exists []. rewrite app_nil_r.
    split; [reflexivity|]. constructor. lra.
Qed.

Lemma sample_loop_terminates (fuel : nat) :
  forall z buf,
    z1 - z < INR fuel * lo ->
    FormalRayTracer.sample_loop self x y z0 z1 setup max_dxlam1 fuel z buf <> OutOfFuel.
Proof.
  pose proof min_step_positive as Hlo.
  induction fuel as [|fuel IH]; intros z buf Hrem; simpl;
    destruct (Rle_dec z z1) as [Hle|Hgt]; try discriminate.
  - simpl in Hrem. lra.
  - destruct (FormalRayTracer.sample_at _ _ _ _ _ _ _ z) as [[row dz]| |] eqn:Es.
    + destruct (sample_at_ok _ _ _ Es) as [_ Hdz].
      destruct (step_size_bounds z (FormalRayTracer.buf_alpha row)
                                 (FormalRayTracer.buf_rho row)) as [Hb _].
      rewrite <- Hdz in Hb. apply IH. rewrite S_INR in Hrem. lra.
    + discriminate.
    + exfalso. exact (sample_at_never_out_of_fuel z Es).
Qed.

End AdaptiveLoop.

Lemma setattr_fold_fields {A : Type} (k : A -> string) (v : A -> list R)
    (l : list A) (r : Ray.t) :
  let r' := fold_left (fun r a => Ray.setattr r (k a) (v a)) l r in
  Ray.z r' = Ray.z r /\ Ray.s r' = Ray.s r.
Proof.
  revert r. induction l as [|a l IH]; intros r; simpl; [split; reflexivity|].
  destruct (IH (Ray.setattr r (k a) (v a))) as [Hz Hs]. simpl in *.
  split; assumption.
Qed.

Section AdaptiveRay.

Variable self : FormalRayTracer.t.
Variables x y z0 z1 : R.
Variable setup : VanAllenSetup.
Variable max_dxlam1 : R.

Let lo : R := FormalRayTracer.min_step_size z0 z1.
Let hi : R := FormalRayTracer.max_step_size self z0 z1.

Hypothesis Hbounds : z0 < z1.

Lemma sample_ray_shape (fuel : nat) (r : Ray.t) :
  FormalRayTracer._sample_ray self x y z0 z1 setup max_dxlam1 fuel = Ok r ->
  exists zs,
    Ray.z r = z0 :: zs /\
    Ray.s r = Some (map (fun zi => (zi - z0) * radius setup) (z0 :: zs)) /\
    stepping lo (Rmax lo hi) z1 z0 (z0 :: zs).
Proof.
  unfold FormalRayTracer._sample_ray. intros H.
  destruct (FormalRayTracer.min_n_pts self) as [|npts] eqn:En; [discriminate H|].
  destruct (FormalRayTracer.sample_loop _ _ _ _ _ _ _ fuel z0 []) as [buf| |] eqn:El;
    cbn [bind] in H; try discriminate H.
  destruct (sample_loop_stepping self x y z0 z1 setup max_dxlam1
              fuel z0 [] buf El) as (rows & Hrows & Hstep).
  simpl in Hrows. subst rows.
  destruct (stepping_first _ _ _ _ _ Hstep (Rlt_le _ _ Hbounds)) as [zs Hzs].
  fold lo hi. rewrite Hzs in H, Hstep.
  match type of H with
  | Ok (fold_left (fun acc ip => Ray.setattr acc (@?k ip) (@?v ip)) ?l ?r0) = _ =>
      destruct (setattr_fold_fields k v l r0) as [Ez Es]
  end.
  inversion H; subst r. exists zs.
  split; [exact Ez|]. split; [exact Es|exact Hstep].
Qed.

Lemma sample_ray_terminates (fuel : nat) :
  (100001 <= Z.of_nat fuel)%Z ->
  FormalRayTracer._sample_ray self x y z0 z1 setup max_dxlam1 fuel <> OutOfFuel.
Proof.
  intros Hfuel. unfold FormalRayTracer._sample_ray.
  assert (Hrem : z1 - z0 < INR fuel * lo).
  { assert (100001 <= INR fuel) by (rewrite INR_IZR_INZ; apply IZR_le; exact Hfuel).
    unfold lo, FormalRayTracer.min_step_size. nra. }
  pose proof (sample_loop_terminates self x y z0 z1 setup max_dxlam1 Hbounds
                fuel z0 [] Hrem) as Hl.
  destruct (FormalRayTracer.min_n_pts self) as [|npts]; [discriminate|].
  destruct (FormalRayTracer.sample_loop _ _ _ _ _ _ _ fuel z0 []) as [buf| |];
    cbn [bind]; [|discriminate|contradiction].
  destruct (map FormalRayTracer.buf_z buf); discriminate.
Qed.

End AdaptiveRay.

(** ** The adaptive loop on well-shaped setups *)

Lemma dict_set_keeps_key {V : Type} (d : list (string * V)) (k k' : string) (v : V) :
  dict_get d k <> None -> dict_get (dict_set d k' v) k <> None.
Proof.
  intros H. destruct (String.eqb_spec k' k) as [E|E].
  - subst. rewrite dict_get_set_same. discriminate.
  - rewrite dict_get_set_other; assumption.
Qed.

Lemma dict_of_has_key {V : Type} (pairs : list (string * V)) (k : string) :
  In k (map fst pairs) -> dict_get (dict_of pairs) k <> None.
Proof.
  unfold dict_of.
  assert (G : forall d,
             dict_get d k <> None \/ In k (map fst pairs) ->
             dict_get (fold_left (fun d kv => dict_set d (fst kv) (snd kv)) pairs d) k
             <> None).
  { induction pairs as [|[k0 v0] pairs IH]; intros d H; simpl.
    - destruct H as [H|[]]. exact H.
    - apply IH. simpl in H. destruct H as [H|[H|H]].
      + left. apply dict_set_keeps_key. exact H.
      + left. subst. rewrite dict_get_set_same. discriminate.
      + right. exact H. }
  intros H. apply G. right. exact H.
Qed.

Lemma combine_keys {V : Type} (names : list string) :
  forall (vals : list V) (n : string),
    (List.length names <= List.length vals)%nat ->
    In n names -> In n (map fst (combine names vals)).
Proof.
  induction names as [|n0 names IH]; intros vals n Hlen Hin; [contradiction|].
  destruct vals as [|v vals]; simpl in Hlen; [lia|].
  simpl. destruct Hin as [E|Hin]; [left; exact E|right].
  apply IH; [lia|exact Hin].
Qed.

Lemma pick_extras_returns (d : list (string * R)) (names : list string) :
  (forall n, In n names -> dict_get d n <> None) ->
  returns (FormalRayTracer.pick_extras d names).
Proof.
  induction names as [|n names IH]; intros H; simpl.
  - eexists. reflexivity.
  - destruct (dict_get d n) eqn:E; [|exfalso; apply (H n); [left; reflexivity|exact E]].
    destruct IH as [ex Hex]; [intros m Hm; apply H; right; exact Hm|].
    rewrite Hex. eexists. reflexivity.
Qed.

Section WellShaped.

Variable self : FormalRayTracer.t.
Variables x y z0 z1 : R.
Variable setup : VanAllenSetup.
Variable max_dxlam1 : R.

Hypothesis Hbounds : z0 < z1.
Hypothesis Hshape : well_shaped setup.

Lemma sample_at_returns (z : R) :
  returns (FormalRayTracer.sample_at self x y z0 z1 setup max_dxlam1 z).
Proof.
  destruct Hshape as (Hnames & Hsamps & Hcoeffs).
  unfold FormalRayTracer.sample_at.
  destruct (ObserverToBodycentric.__call__ _ _ _ _) as [[blat blon] br].
  destruct (TiltedDipoleField.bhat _ _ _ _ _) as [[b1 b2] b3].
  destruct (TiltedDipoleField.__call__ _ _ _ _) as [[mlat mlon] L].
  destruct (Hsamps mlat mlon L) as [Hlen Hne].
  destruct (pick_extras_returns
              (dict_of (combine (parameter_names (distrib setup))
                                (get_samples (distrib setup) mlat mlon L false)))
              (param_names (synch_calc setup))) as [ex Hex].
  { intros n Hn. apply dict_of_has_key. apply combine_keys; [lia|].
    apply Hnames. exact Hn. }
  rewrite Hex. cbn [bind].
  destruct (get_samples (distrib setup) mlat mlon L false) as [|d0 ds];
    [contradiction|].
  match goal with
  | |- context [get_coeffs ?c ?a1 ?a2 ?a3 ?a4 ?a5 ?a6] =>
      destruct (Hcoeffs a1 a2 a3 a4 a5 a6) as (j0 & a0 & r0 & E)
  end.
  rewrite E. cbv zeta. rewrite Hlen, Nat.eqb_refl. eexists. reflexivity.
Qed.

Lemma sample_loop_never_raises (fuel : nat) :
  forall z buf e,
    FormalRayTracer.sample_loop self x y z0 z1 setup max_dxlam1 fuel z buf <> Raise e.
Proof.
  induction fuel as [|fuel IH]; intros z buf e; simpl;
    destruct (Rle_dec z z1); try discriminate.
  destruct (sample_at_returns z) as [[row dz] E]. rewrite E. apply IH.
Qed.

Lemma sample_ray_returns (fuel : nat) :
  (1 <= FormalRayTracer.min_n_pts self)%nat ->
  (100001 <= Z.of_nat fuel)%Z ->
  returns (FormalRayTracer._sample_ray self x y z0 z1 setup max_dxlam1 fuel).
Proof.
  intros Hpts Hfuel.
  pose proof (sample_ray_terminates self x y z0 z1 setup max_dxlam1 Hbounds
                fuel Hfuel) as Hterm.
  unfold FormalRayTracer._sample_ray in *.
  destruct (FormalRayTracer.min_n_pts self) as [|npts]; [lia|].
  destruct (FormalRayTracer.sample_loop self x y z0 z1 setup max_dxlam1 fuel z0 [])
    as [buf|e|] eqn:El; cbn [bind] in *.
  - destruct (sample_loop_stepping self x y z0 z1 setup max_dxlam1
                fuel z0 [] buf El) as (rows & Hrows & Hstep).
    simpl in Hrows. subst rows.
    destruct (stepping_first _ _ _ _ _ Hstep (Rlt_le _ _ Hbounds)) as [zs Hzs].
    rewrite Hzs. eexists. reflexivity.
  - exfalso. exact (sample_loop_never_raises fuel z0 [] e El).
  - contradiction.
Qed.

End WellShaped.

Section AdaptiveSteps.

Variable self : FormalRayTracer.t.
Variables x y z0 z1 : R.
Variable setup : VanAllenSetup.
Variable max_dxlam1 : R.

Let lo : R := FormalRayTracer.min_step_size z0 z1.
Let hi : R := FormalRayTracer.max_step_size self z0 z1.

Hypothesis Hbounds : z0 < z1.

(** C1 (as amended).  On a ray that the adaptive strategy samples between
    bounds [z0 < z1], with positive [max_dxlam1] and body radius (the
    quotients of the stiffness step are modelled for these) and between 1 and
    100000 for [min_n_pts], the first stored z is [z0], every step between
    consecutive samples (and every step that the loop computes at all) lies
    between [min_step_size] and [max_step_size], no stored z lies beyond
    [z1], and the last stored z lies within one minimum step below [z1].
    With at least 100001 iterations allowed the loop has ended, and
    on a well-shaped setup it has then returned a ray. *)
Theorem adaptive_steps_within_bounds (fuel : nat) (r : Ray.t) :
  0 < max_dxlam1 -> 0 < radius setup ->
  (1 <= Z.of_nat (FormalRayTracer.min_n_pts self) <= 100000)%Z ->
  FormalRayTracer._sample_ray self x y z0 z1 setup max_dxlam1 fuel = Ok r ->
  nth_error (Ray.z r) 0 = Some z0 /\
  (forall i a b,
     nth_error (Ray.z r) i = Some a -> nth_error (Ray.z r) (S i) = Some b ->
     lo <= b - a <= hi) /\
  (forall z alpha rho,
     lo <= FormalRayTracer.step_size self z0 z1 setup max_dxlam1 z alpha rho <= hi) /\
  Forall (fun z => z <= z1) (Ray.z r) /\
  z1 - lo < last (Ray.z r) z0 <= z1 /\
  (forall fuel',
     (100001 <= Z.of_nat fuel')%Z ->
     FormalRayTracer._sample_ray self x y z0 z1 setup max_dxlam1 fuel' <> OutOfFuel) /\
  (well_shaped setup ->
   forall fuel',
     (100001 <= Z.of_nat fuel')%Z ->
     returns (FormalRayTracer._sample_ray self x y z0 z1 setup max_dxlam1 fuel')).
Proof.
  intros _ _ Hpts H.
  destruct (sample_ray_shape self x y z0 z1 setup max_dxlam1 Hbounds fuel r H)
    as (zs & Ez & _ & Hstep).
  assert (Ehi : Rmax lo hi = hi).
  { apply Rmax_right. exact (min_step_below_max self z0 z1 Hbounds Hpts). }
  change (stepping lo (Rmax lo hi) z1 z0 (z0 :: zs)) in Hstep.
  rewrite Ehi in Hstep.
  rewrite Ez. split; [reflexivity|].
  split; [exact (stepping_consecutive _ _ _ _ _ Hstep)|].
  split; [intros z alpha rho; rewrite <- Ehi;
          exact (proj1 (step_size_bounds self z0 z1 setup max_dxlam1
                          z alpha rho))|].
  split; [exact (stepping_upper _ _ _ _ _ Hstep)|].
  split; [exact (stepping_last _ _ _ _ _ z0 Hstep (Rlt_le _ _ Hbounds))|].
  split; [exact (sample_ray_terminates self x y z0 z1 setup max_dxlam1 Hbounds)|].
  intros Hshape fuel' Hfuel.
  apply (sample_ray_returns self x y z0 z1 setup max_dxlam1 Hbounds Hshape fuel');
    [lia|exact Hfuel].
Qed.

End AdaptiveSteps.

(** ** A ray whose last sample falls short of [z1] *)

Lemma lam1_unit : FormalRayTracer.lam1 (1, 1, 0, 0) (0, 0, 0) = 1.
Proof.
  unfold FormalRayTracer.lam1.
  replace (0.5 * (1 ^ 2 + 0 ^ 2 + 0 ^ 2 - (0 ^ 2 + 0 ^ 2))) with 0.5 by lra.
  replace (0.5 ^ 2 + (1 * 0 + 0 * 0 + 0 * 0) ^ 2) with (0.5 * 0.5) by lra.
  rewrite sqrt_square by lra.
  replace (0.5 + 0.5) with 1 by lra. apply sqrt_1.
Qed.

Lemma grazing_step (z : R) :
  FormalRayTracer.step_size FormalRayTracer.default 0 2 grazing_setup 50 z
    (1, 1, 0, 0) (0, 0, 0) =
  Rmax (Rmin 0.00999995 (2 - z)) 0.00002.
Proof.
  unfold FormalRayTracer.step_size. rewrite lam1_unit.
  unfold ext_div. destruct (Req_dec_T 1 0) as [E|_]; [lra|].
  unfold FormalRayTracer.max_step_size, FormalRayTracer.min_step_size.
  cbn [ext_div_pos ext_min grazing_setup example_setup radius
       FormalRayTracer.min_n_pts FormalRayTracer.default].
  replace (INR 200) with 200 by (rewrite INR_IZR_INZ; reflexivity).
  replace (50 / 1 / (50 / 0.00999995)) with 0.00999995 by (field; lra).
  replace ((2 - 0) / 200) with 0.01 by lra.
  replace (1e-5 * (2 - 0)) with 0.00002 by lra.
  rewrite (Rmin_left 0.00999995 0.01) by lra. reflexivity.
Qed.

Lemma grazing_sample_at (z : R) :
  exists row,
    FormalRayTracer.sample_at FormalRayTracer.default 0 0 0 2 grazing_setup 50 z =
    Ok (row, Rmax (Rmin 0.00999995 (2 - z)) 0.00002) /\
    FormalRayTracer.buf_z row = z.
Proof.
  unfold FormalRayTracer.sample_at.
  destruct (ObserverToBodycentric.__call__ _ _ _ _) as [[blat blon] br].
  destruct (TiltedDipoleField.bhat _ _ _ _ _) as [[b1 b2] b3].
  destruct (TiltedDipoleField.__call__ _ _ _ _) as [[mlat mlon] L].
  cbn [grazing_setup example_setup synch_calc constant_calc param_names get_coeffs
       distrib empty_distribution get_samples FormalRayTracer.pick_extras bind].
  rewrite grazing_step. eexists. split; reflexivity.
Qed.

Lemma grazing_loop (n : nat) :
  forall z buf,
    z + INR n * 0.00999995 = 1.99999 ->
    exists rows,
      FormalRayTracer.sample_loop FormalRayTracer.default 0 0 0 2 grazing_setup 50
        (n + 2) z buf = Ok (buf ++ rows) /\
      last (map FormalRayTracer.buf_z rows) 0 = 1.99999.
Proof.
  induction n as [|n IH]; intros z buf Hz.
  - simpl in Hz. assert (Ez : z = 1.99999) by lra.
    destruct (grazing_sample_at z) as (row & Hrow & Hbz).
    cbn [Nat.add FormalRayTracer.sample_loop].
    destruct (Rle_dec z 2) as [_|Hn]; [|lra].
    rewrite Hrow.
    destruct (Rle_dec (z + Rmax (Rmin 0.00999995 (2 - z)) 0.00002) 2) as [Hle|_].
    + exfalso. pose proof (Rmax_r (Rmin 0.00999995 (2 - z)) 0.00002). lra.
    + exists [row]. split; [reflexivity|]. simpl. rewrite Hbz. exact Ez.
  - rewrite S_INR in Hz.
    assert (Hpos : 0 <= INR n) by apply pos_INR.
    destruct (grazing_sample_at z) as (row & Hrow & Hbz).
    change (S n + 2)%nat with (S (n + 2)).
    cbn [FormalRayTracer.sample_loop].
    destruct (Rle_dec z 2) as [_|Hn]; [|lra].
    rewrite Hrow.
    assert (Estep : Rmax (Rmin 0.00999995 (2 - z)) 0.00002 = 0.00999995).
    { rewrite Rmin_left by lra. apply Rmax_left. lra. }
    rewrite Estep.
    destruct (IH (z + 0.00999995) (buf ++ [row])) as (rows & Hrows & Hlast); [lra|].
    exists (row :: rows). split.
    + rewrite Hrows, <- app_assoc. reflexivity.
    + destruct rows as [|row' rows]; [simpl in Hlast; lra|exact Hlast].
Qed.

Lemma grazing_ray :
  exists r,
    FormalRayTracer._sample_ray FormalRayTracer.default 0 0 0 2 grazing_setup 50 202
      = Ok r /\
    last (Ray.z r) 0 = 1.99999.
Proof.
  destruct (grazing_loop 200 0 []) as (rows & Hrows & Hlast).
  { replace (INR 200) with 200 by (rewrite INR_IZR_INZ; reflexivity). lra. }
  unfold FormalRayTracer._sample_ray.
  cbn [FormalRayTracer.min_n_pts FormalRayTracer.default].
  change (200 + 2)%nat with 202%nat in Hrows. rewrite Hrows. cbn [app bind].
  destruct (map FormalRayTracer.buf_z rows) as [|zf zs] eqn:Ez;
    [simpl in Hlast; lra|].
  match goal with
  | |- exists _, Ok (fold_left (fun acc ip => Ray.setattr acc (@?k ip) (@?v ip)) ?l ?r0) = _ /\ _ =>
      destruct (setattr_fold_fields k v l r0) as [Hz _]
  end.
  eexists. split; [reflexivity|]. rewrite Hz. exact Hlast.
Qed.

Lemma adaptive_last_sample_not_z1 :
  exists r,
    FormalRayTracer._sample_ray FormalRayTracer.default 0 0 0 2 grazing_setup 50 202
      = Ok r /\
    last (Ray.z r) 0 <> 2.
Proof.
  destruct grazing_ray as (r & Hr & Hlast).
  exists r. split; [exact Hr|]. rewrite Hlast. lra.
Qed.

Lemma adaptive_steps_within_bounds_witness :
  exists r,
    FormalRayTracer._sample_ray FormalRayTracer.default 0 0 0 2 grazing_setup 50 202
      = Ok r /\
    nth_error (Ray.z r) 0 = Some 0 /\
    Forall (fun z => z <= 2) (Ray.z r) /\
    2 - FormalRayTracer.min_step_size 0 2 < last (Ray.z r) 0 <= 2.
Proof.
  destruct grazing_ray as (r & Hr & _).
  exists r. split; [exact Hr|].
  assert (Hb : 0 < 2) by lra.
  assert (Hp : (1 <= Z.of_nat (FormalRayTracer.min_n_pts FormalRayTracer.default)
                <= 100000)%Z) by (simpl; lia).
  assert (Hm : 0 < 50) by lra.
  assert (Hrad : 0 < radius grazing_setup) by (simpl; lra).
  destruct (adaptive_steps_within_bounds FormalRayTracer.default 0 0 0 2
              grazing_setup 50 Hb 202 r Hm Hrad Hp Hr)
    as (H0 & _ & _ & Hall & Hlast & _ & _).
  split; [exact H0|]. split; [exact Hall|exact Hlast].
Defined.

(** ** Path length along a ray *)







Section PathLength.

Variables x y z0 z1 : R.
Variable setup : VanAllenSetup.

Hypothesis Hbounds : z0 < z1.
Hypothesis Hradius : 0 < radius setup.




End PathLength.


(** ** Polar angle and latitude of a Cartesian point *)

Lemma sqrt_polar (x y : R) :
  x <> 0 -> sqrt (x ^ 2 + y ^ 2) = Rabs x * sqrt (1 + (y / x)²).
Proof.
  intros Hx.
  replace (x ^ 2 + y ^ 2) with (Rsqr x * (1 + (y / x)²)) by (unfold Rsqr; field; exact Hx).
  rewrite sqrt_mult; [|apply Rle_0_sqr|pose proof (Rle_0_sqr (y / x)); lra].
  rewrite sqrt_Rsqr_abs. reflexivity.
Qed.

Lemma arctan2_polar (x y : R) :
  sqrt (x ^ 2 + y ^ 2) * cos (arctan2 y x) = x /\
  sqrt (x ^ 2 + y ^ 2) * sin (arctan2 y x) = y.
Proof.
  unfold arctan2.
  assert (Hs : forall t, 0 < sqrt (1 + t²)).
  { intros t. apply sqrt_lt_R0. pose proof (Rle_0_sqr t). lra. }
  destruct (Rlt_dec 0 x) as [Hpos|Hnpos].
  - rewrite sqrt_polar by lra. rewrite Rabs_right by lra.
    rewrite cos_atan, sin_atan. pose proof (Hs (y / x)).
    split; field; lra.
  - destruct (Rlt_dec x 0) as [Hneg|Hnneg].
    + rewrite sqrt_polar by lra. rewrite Rabs_left by lra.
      pose proof (Hs (y / x)).
      destruct (Rle_dec 0 y).
      * rewrite neg_cos, neg_sin, cos_atan, sin_atan. split; field; lra.
      * unfold Rminus. rewrite cos_plus, sin_plus, cos_neg, sin_neg, cos_PI, sin_PI.
        rewrite cos_atan, sin_atan. split; field; lra.
    + assert (Ex : x = 0) by lra. subst x.
      replace (0 ^ 2 + y ^ 2) with (Rsqr y) by (unfold Rsqr; ring).
      rewrite sqrt_Rsqr_abs.
      destruct (Rlt_dec 0 y) as [Hy|Hny].
      * rewrite Rabs_right by lra. rewrite cos_PI2, sin_PI2. split; ring.
      * destruct (Rlt_dec y 0) as [Hy|Hny'].
        -- rewrite Rabs_left by lra. rewrite cos_neg, sin_neg, cos_PI2, sin_PI2.
           split; ring.
        -- assert (Ey : y = 0) by lra. subst y. rewrite Rabs_R0. split; ring.
Qed.

Lemma arctan2_range (x y : R) : - PI < arctan2 y x <= PI.
Proof.
  unfold arctan2. pose proof PI_RGT_0 as Hpi.
  destruct (Rlt_dec 0 x) as [Hpos|Hnpos].
  - pose proof (atan_bound (y / x)). lra.
  - destruct (Rlt_dec x 0) as [Hneg|Hnneg].
    + pose proof (atan_bound (y / x)) as Hb.
      destruct (Rle_dec 0 y) as [Hy|Hy].
      * assert (Ht : atan (y / x) <= 0).
        { destruct (Req_dec y 0) as [E|E].
          - subst. replace (0 / x) with 0 by (field; lra). rewrite atan_0. lra.
          - left. rewrite <- atan_0. apply atan_increasing.
            apply Ropp_lt_cancel. rewrite Ropp_0.
            replace (- (y / x)) with (y / (- x)) by (field; lra).
            apply Rdiv_lt_0_compat; lra. }
        lra.
      * assert (Ht : 0 < atan (y / x)).
        { rewrite <- atan_0. apply atan_increasing.
          replace (y / x) with ((- y) / (- x)) by (field; lra).
          apply Rdiv_lt_0_compat; lra. }
        lra.
    + destruct (Rlt_dec 0 y); [lra|]. destruct (Rlt_dec y 0); lra.
Qed.

Lemma same_direction (a b : R) :
  cos a = cos b -> sin a = sin b -> same_longitude a b.
Proof.
  intros Hc Hs. unfold same_longitude.
  assert (H1 : cos (2 * ((a - b) / 2)) = 1).
  { replace (2 * ((a - b) / 2)) with (a - b) by field.
    rewrite cos_minus, Hc, Hs.
    pose proof (sin2_cos2 b) as H. unfold Rsqr in H. lra. }
  rewrite cos_2a_sin in H1.
  assert (H0 : sin ((a - b) / 2) = 0) by nra.
  destruct (sin_eq_0_0 _ H0) as [k Hk].
  exists k. lra.
Qed.

Lemma trig_one (a : R) : sin a ^ 2 + cos a ^ 2 = 1.
Proof. pose proof (sin2_cos2 a) as H. unfold Rsqr in H. lra. Qed.

Lemma sph_to_cart_norm (lat lon r : R) :
  let '(x, y, z) := sph_to_cart lat lon r in x ^ 2 + y ^ 2 + z ^ 2 = r ^ 2.
Proof.
  unfold sph_to_cart. cbv zeta.
  pose proof (trig_one lat) as H1. pose proof (trig_one lon) as H2.
  replace ((r * cos lat * cos lon) ^ 2 + (r * cos lat * sin lon) ^ 2 +
           (r * sin lat) ^ 2)
    with (r ^ 2 * (cos lat ^ 2 * (sin lon ^ 2 + cos lon ^ 2) + sin lat ^ 2)) by ring.
  rewrite H2. replace (cos lat ^ 2 * 1 + sin lat ^ 2) with 1 by lra. ring.
Qed.

Lemma cart_sph_cart (x y z : R) :
  1e-10 <= sqrt (x ^ 2 + y ^ 2 + z ^ 2) ->
  uncurry3 sph_to_cart (cart_to_sph x y z) = (x, y, z).
Proof.
  intros Hr. unfold cart_to_sph. cbv zeta. cbn [uncurry3]. unfold sph_to_cart. cbv zeta.
  set (r := sqrt (x ^ 2 + y ^ 2 + z ^ 2)) in *.
  set (rho := sqrt (x ^ 2 + y ^ 2)).
  assert (Hsum : 0 <= x ^ 2 + y ^ 2) by nra.
  assert (Hr2 : r * r = x ^ 2 + y ^ 2 + z ^ 2) by (apply sqrt_sqrt; nra).
  assert (Hrho2 : rho * rho = x ^ 2 + y ^ 2) by (apply sqrt_sqrt; exact Hsum).
  assert (Hrho : 0 <= rho) by apply sqrt_pos.
  rewrite (Rmax_left r 1e-10 Hr).
  set (q := z / r).
  assert (Hq : q * r = z) by (unfold q; field; lra).
  assert (Hzr : - r <= z <= r).
  { assert (Hzz : z * z <= r * r) by nra.
    split.
    - destruct (Rle_dec (- r) z) as [H|H]; [exact H|].
      assert (0 < (- z - r) * (- z + r)) by (apply Rmult_lt_0_compat; lra). lra.
    - destruct (Rle_dec z r) as [H|H]; [exact H|].
      assert (0 < (z - r) * (z + r)) by (apply Rmult_lt_0_compat; lra). lra. }
  assert (Hq1 : -1 <= q <= 1).
  { split; apply (Rmult_le_reg_r r); lra. }
  rewrite (clip_inside q (-1) 1 Hq1).
  rewrite (sin_asin q Hq1), (cos_asin q Hq1).
  assert (Hc : sqrt (1 - q²) = rho / r).
  { apply sqrt_lem_1.
    - unfold Rsqr. nra.
    - apply Rle_mult_inv_pos; lra.
    - replace (rho / r * (rho / r)) with ((rho * rho) / (r * r)) by (field; lra).
      unfold Rsqr, q.
      replace (1 - z / r * (z / r)) with ((r * r - z * z) / (r * r)) by (field; lra).
      f_equal. lra. }
  rewrite Hc.
  destruct (arctan2_polar x y) as [Hx Hy]. fold rho in Hx, Hy.
  replace (r * (rho / r)) with rho by (field; lra).
  rewrite Hx, Hy. f_equal. lra.
Qed.

Lemma sph_cart_sph (lat lon r : R) :
  1e-10 <= r -> - (PI / 2) < lat < PI / 2 ->
  exists lon',
    uncurry3 cart_to_sph (sph_to_cart lat lon r) = (lat, lon', r) /\
    cos lon' = cos lon /\ sin lon' = sin lon /\ - PI < lon' <= PI.
Proof.
  intros Hr Hlat.
  pose proof (sph_to_cart_norm lat lon r) as Hnorm.
  unfold sph_to_cart in *. cbv zeta in *. cbn [uncurry3]. unfold cart_to_sph. cbv zeta.
  rewrite Hnorm. rewrite sqrt_pow2 by lra.
  rewrite (Rmax_left r 1e-10 Hr).
  replace (r * sin lat / r) with (sin lat) by (field; lra).
  rewrite clip_inside by (pose proof (SIN_bound lat); lra).
  rewrite asin_sin by lra.
  eexists. split; [reflexivity|].
  assert (Hcl : 0 < cos lat) by (apply cos_gt_0; lra).
  destruct (arctan2_polar (r * cos lat * cos lon) (r * cos lat * sin lon)) as [Hx Hy].
  assert (Hrho : sqrt ((r * cos lat * cos lon) ^ 2 + (r * cos lat * sin lon) ^ 2)
                 = r * cos lat).
  { pose proof (trig_one lon) as H2.
    replace ((r * cos lat * cos lon) ^ 2 + (r * cos lat * sin lon) ^ 2)
      with ((r * cos lat) ^ 2 * (sin lon ^ 2 + cos lon ^ 2)) by ring.
    rewrite H2, Rmult_1_r. apply sqrt_pow2. nra. }
  rewrite Hrho in Hx, Hy.
  assert (Hpos : 0 < r * cos lat) by nra.
  split; [|split].
  - apply (Rmult_eq_reg_l (r * cos lat)); [|lra]. rewrite Hx. ring.
  - apply (Rmult_eq_reg_l (r * cos lat)); [|lra]. rewrite Hy. ring.
  - apply arctan2_range.
Qed.

Lemma tilt_rotation_inverse (t x z : R) :
  cos (- t) * (cos t * z + sin t * x) + sin (- t) * (- sin t * z + cos t * x) = z /\
  - sin (- t) * (cos t * z + sin t * x) + cos (- t) * (- sin t * z + cos t * x) = x.
Proof.
  rewrite cos_neg, sin_neg. pose proof (trig_one t) as H. split.
  - replace (cos t * (cos t * z + sin t * x) + - sin t * (- sin t * z + cos t * x))
      with ((sin t ^ 2 + cos t ^ 2) * z) by ring.
    rewrite H. ring.
  - replace (- - sin t * (cos t * z + sin t * x) + cos t * (- sin t * z + cos t * x))
      with ((sin t ^ 2 + cos t ^ 2) * x) by ring.
    rewrite H. ring.
Qed.

Lemma tilt_rotation_norm (t x y z : R) :
  (- sin t * z + cos t * x) ^ 2 + y ^ 2 + (cos t * z + sin t * x) ^ 2 =
  x ^ 2 + y ^ 2 + z ^ 2.
Proof.
  pose proof (trig_one t) as H.
  replace ((- sin t * z + cos t * x) ^ 2 + y ^ 2 + (cos t * z + sin t * x) ^ 2)
    with ((sin t ^ 2 + cos t ^ 2) * (x ^ 2 + z ^ 2) + y ^ 2) by ring.
  rewrite H. ring.
Qed.

(** ** Dipole-centric coordinates *)

Lemma to_dc_then_cartesian (f : TiltedDipoleField.t) (lat lon r : R) :
  1e-10 <= r ->
  let '(x, y, z) := sph_to_cart lat lon r in
  uncurry3 sph_to_cart (TiltedDipoleField._to_dc f lat lon r) =
  (- sin (TiltedDipoleField.tilt f) * z + cos (TiltedDipoleField.tilt f) * x,
   y,
   cos (TiltedDipoleField.tilt f) * z + sin (TiltedDipoleField.tilt f) * x).
Proof.
  intros Hr. unfold TiltedDipoleField._to_dc.
  pose proof (sph_to_cart_norm lat lon r) as Hnorm.
  destruct (sph_to_cart lat lon r) as [[x y] z]. cbv zeta.
  apply cart_sph_cart.
  rewrite tilt_rotation_norm, Hnorm, sqrt_pow2 by lra. exact Hr.
Qed.

Lemma dipole_round_trip_cartesian (f : TiltedDipoleField.t) (lat lon r : R) :
  1e-10 <= r ->
  dipole_round_trip f lat lon r = uncurry3 cart_to_sph (sph_to_cart lat lon r).
Proof.
  intros Hr. unfold dipole_round_trip.
  pose proof (to_dc_then_cartesian f lat lon r Hr) as Hback.
  destruct (sph_to_cart lat lon r) as [[x y] z].
  destruct (TiltedDipoleField._to_dc f lat lon r) as [[dlat dlon] dr].
  cbn [uncurry3] in *. unfold TiltedDipoleField._from_dc. rewrite Hback. cbv zeta.
  destruct (tilt_rotation_inverse (TiltedDipoleField.tilt f) x z) as [Hz Hx].
  rewrite Hz, Hx. reflexivity.
Qed.

(** C6 (as amended).  For every tilt, every radius [r >= 1e-10] and every
    latitude strictly between the poles, the round trip
    [_from_dc(_to_dc(lat, lon, r))] returns [lat] and [r] themselves and a
    longitude in (-pi, pi] equal to [lon] modulo 2 pi. *)
Theorem dipole_round_trip_recovers (f : TiltedDipoleField.t) (lat lon r : R) :
  1e-10 <= r -> - (PI / 2) < lat < PI / 2 ->
  exists lon',
    dipole_round_trip f lat lon r = (lat, lon', r) /\
    same_longitude lon' lon /\ - PI < lon' <= PI.
Proof.
  intros Hr Hlat. rewrite (dipole_round_trip_cartesian f lat lon r Hr).
  destruct (sph_cart_sph lat lon r Hr Hlat) as (lon' & E & Hc & Hs & Hrange).
  exists lon'. split; [exact E|]. split; [|exact Hrange].
  apply same_direction; assumption.
Qed.

Lemma dipole_round_trip_recovers_witness :
  exists lon',
    dipole_round_trip (TiltedDipoleField.mk (PI / 12) 3000) (PI / 4) 4 5
      = (PI / 4, lon', 5) /\
    same_longitude lon' 4 /\ - PI < lon' <= PI.
Proof.
  apply dipole_round_trip_recovers; pose proof PI_RGT_0; lra.
Defined.

(** ** The untilted dipole and the degenerate points *)

Lemma to_dc_untilted (moment lat lon r : R) :
  TiltedDipoleField._to_dc (TiltedDipoleField.mk 0 moment) lat lon r =
  uncurry3 cart_to_sph (sph_to_cart lat lon r).
Proof.
  unfold TiltedDipoleField._to_dc. cbn [TiltedDipoleField.tilt].
  destruct (sph_to_cart lat lon r) as [[x y] z]. cbv zeta. cbn [uncurry3].
  rewrite cos_0, sin_0.
  replace (- 0 * z + 1 * x) with x by ring.
  replace (1 * z + 0 * x) with z by ring. reflexivity.
Qed.

Lemma from_dc_untilted (moment lat lon r : R) :
  TiltedDipoleField._from_dc (TiltedDipoleField.mk 0 moment) lat lon r =
  uncurry3 cart_to_sph (sph_to_cart lat lon r).
Proof.
  unfold TiltedDipoleField._from_dc. cbn [TiltedDipoleField.tilt].
  destruct (sph_to_cart lat lon r) as [[x y] z]. cbv zeta. cbn [uncurry3].
  rewrite Ropp_0, cos_0, sin_0.
  replace (- 0 * z + 1 * x) with x by ring.
  replace (1 * z + 0 * x) with z by ring. reflexivity.
Qed.

Lemma cart_to_sph_origin : cart_to_sph 0 0 0 = (0, 0, 0).
Proof.
  unfold cart_to_sph. cbv zeta.
  replace (0 ^ 2 + 0 ^ 2 + 0 ^ 2) with 0 by ring. rewrite sqrt_0.
  replace (0 / Rmax 0 1e-10) with 0 by (unfold Rdiv; ring).
  rewrite clip_inside by lra. rewrite asin_0.
  unfold arctan2. destruct (Rlt_dec 0 0) as [H|_]; [lra|]. reflexivity.
Qed.

Lemma sph_to_cart_origin (lat lon : R) : sph_to_cart lat lon 0 = (0, 0, 0).
Proof. unfold sph_to_cart. cbv zeta. repeat f_equal; ring. Qed.

Lemma sph_cart_sph_small (lat lon r : R) :
  0 < r <= 1e-10 -> - (PI / 2) < lat < PI / 2 ->
  exists lon',
    uncurry3 cart_to_sph (sph_to_cart lat lon r) =
    (asin (r * sin lat / 1e-10), lon', r) /\
    cos lon' = cos lon /\ sin lon' = sin lon.
Proof.
  intros Hr Hlat.
  pose proof (sph_to_cart_norm lat lon r) as Hnorm.
  unfold sph_to_cart in *. cbv zeta in *. cbn [uncurry3]. unfold cart_to_sph. cbv zeta.
  rewrite Hnorm. rewrite sqrt_pow2 by lra.
  rewrite (Rmax_right r 1e-10) by lra.
  pose proof (SIN_bound lat) as Hsin.
  rewrite clip_inside.
  2:{ split.
      - apply (Rmult_le_reg_r 1e-10); [lra|].
        replace (r * sin lat / 1e-10 * 1e-10) with (r * sin lat) by (field; lra). nra.
      - apply (Rmult_le_reg_r 1e-10); [lra|].
        replace (r * sin lat / 1e-10 * 1e-10) with (r * sin lat) by (field; lra). nra. }
  eexists. split; [reflexivity|].
  assert (Hcl : 0 < cos lat) by (apply cos_gt_0; lra).
  destruct (arctan2_polar (r * cos lat * cos lon) (r * cos lat * sin lon)) as [Hx Hy].
  assert (Hrho : sqrt ((r * cos lat * cos lon) ^ 2 + (r * cos lat * sin lon) ^ 2)
                 = r * cos lat).
  { pose proof (trig_one lon) as H2.
    replace ((r * cos lat * cos lon) ^ 2 + (r * cos lat * sin lon) ^ 2)
      with ((r * cos lat) ^ 2 * (sin lon ^ 2 + cos lon ^ 2)) by ring.
    rewrite H2, Rmult_1_r. apply sqrt_pow2. nra. }
  rewrite Hrho in Hx, Hy.
  assert (Hpos : 0 < r * cos lat) by nra.
  split.
  - apply (Rmult_eq_reg_l (r * cos lat)); [|lra]. rewrite Hx. ring.
  - apply (Rmult_eq_reg_l (r * cos lat)); [|lra]. rewrite Hy. ring.
Qed.

Lemma not_same_longitude_0_1 : ~ same_longitude 0 1.
Proof.
  intros [k Hk]. pose proof PI2_3_2 as Hpi.
  assert (Hcases : (k <= -1 \/ k = 0 \/ 1 <= k)%Z) by lia.
  destruct Hcases as [H|[H|H]].
  - apply IZR_le in H. nra.
  - subst k. lra.
  - apply IZR_le in H. nra.
Qed.

Lemma asin_differs (a lat : R) :
  -1 <= a <= 1 -> sin lat <> a -> asin a <> lat.
Proof.
  intros Ha Hne E. apply Hne. rewrite <- E. apply sin_asin. exact Ha.
Qed.

Lemma principal_longitude_unique (a b : R) :
  same_longitude a b -> - PI < a <= PI -> - PI < b <= PI -> a = b.
Proof.
  intros [k Hk] Ha Hb. pose proof PI_RGT_0 as Hpi.
  assert (Hk0 : k = 0%Z).
  { assert (H1 : (-1 < k)%Z).
    { apply lt_IZR. apply (Rmult_lt_reg_r (2 * PI)); [lra|]. lra. }
    assert (H2 : (k < 1)%Z).
    { apply lt_IZR. apply (Rmult_lt_reg_r (2 * PI)); [lra|]. lra. }
    lia. }
  subst k. lra.
Qed.

Lemma cart_to_sph_north : cart_to_sph 0 0 1 = (PI / 2, 0, 1).
Proof.
  unfold cart_to_sph. cbv zeta.
  replace (0 ^ 2 + 0 ^ 2 + 1 ^ 2) with 1 by ring. rewrite sqrt_1.
  rewrite (Rmax_left 1 1e-10) by lra.
  replace (1 / 1) with 1 by field.
  rewrite clip_inside by lra. rewrite asin_1.
  unfold arctan2. destruct (Rlt_dec 0 0) as [H|_]; [lra|]. reflexivity.
Qed.

Lemma sph_to_cart_north (lon : R) : sph_to_cart (PI / 2) lon 1 = (0, 0, 1).
Proof.
  unfold sph_to_cart. cbv zeta. rewrite cos_PI2, sin_PI2. repeat f_equal; ring.
Qed.

Lemma untilted_call (moment lat lon r : R) :
  1e-10 <= r -> - (PI / 2) < lat < PI / 2 ->
  exists mlon,
    TiltedDipoleField.__call__ (TiltedDipoleField.mk 0 moment) lat lon r =
      (lat, mlon, r / cos lat ^ 2) /\
    same_longitude mlon lon /\ - PI < mlon <= PI.
Proof.
  intros Hr Hlat. unfold TiltedDipoleField.__call__. rewrite to_dc_untilted.
  destruct (sph_cart_sph lat lon r Hr Hlat) as (lon' & E & Hc & Hs & Hrange).
  rewrite E. exists lon'. split; [reflexivity|].
  split; [apply same_direction; assumption|exact Hrange].
Qed.

Lemma shell_is_radius_on_equator_only (lat r : R) :
  1e-10 <= r -> - (PI / 2) < lat < PI / 2 ->
  (r / cos lat ^ 2 = r <-> lat = 0).
Proof.
  intros Hr Hlat. pose proof PI_RGT_0 as Hpi. split.
  - intros EL.
    assert (Hc : 0 < cos lat) by (apply cos_gt_0; lra).
    assert (H1 : r / cos lat ^ 2 * cos lat ^ 2 = r) by (field; lra).
    rewrite EL in H1.
    assert (Hc2 : cos lat ^ 2 = 1).
    { apply (Rmult_eq_reg_l r); [lra|lra]. }
    pose proof (trig_one lat) as Ht.
    assert (Hs : sin lat = 0).
    { assert (Hs2 : sin lat * sin lat = 0) by lra.
      destruct (Rmult_integral _ _ Hs2); assumption. }
    destruct (Rtotal_order lat 0) as [Hneg|[E0|Hpos]]; [|exact E0|].
    + pose proof (sin_lt_0_var lat). lra.
    + pose proof (sin_gt_0 lat). lra.
  - intros E0. subst lat. rewrite cos_0. field.
Qed.

(** C2 (as amended).  The field constructed with tilt 0 maps, for
    [r >= 1e-10] and a latitude strictly between the poles, [(lat, lon, r)]
    to [mlat = lat], a magnetic longitude in (-pi, pi] that is equal to
    [lon] modulo 2 pi (and so to [lon] itself when [lon] lies in (-pi, pi]),
    and [L = r / cos(lat)^2], which is [r] on the equator and nowhere
    else. *)
Theorem untilted_magnetic_coordinates (moment lat lon r : R) :
  1e-10 <= r -> - (PI / 2) < lat < PI / 2 ->
  exists f mlon,
    TiltedDipoleField.__init__ 0 moment = Ok f /\
    TiltedDipoleField.__call__ f lat lon r = (lat, mlon, r / cos lat ^ 2) /\
    - PI < mlon <= PI /\
    same_longitude mlon lon /\
    (- PI < lon <= PI -> mlon = lon) /\
    (r / cos lat ^ 2 = r <-> lat = 0).
Proof.
  intros Hr Hlat.
  destruct (untilted_call moment lat lon r Hr Hlat) as (mlon & E & Hsame & Hrange).
  exists (TiltedDipoleField.mk 0 moment), mlon.
  split; [apply dipole_init_in_range; pose proof PI_RGT_0; lra|].
  split; [exact E|]. split; [exact Hrange|]. split; [exact Hsame|]. split.
  - intros Hlon. apply principal_longitude_unique; assumption.
  - apply shell_is_radius_on_equator_only; assumption.
Qed.

Lemma untilted_magnetic_coordinates_witness :
  exists f mlon,
    TiltedDipoleField.__init__ 0 3000 = Ok f /\
    TiltedDipoleField.__call__ f 0 (3 * (PI / 2)) 5 = (0, mlon, 5 / cos 0 ^ 2) /\
    - PI < mlon <= PI /\
    same_longitude mlon (3 * (PI / 2)) /\
    (- PI < 3 * (PI / 2) <= PI -> mlon = 3 * (PI / 2)) /\
    (5 / cos 0 ^ 2 = 5 <-> 0 = 0).
Proof.
  apply untilted_magnetic_coordinates; pose proof PI_RGT_0; lra.
Defined.

Lemma untilted_equator_lon0 (lat r : R) :
  1e-10 <= r -> - (PI / 2) < lat < PI / 2 ->
  uncurry3 cart_to_sph (sph_to_cart lat 0 r) = (lat, 0, r).
Proof.
  intros Hr Hlat. pose proof PI_RGT_0 as Hpi.
  destruct (sph_cart_sph lat 0 r Hr Hlat) as (lon' & E & Hc & Hs & Hrange).
  rewrite E. do 2 f_equal.
  apply principal_longitude_unique; [apply same_direction; assumption|exact Hrange|lra].
Qed.

Lemma untilted_magnetic_not_identity :
  (TiltedDipoleField.__call__ (TiltedDipoleField.mk 0 3000) (PI / 4) 0 1 =
     (PI / 4, 0, 2) /\
   TiltedDipoleField.__call__ (TiltedDipoleField.mk 0 3000) (PI / 4) 0 1 <>
     (PI / 4, 0, 1)) /\
  (TiltedDipoleField.__call__ (TiltedDipoleField.mk 0 3000) 0 (3 * (PI / 2)) 1 =
     (0, - (PI / 2), 1) /\
   TiltedDipoleField.__call__ (TiltedDipoleField.mk 0 3000) 0 (3 * (PI / 2)) 1 <>
     (0, 3 * (PI / 2), 1)) /\
  (TiltedDipoleField.__call__ (TiltedDipoleField.mk 0 3000) 1 0 0 = (0, 0, 0) /\
   TiltedDipoleField.__call__ (TiltedDipoleField.mk 0 3000) 1 0 0 <> (1, 0, 0)) /\
  (exists mlon L,
     TiltedDipoleField.__call__ (TiltedDipoleField.mk 0 3000) (PI / 6) 0 1e-11 =
       (asin 0.05, mlon, L) /\
     asin 0.05 <> PI / 6).
Proof.
  pose proof PI_RGT_0 as Hpi.
  assert (E1 : TiltedDipoleField.__call__ (TiltedDipoleField.mk 0 3000) (PI / 4) 0 1 =
               (PI / 4, 0, 2)).
  { unfold TiltedDipoleField.__call__. rewrite to_dc_untilted.
    rewrite untilted_equator_lon0 by lra.
    rewrite cos_PI4. do 2 f_equal.
    assert (H2 : sqrt 2 * sqrt 2 = 2) by (apply sqrt_sqrt; lra).
    assert (Hs : 0 < sqrt 2) by (apply sqrt_lt_R0; lra).
    replace ((1 / sqrt 2) ^ 2) with (1 / (sqrt 2 * sqrt 2)) by (field; lra).
    rewrite H2. lra. }
  assert (E2 : TiltedDipoleField.__call__ (TiltedDipoleField.mk 0 3000) 0
                 (3 * (PI / 2)) 1 = (0, - (PI / 2), 1)).
  { destruct (untilted_call 3000 0 (3 * (PI / 2)) 1)
      as (mlon & E & [k Hk] & Hrange); [lra|lra|].
    rewrite E.
    assert (Hk1 : k = (-1)%Z).
    { assert (H1 : (-2 < k)%Z).
      { apply lt_IZR. apply (Rmult_lt_reg_r (2 * PI)); [lra|]. lra. }
      assert (H2 : (k < 0)%Z).
      { apply lt_IZR. apply (Rmult_lt_reg_r (2 * PI)); [lra|]. lra. }
      lia. }
    subst k. rewrite cos_0. f_equal; [f_equal; lra|field]. }
  assert (E3 : TiltedDipoleField.__call__ (TiltedDipoleField.mk 0 3000) 1 0 0 =
               (0, 0, 0)).
  { unfold TiltedDipoleField.__call__. rewrite to_dc_untilted.
    rewrite sph_to_cart_origin. cbn [uncurry3]. rewrite cart_to_sph_origin.
    rewrite cos_0. do 2 f_equal. field. }
  split; [|split; [|split]]; try (split; [assumption|]).
  - rewrite E1. intros H. inversion H. lra.
  - rewrite E2. intros H. inversion H. lra.
  - rewrite E3. intros H. inversion H. lra.
  - unfold TiltedDipoleField.__call__. rewrite to_dc_untilted.
    destruct (sph_cart_sph_small (PI / 6) 0 1e-11) as (lon1 & E & _ & _); [lra|lra|].
    rewrite E, sin_PI6.
    replace (1e-11 * (1 / 2) / 1e-10) with 0.05 by lra.
    eexists. eexists. split; [reflexivity|].
    apply asin_differs; [lra|]. rewrite sin_PI6. lra.
Qed.

Lemma tiny_radius_latitude :
  exists lon',
    dipole_round_trip (TiltedDipoleField.mk 0 3000) (PI / 6) 0 1e-11 =
    (asin 0.005, lon', 1e-11).
Proof.
  pose proof PI_RGT_0 as Hpi.
  unfold dipole_round_trip. rewrite to_dc_untilted.
  destruct (sph_cart_sph_small (PI / 6) 0 1e-11) as (lon1 & E1 & _ & _); [lra|lra|].
  rewrite E1. cbn [uncurry3]. rewrite from_dc_untilted.
  rewrite sin_PI6.
  replace (1e-11 * (1 / 2) / 1e-10) with 0.05 by lra.
  destruct (asin_bound_lt 0.05) as [Hlo Hhi]; [lra|].
  destruct (sph_cart_sph_small (asin 0.05) lon1 1e-11) as (lon2 & E2 & _ & _);
    [lra|lra|].
  rewrite E2. rewrite sin_asin by lra.
  replace (1e-11 * 0.05 / 1e-10) with 0.005 by lra.
  exists lon2. reflexivity.
Qed.

(** At the exact pole the longitude has no Cartesian trace. *)
Lemma pole_longitude_not_recovered :
  dipole_round_trip (TiltedDipoleField.mk 0 3000) (PI / 2) 1 1 = (PI / 2, 0, 1) /\
  ~ same_longitude 0 1.
Proof.
  split; [|exact not_same_longitude_0_1].
  unfold dipole_round_trip. rewrite to_dc_untilted, sph_to_cart_north.
  cbn [uncurry3]. rewrite cart_to_sph_north. cbn [uncurry3].
  rewrite from_dc_untilted, sph_to_cart_north. cbn [uncurry3].
  apply cart_to_sph_north.
Qed.

Lemma origin_round_trip (f : TiltedDipoleField.t) (lat lon : R) :
  dipole_round_trip f lat lon 0 = (0, 0, 0).
Proof.
  unfold dipole_round_trip, TiltedDipoleField._to_dc.
  rewrite sph_to_cart_origin. cbv zeta.
  replace (- sin (TiltedDipoleField.tilt f) * 0 + cos (TiltedDipoleField.tilt f) * 0)
    with 0 by ring.
  replace (cos (TiltedDipoleField.tilt f) * 0 + sin (TiltedDipoleField.tilt f) * 0)
    with 0 by ring.
  rewrite cart_to_sph_origin. cbn [uncurry3].
  unfold TiltedDipoleField._from_dc. rewrite sph_to_cart_origin. cbv zeta.
  replace (- sin (- TiltedDipoleField.tilt f) * 0 +
           cos (- TiltedDipoleField.tilt f) * 0) with 0 by ring.
  replace (cos (- TiltedDipoleField.tilt f) * 0 +
           sin (- TiltedDipoleField.tilt f) * 0) with 0 by ring.
  apply cart_to_sph_origin.
Qed.

Lemma dipole_round_trip_loses_information :
  (dipole_round_trip (TiltedDipoleField.mk (PI / 12) 3000) 1 0 0 = (0, 0, 0) /\
   dipole_round_trip (TiltedDipoleField.mk (PI / 12) 3000) 1 0 0 <> (1, 0, 0)) /\
  (exists lon',
     dipole_round_trip (TiltedDipoleField.mk 0 3000) (PI / 6) 0 1e-11 =
     (asin 0.005, lon', 1e-11) /\
     asin 0.005 <> PI / 6).
Proof.
  split.
  - rewrite origin_round_trip. split; [reflexivity|].
    intros H. inversion H. lra.
  - destruct tiny_radius_latitude as [lon' E]. exists lon'. split; [exact E|].
    apply asin_differs; [lra|]. rewrite sin_PI6. lra.
Qed.
(** * Further properties of the code *)

(** ** Rotations and the observer's frame *)

Lemma rot2d_norm (u v theta : R) :
  fst (rot2d u v theta) ^ 2 + snd (rot2d u v theta) ^ 2 = u ^ 2 + v ^ 2.
Proof.
  unfold rot2d. cbv zeta. cbn [fst snd].
  pose proof (trig_one theta) as H.
  replace ((cos theta * u + - sin theta * v) ^ 2 + (sin theta * u + cos theta * v) ^ 2)
    with ((sin theta ^ 2 + cos theta ^ 2) * (u ^ 2 + v ^ 2)) by ring.
  rewrite H. ring.
Qed.

Lemma rot2d_back (u v theta : R) :
  rot2d (fst (rot2d u v theta)) (snd (rot2d u v theta)) (- theta) = (u, v).
Proof.
  unfold rot2d. cbv zeta. cbn [fst snd]. rewrite cos_neg, sin_neg.
  pose proof (trig_one theta) as H.
  f_equal.
  - replace (cos theta * (cos theta * u + - sin theta * v) +
             - - sin theta * (sin theta * u + cos theta * v))
      with ((sin theta ^ 2 + cos theta ^ 2) * u) by ring.
    rewrite H. ring.
  - replace (- sin theta * (cos theta * u + - sin theta * v) +
             cos theta * (sin theta * u + cos theta * v))
      with ((sin theta ^ 2 + cos theta ^ 2) * v) by ring.
    rewrite H. ring.
Qed.

Lemma rot2d_forth (u v theta : R) :
  rot2d (fst (rot2d u v (- theta))) (snd (rot2d u v (- theta))) theta = (u, v).
Proof.
  pose proof (rot2d_back u v (- theta)) as H.
  rewrite Ropp_involutive in H. exact H.
Qed.

(** X1.  [rot2d] is a rotation of the plane: it keeps [u^2 + v^2], and
    rotating the result through [- theta] gives the original pair back. *)
Theorem rot2d_is_rotation (u v theta : R) :
  let '(u', v') := rot2d u v theta in
  u' ^ 2 + v' ^ 2 = u ^ 2 + v ^ 2 /\ rot2d u' v' (- theta) = (u, v).
Proof.
  pose proof (rot2d_norm u v theta) as Hn.
  pose proof (rot2d_back u v theta) as Hb.
  destruct (rot2d u v theta) as [u' v']. cbn [fst snd] in *.
  split; assumption.
Qed.

Lemma from_bc_to_bc (self : ObserverToBodycentric.t) (x y z : R) :
  uncurry3 (ObserverToBodycentric._from_bc self)
           (ObserverToBodycentric._to_bc self x y z) = (x, y, z).
Proof.
  unfold ObserverToBodycentric._to_bc, ObserverToBodycentric._from_bc.
  pose proof (rot2d_back z y (ObserverToBodycentric.loc self)) as H1.
  destruct (rot2d z y (ObserverToBodycentric.loc self)) as [x1 z1].
  cbn [fst snd] in H1.
  pose proof (rot2d_back x1 x (ObserverToBodycentric.cml self)) as H2.
  destruct (rot2d x1 x (ObserverToBodycentric.cml self)) as [x2 y2].
  cbn [fst snd] in H2. cbn [uncurry3].
  rewrite H2, H1. reflexivity.
Qed.

Lemma to_bc_from_bc (self : ObserverToBodycentric.t) (x y z : R) :
  uncurry3 (ObserverToBodycentric._to_bc self)
           (ObserverToBodycentric._from_bc self x y z) = (x, y, z).
Proof.
  unfold ObserverToBodycentric._to_bc, ObserverToBodycentric._from_bc.
  pose proof (rot2d_forth x y (ObserverToBodycentric.cml self)) as H1.
  destruct (rot2d x y (- ObserverToBodycentric.cml self)) as [x1 y1].
  cbn [fst snd] in H1.
  pose proof (rot2d_forth x1 z (ObserverToBodycentric.loc self)) as H2.
  destruct (rot2d x1 z (- ObserverToBodycentric.loc self)) as [x2 z2].
  cbn [fst snd] in H2. cbn [uncurry3].
  rewrite H2, H1. reflexivity.
Qed.

Lemma to_bc_norm (self : ObserverToBodycentric.t) (x y z : R) :
  let '(bx, by_, bz) := ObserverToBodycentric._to_bc self x y z in
  bx ^ 2 + by_ ^ 2 + bz ^ 2 = x ^ 2 + y ^ 2 + z ^ 2.
Proof.
  unfold ObserverToBodycentric._to_bc.
  pose proof (rot2d_norm z y (ObserverToBodycentric.loc self)) as H1.
  destruct (rot2d z y (ObserverToBodycentric.loc self)) as [x1 z1].
  cbn [fst snd] in H1.
  pose proof (rot2d_norm x1 x (ObserverToBodycentric.cml self)) as H2.
  destruct (rot2d x1 x (ObserverToBodycentric.cml self)) as [x2 y2].
  cbn [fst snd] in H2. lra.
Qed.

(** X2.  The two rectangular changes of frame of [ObserverToBodycentric]
    are inverse to each other, in both orders, and [_to_bc] keeps the
    distance to the centre of the body. *)
Theorem observer_frames_are_inverse (self : ObserverToBodycentric.t) (x y z : R) :
  uncurry3 (ObserverToBodycentric._from_bc self)
           (ObserverToBodycentric._to_bc self x y z) = (x, y, z) /\
  uncurry3 (ObserverToBodycentric._to_bc self)
           (ObserverToBodycentric._from_bc self x y z) = (x, y, z) /\
  (let '(bx, by_, bz) := ObserverToBodycentric._to_bc self x y z in
   bx ^ 2 + by_ ^ 2 + bz ^ 2 = x ^ 2 + y ^ 2 + z ^ 2).
Proof.
  split; [apply from_bc_to_bc|]. split; [apply to_bc_from_bc|apply to_bc_norm].
Qed.

Lemma call_radius (self : ObserverToBodycentric.t) (x y z : R) :
  snd (ObserverToBodycentric.__call__ self x y z) = sqrt (x ^ 2 + y ^ 2 + z ^ 2).
Proof.
  unfold ObserverToBodycentric.__call__.
  pose proof (to_bc_norm self x y z) as Hn.
  destruct (ObserverToBodycentric._to_bc self x y z) as [[bx by_] bz].
  unfold cart_to_sph. cbv zeta. cbn [snd]. rewrite Hn. reflexivity.
Qed.

(** X3.  [inverse] undoes [__call__]: a point of the observer's frame at a
    distance of at least 1e-10 from the centre of the body comes back from
    its body-centric latitude, longitude and radius, and that radius is its
    distance from the centre. *)
Theorem observer_inverse_undoes_call (self : ObserverToBodycentric.t) (x y z : R) :
  1e-10 <= sqrt (x ^ 2 + y ^ 2 + z ^ 2) ->
  uncurry3 (ObserverToBodycentric.inverse self)
           (ObserverToBodycentric.__call__ self x y z) = (x, y, z) /\
  snd (ObserverToBodycentric.__call__ self x y z) = sqrt (x ^ 2 + y ^ 2 + z ^ 2).
Proof.
  intros Hr. split; [|apply call_radius].
  unfold ObserverToBodycentric.__call__, ObserverToBodycentric.inverse.
  pose proof (to_bc_norm self x y z) as Hn.
  pose proof (from_bc_to_bc self x y z) as Hb.
  destruct (ObserverToBodycentric._to_bc self x y z) as [[bx by_] bz].
  assert (Hc : uncurry3 sph_to_cart (cart_to_sph bx by_ bz) = (bx, by_, bz)).
  { apply cart_sph_cart. rewrite Hn. exact Hr. }
  destruct (cart_to_sph bx by_ bz) as [[lat lon] r]. cbn [uncurry3] in *.
  rewrite Hc. exact Hb.
Qed.

Lemma observer_inverse_undoes_call_witness :
  uncurry3 (ObserverToBodycentric.inverse (ObserverToBodycentric.mk (PI / 6) 1))
           (ObserverToBodycentric.__call__ (ObserverToBodycentric.mk (PI / 6) 1) 3 0 4)
  = (3, 0, 4) /\
  snd (ObserverToBodycentric.__call__ (ObserverToBodycentric.mk (PI / 6) 1) 3 0 4)
  = sqrt (3 ^ 2 + 0 ^ 2 + 4 ^ 2).
Proof.
  apply observer_inverse_undoes_call.
  replace (3 ^ 2 + 0 ^ 2 + 4 ^ 2) with (5 * 5) by ring.
  rewrite sqrt_square; lra.
Defined.

Lemma centre_line_to_bc (self : ObserverToBodycentric.t) (z : R) :
  ObserverToBodycentric._to_bc self 0 0 z =
  sph_to_cart (ObserverToBodycentric.loc self) (ObserverToBodycentric.cml self) z.
Proof.
  unfold ObserverToBodycentric._to_bc, rot2d, sph_to_cart. cbv beta iota zeta.
  f_equal; [f_equal|]; ring.
Qed.

(** X4.  The centre of the image looks at the sub-observer point: a point
    [(0, 0, z)] on the near side, at least 1e-10 from the centre, has
    body-centric latitude [loc], a longitude in (-pi, pi] equal to [cml]
    modulo 2 pi, and radius [z] (for a latitude of centre below the pole). *)
Theorem image_centre_is_subobserver_point (self : ObserverToBodycentric.t) (z : R) :
  1e-10 <= z ->
  0 <= ObserverToBodycentric.loc self < PI / 2 ->
  exists lon,
    ObserverToBodycentric.__call__ self 0 0 z =
      (ObserverToBodycentric.loc self, lon, z) /\
    same_longitude lon (ObserverToBodycentric.cml self) /\ - PI < lon <= PI.
Proof.
  intros Hz Hloc. unfold ObserverToBodycentric.__call__.
  rewrite centre_line_to_bc.
  destruct (sph_cart_sph (ObserverToBodycentric.loc self)
              (ObserverToBodycentric.cml self) z Hz) as (lon & E & Hc & Hs & Hrange).
  { pose proof PI_RGT_0. lra. }
  exists lon. split.
  - destruct (sph_to_cart _ _ z) as [[bx by_] bz]. exact E.
  - split; [apply same_direction; assumption|exact Hrange].
Qed.

Lemma image_centre_is_subobserver_point_witness :
  exists lon,
    ObserverToBodycentric.__call__ (ObserverToBodycentric.mk (PI / 6) 1) 0 0 2 =
      (PI / 6, lon, 2) /\
    same_longitude lon 1 /\ - PI < lon <= PI.
Proof.
  apply (image_centre_is_subobserver_point (ObserverToBodycentric.mk (PI / 6) 1) 2);
    cbn [ObserverToBodycentric.loc]; pose proof PI_RGT_0; lra.
Defined.

(** ** Spherical coordinates *)

Lemma arctan2_off_the_cut (x y : R) :
  y <> 0 \/ 0 < x -> - PI < arctan2 y x < PI.
Proof.
  unfold arctan2. pose proof PI_RGT_0 as Hpi.
  pose proof (atan_bound (y / x)) as Hb.
  destruct (Rlt_dec 0 x) as [Hx|Hx]; [intros _; lra|].
  destruct (Rlt_dec x 0) as [Hx'|Hx'].
  - intros [Hy|Hx0]; [|lra].
    destruct (Rle_dec 0 y) as [Hy'|Hy'].
    + assert (Hq : y / x < 0).
      { apply (Rmult_lt_reg_r (- x)); [lra|].
        replace (y / x * - x) with (- y) by (field; lra). lra. }
      pose proof (atan_increasing _ _ Hq) as Hi. rewrite atan_0 in Hi. lra.
    + assert (Hq : 0 < y / x).
      { apply (Rmult_lt_reg_r (- x)); [lra|].
        replace (y / x * - x) with (- y) by (field; lra). lra. }
      pose proof (atan_increasing _ _ Hq) as Hi. rewrite atan_0 in Hi. lra.
  - intros _. destruct (Rlt_dec 0 y); [lra|]. destruct (Rlt_dec y 0); lra.
Qed.

(** X5.  [cart_to_sph] returns a latitude in [-pi/2, pi/2], a longitude in
    [-pi, pi] and a radius that is not negative, whatever the point.  The
    longitude lies strictly inside (-pi, pi) when [y] is not zero or [x] is
    positive.  On the rest, the cut of [arctan2], the code tells a negative
    zero from a positive one: for a negative [x], be it a negative zero, it
    returns pi for a positive zero [y] and -pi for a negative zero [y],
    which is why the range is closed at both ends. *)
Theorem cart_to_sph_ranges (x y z : R) :
  let '(lat, lon, r) := cart_to_sph x y z in
  - (PI / 2) <= lat <= PI / 2 /\ - PI <= lon <= PI /\
  (y <> 0 \/ 0 < x -> - PI < lon < PI) /\
  0 <= r /\ r ^ 2 = x ^ 2 + y ^ 2 + z ^ 2.
Proof.
  unfold cart_to_sph. cbv zeta.
  split; [apply asin_bound|].
  split; [pose proof (arctan2_range x y); lra|].
  split; [apply arctan2_off_the_cut|].
  split; [apply sqrt_pos|].
  replace (sqrt (x ^ 2 + y ^ 2 + z ^ 2) ^ 2)
    with (sqrt (x ^ 2 + y ^ 2 + z ^ 2) * sqrt (x ^ 2 + y ^ 2 + z ^ 2)) by ring.
  apply sqrt_sqrt. nra.
Qed.

Lemma sph_vec_norm (lat0 lon0 Vlat Vlon Vr : R) :
  let '(Vx, Vy, Vz) := sph_vec_to_cart_vec lat0 lon0 Vlat Vlon Vr in
  Vx ^ 2 + Vy ^ 2 + Vz ^ 2 = Vlat ^ 2 + Vlon ^ 2 + Vr ^ 2.
Proof.
  unfold sph_vec_to_cart_vec. cbv zeta.
  pose proof (trig_one lat0) as H1. pose proof (trig_one lon0) as H2.
  set (sa := sin lat0) in *. set (ca := cos lat0) in *.
  set (so := sin lon0) in *. set (co := cos lon0) in *.
  replace ((- sa * co * Vlat + - so * Vlon + ca * co * Vr) ^ 2 +
           (- sa * so * Vlat + co * Vlon + ca * so * Vr) ^ 2 +
           (ca * Vlat + sa * Vr) ^ 2)
    with ((so ^ 2 + co ^ 2) * ((- sa * Vlat + ca * Vr) ^ 2 + Vlon ^ 2)
          + (ca * Vlat + sa * Vr) ^ 2) by ring.
  rewrite H2.
  replace (1 * ((- sa * Vlat + ca * Vr) ^ 2 + Vlon ^ 2) + (ca * Vlat + sa * Vr) ^ 2)
    with ((sa ^ 2 + ca ^ 2) * (Vlat ^ 2 + Vr ^ 2) + Vlon ^ 2) by ring.
  rewrite H1. ring.
Qed.

Lemma sph_vec_linear (lat0 lon0 Vlat Vlon Vr k : R) :
  sph_vec_to_cart_vec lat0 lon0 (k * Vlat) (k * Vlon) (k * Vr) =
  let '(Vx, Vy, Vz) := sph_vec_to_cart_vec lat0 lon0 Vlat Vlon Vr in
  (k * Vx, k * Vy, k * Vz).
Proof.
  unfold sph_vec_to_cart_vec. cbv beta iota zeta. f_equal; [f_equal|]; ring.
Qed.

(** X6.  [sph_vec_to_cart_vec] changes the basis of a vector and not the
    vector: the Cartesian components have the length of the spherical
    ones, and scaling the one scales the other. *)
Theorem sph_vec_to_cart_vec_is_isometry (lat0 lon0 Vlat Vlon Vr k : R) :
  let '(Vx, Vy, Vz) := sph_vec_to_cart_vec lat0 lon0 Vlat Vlon Vr in
  Vx ^ 2 + Vy ^ 2 + Vz ^ 2 = Vlat ^ 2 + Vlon ^ 2 + Vr ^ 2 /\
  sph_vec_to_cart_vec lat0 lon0 (k * Vlat) (k * Vlon) (k * Vr) =
  (k * Vx, k * Vy, k * Vz).
Proof.
  pose proof (sph_vec_norm lat0 lon0 Vlat Vlon Vr) as Hn.
  pose proof (sph_vec_linear lat0 lon0 Vlat Vlon Vr k) as Hl.
  destruct (sph_vec_to_cart_vec lat0 lon0 Vlat Vlon Vr) as [[Vx Vy] Vz].
  split; assumption.
Qed.

(** ** The dipole field *)

Lemma cart_to_sph_radius (x y z : R) :
  snd (cart_to_sph x y z) = sqrt (x ^ 2 + y ^ 2 + z ^ 2).
Proof. reflexivity. Qed.

Lemma to_dc_radius (f : TiltedDipoleField.t) (lat lon r : R) :
  0 <= r -> snd (TiltedDipoleField._to_dc f lat lon r) = r.
Proof.
  intros Hr. unfold TiltedDipoleField._to_dc.
  pose proof (sph_to_cart_norm lat lon r) as Hn.
  destruct (sph_to_cart lat lon r) as [[x y] z]. cbv zeta.
  rewrite cart_to_sph_radius, tilt_rotation_norm, Hn. apply sqrt_pow2. exact Hr.
Qed.

Lemma to_dc_latitude (f : TiltedDipoleField.t) (lat lon r : R) :
  - (PI / 2) <= fst (fst (TiltedDipoleField._to_dc f lat lon r)) <= PI / 2.
Proof.
  unfold TiltedDipoleField._to_dc.
  destruct (sph_to_cart lat lon r) as [[x y] z]. cbv zeta.
  unfold cart_to_sph. cbv zeta. cbn [fst]. apply asin_bound.
Qed.

(** X7.  The magnetic coordinates of a point at radius [r >= 0]: the
    magnetic latitude lies in [-pi/2, pi/2], and away from the magnetic
    axis the shell parameter [L] satisfies the field-line equation
    [L * cos(mlat)^2 = r], so that [L] is never below the radius. *)
Theorem magnetic_shell_parameter (f : TiltedDipoleField.t) (lat lon r : R) :
  0 <= r ->
  let '(mlat, mlon, L) := TiltedDipoleField.__call__ f lat lon r in
  - (PI / 2) <= mlat <= PI / 2 /\
  (cos mlat <> 0 -> L * cos mlat ^ 2 = r /\ r <= L).
Proof.
  intros Hr. unfold TiltedDipoleField.__call__.
  pose proof (to_dc_radius f lat lon r Hr) as Hrad.
  pose proof (to_dc_latitude f lat lon r) as Hlat.
  destruct (TiltedDipoleField._to_dc f lat lon r) as [[mlat mlon] mr].
  cbn [fst snd] in *. subst mr.
  split; [exact Hlat|]. intros Hc.
  assert (Hc2 : 0 < cos mlat ^ 2).
  { assert (0 < cos mlat * cos mlat) by (destruct (Rtotal_order (cos mlat) 0) as [H|[H|H]]; nra).
    lra. }
  assert (Hle : cos mlat ^ 2 <= 1).
  { pose proof (trig_one mlat). assert (0 <= sin mlat ^ 2) by nra. lra. }
  split.
  - field. exact Hc.
  - apply (Rmult_le_reg_r (cos mlat ^ 2)); [exact Hc2|].
    replace (r / cos mlat ^ 2 * cos mlat ^ 2) with r by (field; exact Hc).
    nra.
Qed.

Lemma magnetic_shell_parameter_witness :
  let '(mlat, mlon, L) :=
    TiltedDipoleField.__call__ (TiltedDipoleField.mk (PI / 12) 3000) 0.3 1 2 in
  - (PI / 2) <= mlat <= PI / 2 /\
  (cos mlat <> 0 -> L * cos mlat ^ 2 = 2 /\ 2 <= L).
Proof.
  apply (magnetic_shell_parameter (TiltedDipoleField.mk (PI / 12) 3000) 0.3 1 2). lra.
Defined.

(** X8.  At a distance [r > 0] from the centre the field strength lies
    between the equatorial value [|moment| / r^3] and the polar value
    [2 |moment| / r^3], whatever the tilt and the direction. *)
Theorem dipole_field_strength_bounds (f : TiltedDipoleField.t) (blat blon r : R) :
  0 < r ->
  Rabs (TiltedDipoleField.moment f) / r ^ 3
    <= TiltedDipoleField.bmag f blat blon r
    <= 2 * Rabs (TiltedDipoleField.moment f) / r ^ 3.
Proof.
  intros Hr. unfold TiltedDipoleField.bmag.
  pose proof (to_dc_radius f blat blon r (Rlt_le _ _ Hr)) as Hrad.
  destruct (TiltedDipoleField._to_dc f blat blon r) as [[mlat mlon] mr].
  cbn [snd] in Hrad. subst mr.
  pose proof (Rabs_pos (TiltedDipoleField.moment f)) as Hm.
  assert (Hs : 0 <= sin mlat ^ 2 <= 1).
  { pose proof (trig_one mlat). assert (0 <= sin mlat ^ 2) by nra.
    assert (0 <= cos mlat ^ 2) by nra. lra. }
  assert (H1 : 1 <= sqrt (1 + 3 * sin mlat ^ 2)).
  { rewrite <- sqrt_1 at 1. apply sqrt_le_1; lra. }
  assert (H2 : sqrt (1 + 3 * sin mlat ^ 2) <= 2).
  { assert (E2 : sqrt (2 * 2) = 2) by (apply sqrt_square; lra).
    rewrite <- E2. apply sqrt_le_1; lra. }
  assert (Hr3 : 0 < / r ^ 3).
  { apply Rinv_0_lt_compat. apply pow_lt. exact Hr. }
  unfold Rdiv. split.
  - apply Rmult_le_compat_r; [lra|]. nra.
  - apply Rmult_le_compat_r; [lra|]. nra.
Qed.

Lemma dipole_field_strength_bounds_witness :
  Rabs 3000 / 2 ^ 3
    <= TiltedDipoleField.bmag (TiltedDipoleField.mk (PI / 12) 3000) 0.3 1 2
    <= 2 * Rabs 3000 / 2 ^ 3.
Proof.
  apply (dipole_field_strength_bounds (TiltedDipoleField.mk (PI / 12) 3000) 0.3 1 2). lra.
Defined.

Lemma normalised_or_zero (a b c : R) :
  let s := 1 / sqrt (a ^ 2 + b ^ 2 + c ^ 2) in
  (s * a) ^ 2 + (s * b) ^ 2 + (s * c) ^ 2 = 1 \/
  (s * a, s * b, s * c) = (0, 0, 0).
Proof.
  cbv zeta.
  assert (Hn : 0 <= a ^ 2 + b ^ 2 + c ^ 2) by nra.
  destruct (Req_dec (a ^ 2 + b ^ 2 + c ^ 2) 0) as [E|E].
  - right.
    assert (a = 0) by nra. assert (b = 0) by nra. assert (c = 0) by nra.
    subst. f_equal; [f_equal|]; ring.
  - left.
    assert (Hpos : 0 < sqrt (a ^ 2 + b ^ 2 + c ^ 2)) by (apply sqrt_lt_R0; lra).
    pose proof (sqrt_sqrt _ Hn) as Hsq.
    replace ((1 / sqrt (a ^ 2 + b ^ 2 + c ^ 2) * a) ^ 2 +
             (1 / sqrt (a ^ 2 + b ^ 2 + c ^ 2) * b) ^ 2 +
             (1 / sqrt (a ^ 2 + b ^ 2 + c ^ 2) * c) ^ 2)
      with ((a ^ 2 + b ^ 2 + c ^ 2) /
            (sqrt (a ^ 2 + b ^ 2 + c ^ 2) * sqrt (a ^ 2 + b ^ 2 + c ^ 2)))
      by (field; lra).
    rewrite Hsq. field. exact E.
Qed.

(** X9.  [bhat] returns a unit vector (in its latitude, longitude and
    radius components), except where the offset that it normalises
    vanishes: there numpy divides zero by zero, and the components are 0
    here. *)
Theorem bhat_is_normalised (f : TiltedDipoleField.t) (blat blon r epsilon : R) :
  let '(dlat, dlon, dr) := TiltedDipoleField.bhat f blat blon r epsilon in
  dlat ^ 2 + dlon ^ 2 + dr ^ 2 = 1 \/ (dlat, dlon, dr) = (0, 0, 0).
Proof.
  unfold TiltedDipoleField.bhat.
  destruct (TiltedDipoleField._to_dc f blat blon r) as [[mlat mlon] mr].
  cbv zeta.
  destruct (TiltedDipoleField._from_dc _ _ _ _) as [[blat1 blon1] br1].
  apply normalised_or_zero.
Qed.

Lemma angle_scale (dot s k : R) :
  0 < k -> 0 <= s -> k * dot / (k * s) = dot / s.
Proof.
  intros Hk Hs. destruct (Req_dec s 0) as [E|E].
  - subst s. rewrite Rmult_0_r. unfold Rdiv. rewrite Rinv_0. ring.
  - field. split; lra.
Qed.

Lemma sqrt_scale (k d : R) : 0 < k -> 0 <= d -> sqrt (k ^ 2 * d) = k * sqrt d.
Proof.
  intros Hk Hd. rewrite sqrt_mult by nra. rewrite sqrt_pow2 by lra. reflexivity.
Qed.

(** X10.  The angle between a direction and the line of sight
    ([theta_zhat]) or the magnetic field ([theta_b]) does not depend on the
    length of the direction vector: scaling its three components by a
    positive factor leaves both angles as they were. *)
Theorem direction_length_is_irrelevant
    (o : ObserverToBodycentric.t) (f : TiltedDipoleField.t)
    (x y z blat blon r d1 d2 d3 epsilon k : R) :
  0 < k ->
  ObserverToBodycentric.theta_zhat o x y z (k * d1) (k * d2) (k * d3) =
  ObserverToBodycentric.theta_zhat o x y z d1 d2 d3 /\
  TiltedDipoleField.theta_b f blat blon r (k * d1) (k * d2) (k * d3) epsilon =
  TiltedDipoleField.theta_b f blat blon r d1 d2 d3 epsilon.
Proof.
  intros Hk. split.
  - unfold ObserverToBodycentric.theta_zhat.
    destruct (ObserverToBodycentric.__call__ o x y z) as [[lat lon] rr].
    rewrite sph_vec_linear.
    destruct (sph_vec_to_cart_vec lat lon d1 d2 d3) as [[dx dy] dz].
    destruct (ObserverToBodycentric._to_bc o 0 0 1) as [[zx zy] zz].
    cbv zeta. f_equal.
    replace ((k * dx) ^ 2 + (k * dy) ^ 2 + (k * dz) ^ 2)
      with (k ^ 2 * (dx ^ 2 + dy ^ 2 + dz ^ 2)) by ring.
    rewrite sqrt_scale by (try exact Hk; nra).
    replace (zx * (k * dx) + zy * (k * dy) + zz * (k * dz))
      with (k * (zx * dx + zy * dy + zz * dz)) by ring.
    apply angle_scale; [exact Hk|apply sqrt_pos].
  - unfold TiltedDipoleField.theta_b.
    destruct (TiltedDipoleField.bhat f blat blon r 1e-8) as [[b1 b2] b3].
    destruct (sph_vec_to_cart_vec blat blon b1 b2 b3) as [[bx by_] bz].
    rewrite sph_vec_linear.
    destruct (sph_vec_to_cart_vec blat blon d1 d2 d3) as [[dx dy] dz].
    cbv zeta. f_equal.
    replace ((bx ^ 2 + by_ ^ 2 + bz ^ 2) * ((k * dx) ^ 2 + (k * dy) ^ 2 + (k * dz) ^ 2))
      with (k ^ 2 * ((bx ^ 2 + by_ ^ 2 + bz ^ 2) * (dx ^ 2 + dy ^ 2 + dz ^ 2))) by ring.
    rewrite sqrt_scale by (try exact Hk; nra).
    replace (bx * (k * dx) + by_ * (k * dy) + bz * (k * dz))
      with (k * (bx * dx + by_ * dy + bz * dz)) by ring.
    apply angle_scale; [exact Hk|apply sqrt_pos].
Qed.

Lemma direction_length_is_irrelevant_witness :
  ObserverToBodycentric.theta_zhat (ObserverToBodycentric.mk (PI / 6) 1)
    1 2 3 (2 * 0.1) (2 * 0.2) (2 * 0.3) =
  ObserverToBodycentric.theta_zhat (ObserverToBodycentric.mk (PI / 6) 1)
    1 2 3 0.1 0.2 0.3 /\
  TiltedDipoleField.theta_b (TiltedDipoleField.mk (PI / 12) 3000)
    0.3 1 2 (2 * 0.1) (2 * 0.2) (2 * 0.3) 1e-8 =
  TiltedDipoleField.theta_b (TiltedDipoleField.mk (PI / 12) 3000)
    0.3 1 2 0.1 0.2 0.3 1e-8.
Proof.
  apply direction_length_is_irrelevant. lra.
Defined.

(** ** Selecting and reducing Stokes images *)

Lemma lower_ascii_idempotent (c : ascii) : lower_ascii (lower_ascii c) = lower_ascii c.
Proof. destruct c as [[] [] [] [] [] [] [] []]; reflexivity. Qed.

Lemma lower_idempotent (s : string) : lower (lower s) = lower s.
Proof.
  induction s as [|c s IH]; simpl; [reflexivity|].
  rewrite lower_ascii_idempotent, IH. reflexivity.
Qed.

(** X11.  String selectors are case-insensitive: [frame] and [flux] give
    for a selector what they give for its lower-case form, be it a value or
    an exception. *)
Theorem selector_is_case_insensitive (self : IntegratedImages.t) (i_cml i_freq : Z)
    (s : string) (yflip : bool) :
  IntegratedImages.frame self i_cml i_freq (IntegratedImages.SelStr s) yflip =
  IntegratedImages.frame self i_cml i_freq (IntegratedImages.SelStr (lower s)) yflip /\
  IntegratedImages.flux self i_cml i_freq (IntegratedImages.SelStr s) =
  IntegratedImages.flux self i_cml i_freq (IntegratedImages.SelStr (lower s)).
Proof.
  unfold IntegratedImages.frame, IntegratedImages.frame_with,
    IntegratedImages.frame_noflip_with, IntegratedImages.flux,
    IntegratedImages.flux_with.
  rewrite lower_idempotent. split; reflexivity.
Qed.

Lemma plane_out_of_range (c : cube) (k : Z) :
  (k < -4 \/ 4 <= k)%Z -> IntegratedImages.plane c k = Raise IndexError.
Proof.
  intros H. unfold IntegratedImages.plane.
  destruct (4 <=? k)%Z eqn:E1; [reflexivity|].
  destruct (k <? -4)%Z eqn:E2; [reflexivity|].
  apply Z.leb_gt in E1. apply Z.ltb_ge in E2. lia.
Qed.

Lemma plane_negative (c : cube) (k : Z) :
  (-4 <= k < 0)%Z -> IntegratedImages.plane c k = IntegratedImages.plane c (k + 4).
Proof.
  intros H.
  assert (Hk : (k = -4 \/ k = -3 \/ k = -2 \/ k = -1)%Z) by lia.
  destruct Hk as [E|[E|[E|E]]]; subst k; reflexivity.
Qed.

(** X12.  An integer selector indexes the four Stokes planes as Python
    indexes a sequence: where the dataset can be read, an index below -4 or
    above 3 makes [frame] and [flux] raise [IndexError], and a negative
    index [k >= -4] selects the plane [k + 4]. *)
Theorem integer_selector_indexing (self : IntegratedImages.t) (i_cml i_freq k : Z)
    (c : cube) (yflip : bool) :
  IntegratedImages.stokesset self i_cml i_freq = Ok c ->
  ((k < -4 \/ 4 <= k)%Z ->
   IntegratedImages.frame self i_cml i_freq (IntegratedImages.SelInt k) yflip
     = Raise IndexError /\
   IntegratedImages.flux self i_cml i_freq (IntegratedImages.SelInt k)
     = Raise IndexError) /\
  ((-4 <= k < 0)%Z ->
   IntegratedImages.frame self i_cml i_freq (IntegratedImages.SelInt k) yflip =
   IntegratedImages.frame self i_cml i_freq (IntegratedImages.SelInt (k + 4)) yflip /\
   IntegratedImages.flux self i_cml i_freq (IntegratedImages.SelInt k) =
   IntegratedImages.flux self i_cml i_freq (IntegratedImages.SelInt (k + 4))).
Proof.
  intros Hc.
  unfold IntegratedImages.flux, IntegratedImages.flux_with,
    IntegratedImages.flux_index, IntegratedImages.frame, IntegratedImages.frame_with,
    IntegratedImages.frame_noflip_with, IntegratedImages.frame_index.
  rewrite Hc. cbn [bind]. split; intros Hk.
  - rewrite (plane_out_of_range c k Hk). destruct yflip; split; reflexivity.
  - rewrite (plane_negative c k Hk). split; reflexivity.
Qed.

Lemma integer_selector_indexing_witness :
  let self := IntegratedImages.mk (fun _ _ => Ok [[(1, 2, 3, 4)]]) 1 in
  (IntegratedImages.frame self 0 0 (IntegratedImages.SelInt 4) true = Raise IndexError /\
   IntegratedImages.flux self 0 0 (IntegratedImages.SelInt 4) = Raise IndexError) /\
  (IntegratedImages.frame self 0 0 (IntegratedImages.SelInt (-1)) true =
   IntegratedImages.frame self 0 0 (IntegratedImages.SelInt (-1 + 4)) true /\
   IntegratedImages.flux self 0 0 (IntegratedImages.SelInt (-1)) =
   IntegratedImages.flux self 0 0 (IntegratedImages.SelInt (-1 + 4))).
Proof.
  intros self. split.
  - apply (proj1 (integer_selector_indexing self 0 0 4
                    [[(1 * 1, 2 * 1, 3 * 1, 4 * 1)]] true eq_refl)). lia.
  - apply (proj2 (integer_selector_indexing self 0 0 (-1)
                    [[(1 * 1, 2 * 1, 3 * 1, 4 * 1)]] true eq_refl)). lia.
Defined.

Lemma sum_app (a b : list R) :
  fold_right Rplus 0 (a ++ b) = fold_right Rplus 0 a + fold_right Rplus 0 b.
Proof. induction a as [|v a IH]; simpl; [ring|rewrite IH; ring]. Qed.

Lemma nansum_map {A : Type} (f : A -> R) (c : list (list A)) :
  nansum (map (map f) c) = fold_right Rplus 0 (map f (List.concat c)).
Proof. unfold nansum. rewrite concat_map. reflexivity. Qed.

Lemma nansum_rev (a : img) : nansum (rev a) = nansum a.
Proof.
  unfold nansum. induction a as [|row a IH]; simpl; [reflexivity|].
  rewrite concat_app, !sum_app, IH. simpl. rewrite app_nil_r. ring.
Qed.

Lemma abs_sum_le (f : row4 -> R) (l : list row4) :
  Rabs (fold_right Rplus 0 (map f l)) <=
  fold_right Rplus 0 (map (fun p => Rabs (f p)) l).
Proof.
  induction l as [|p l IH]; cbn [map fold_right]; [rewrite Rabs_R0; lra|].
  eapply Rle_trans; [apply Rabs_triang|]. lra.
Qed.

Lemma norm2_triangle (q u Q U : R) :
  sqrt ((q + Q) ^ 2 + (u + U) ^ 2) <= sqrt (q ^ 2 + u ^ 2) + sqrt (Q ^ 2 + U ^ 2).
Proof.
  set (a := sqrt (q ^ 2 + u ^ 2)). set (b := sqrt (Q ^ 2 + U ^ 2)).
  assert (Ha : 0 <= a) by apply sqrt_pos.
  assert (Hb : 0 <= b) by apply sqrt_pos.
  assert (Ha2 : a * a = q ^ 2 + u ^ 2) by (apply sqrt_sqrt; nra).
  assert (Hb2 : b * b = Q ^ 2 + U ^ 2) by (apply sqrt_sqrt; nra).
  assert (Hcs : q * Q + u * U <= a * b).
  { destruct (Rle_dec (q * Q + u * U) (a * b)) as [H|H]; [exact H|].
    exfalso.
    assert (Hab : 0 <= a * b) by nra.
    assert (Hsq : (a * b) * (a * b) < (q * Q + u * U) * (q * Q + u * U)) by nra.
    assert (Hcs : (q * Q + u * U) * (q * Q + u * U) <=
                  (q ^ 2 + u ^ 2) * (Q ^ 2 + U ^ 2)).
    { assert (E : (q ^ 2 + u ^ 2) * (Q ^ 2 + U ^ 2)
                  - (q * Q + u * U) * (q * Q + u * U) = (q * U - u * Q) ^ 2) by ring.
      pose proof (pow2_ge_0 (q * U - u * Q)). lra. }
    replace ((a * b) * (a * b)) with ((a * a) * (b * b)) in Hsq by ring.
    rewrite Ha2, Hb2 in Hsq. lra. }
  rewrite <- (sqrt_square (a + b)) by lra.
  assert (E1 : (q + Q) ^ 2 + (u + U) ^ 2 =
               (q ^ 2 + u ^ 2) + (Q ^ 2 + U ^ 2) + 2 * (q * Q + u * U)) by ring.
  assert (E2 : (a + b) * (a + b) = a * a + b * b + 2 * (a * b)) by ring.
  pose proof (pow2_ge_0 (q + Q)). pose proof (pow2_ge_0 (u + U)).
  apply sqrt_le_1; lra.
Qed.

Lemma norm_sum_le (f g : row4 -> R) (l : list row4) :
  sqrt (fold_right Rplus 0 (map f l) ^ 2 + fold_right Rplus 0 (map g l) ^ 2) <=
  fold_right Rplus 0 (map (fun p => sqrt (f p ^ 2 + g p ^ 2)) l).
Proof.
  induction l as [|p l IH]; cbn [map fold_right].
  - replace (0 ^ 2 + 0 ^ 2) with 0 by ring. rewrite sqrt_0. lra.
  - eapply Rle_trans; [apply norm2_triangle|]. lra.
Qed.

(** X13.  Polarised flux cancels across the image and polarised frames do
    not: for the selectors 'l' and 'absv' every pixel of the frame is
    non-negative, and the flux, which combines the summed Q and U (or V), is
    at most the sum of the frame. *)
Theorem polarised_flux_below_frame_sum (self : IntegratedImages.t) (i_cml i_freq : Z)
    (c : cube) (yflip : bool) :
  IntegratedImages.stokesset self i_cml i_freq = Ok c ->
  exists fl al fv av,
    IntegratedImages.flux self i_cml i_freq (IntegratedImages.SelStr "l") = Ok fl /\
    IntegratedImages.frame self i_cml i_freq (IntegratedImages.SelStr "l") yflip = Ok al /\
    IntegratedImages.flux self i_cml i_freq (IntegratedImages.SelStr "absv") = Ok fv /\
    IntegratedImages.frame self i_cml i_freq (IntegratedImages.SelStr "absv") yflip = Ok av /\
    Forall (Forall (fun v => 0 <= v)) al /\ Forall (Forall (fun v => 0 <= v)) av /\
    0 <= fl <= nansum al /\ 0 <= fv <= nansum av.
Proof.
  intros Hc.
  destruct (frame_index_planes self i_cml i_freq c Hc) as (H0 & H1 & H2 & H3).
  destruct (flux_index_planes self i_cml i_freq c Hc) as (F0 & F1 & F2 & F3).
  assert (El : IntegratedImages.frame_noflip self i_cml i_freq (IntegratedImages.SelStr "l")
               = Ok (map (map (fun p => sqrt (stokes_Q p ^ 2 + stokes_U p ^ 2))) c)).
  { unfold IntegratedImages.frame_noflip, IntegratedImages.frame_noflip_with.
    change (lower "l") with "l"%string. cbn [String.eqb Ascii.eqb Bool.eqb].
    rewrite H1, H2. cbn [bind]. rewrite img_map2_map. reflexivity. }
  assert (Ev : IntegratedImages.frame_noflip self i_cml i_freq (IntegratedImages.SelStr "absv")
               = Ok (map (map (fun p => Rabs (stokes_V p))) c)).
  { unfold IntegratedImages.frame_noflip, IntegratedImages.frame_noflip_with.
    change (lower "absv") with "absv"%string. cbn [String.eqb Ascii.eqb Bool.eqb].
    rewrite H3. cbn [bind]. unfold img_map. rewrite map_map.
    f_equal. apply map_ext. intros row. apply map_map. }
  assert (Fl : IntegratedImages.flux self i_cml i_freq (IntegratedImages.SelStr "l")
               = Ok (sqrt (nansum (map (map stokes_Q) c) ^ 2 +
                           nansum (map (map stokes_U) c) ^ 2))).
  { unfold IntegratedImages.flux, IntegratedImages.flux_with.
    change (lower "l") with "l"%string. cbn [String.eqb Ascii.eqb Bool.eqb].
    rewrite F1, F2. reflexivity. }
  assert (Fv : IntegratedImages.flux self i_cml i_freq (IntegratedImages.SelStr "absv")
               = Ok (Rabs (nansum (map (map stokes_V) c)))).
  { unfold IntegratedImages.flux, IntegratedImages.flux_with.
    change (lower "absv") with "absv"%string. cbn [String.eqb Ascii.eqb Bool.eqb].
    rewrite F3. reflexivity. }
  assert (Pl : Forall (Forall (fun v => 0 <= v))
                 (map (map (fun p => sqrt (stokes_Q p ^ 2 + stokes_U p ^ 2))) c)).
  { apply Forall_map, Forall_forall. intros row _.
    apply Forall_map, Forall_forall. intros p _. apply sqrt_pos. }
  assert (Pv : Forall (Forall (fun v => 0 <= v))
                 (map (map (fun p => Rabs (stokes_V p))) c)).
  { apply Forall_map, Forall_forall. intros row _.
    apply Forall_map, Forall_forall. intros p _. apply Rabs_pos. }
  assert (Bl : sqrt (nansum (map (map stokes_Q) c) ^ 2 +
                     nansum (map (map stokes_U) c) ^ 2)
               <= nansum (map (map (fun p => sqrt (stokes_Q p ^ 2 + stokes_U p ^ 2))) c)).
  { rewrite !nansum_map. apply norm_sum_le. }
  assert (Bv : Rabs (nansum (map (map stokes_V) c))
               <= nansum (map (map (fun p => Rabs (stokes_V p))) c)).
  { rewrite !nansum_map. apply abs_sum_le. }
  rewrite !frame_flips, El, Ev, Fl, Fv.
  destruct yflip; cbn [bind]; do 4 eexists;
    (split; [reflexivity|]); (split; [reflexivity|]);
    (split; [reflexivity|]); (split; [reflexivity|]).
  - split; [apply Forall_rev; exact Pl|]. split; [apply Forall_rev; exact Pv|].
    rewrite !nansum_rev. split; (split; [first [apply sqrt_pos|apply Rabs_pos]|assumption]).
  - split; [exact Pl|]. split; [exact Pv|].
    split; (split; [first [apply sqrt_pos|apply Rabs_pos]|assumption]).
Qed.

Lemma polarised_flux_below_frame_sum_witness :
  let self := IntegratedImages.mk
                (fun _ _ => Ok [[(1, 3, 0, 5); (1, -3, 0, -5)]]) 1 in
  exists fl al fv av,
    IntegratedImages.flux self 0 0 (IntegratedImages.SelStr "l") = Ok fl /\
    IntegratedImages.frame self 0 0 (IntegratedImages.SelStr "l") false = Ok al /\
    IntegratedImages.flux self 0 0 (IntegratedImages.SelStr "absv") = Ok fv /\
    IntegratedImages.frame self 0 0 (IntegratedImages.SelStr "absv") false = Ok av /\
    Forall (Forall (fun v => 0 <= v)) al /\ Forall (Forall (fun v => 0 <= v)) av /\
    0 <= fl <= nansum al /\ 0 <= fv <= nansum av.
Proof.
  intros self.
  exact (polarised_flux_below_frame_sum self 0 0
           [[(1 * 1, 3 * 1, 0 * 1, 5 * 1); (1 * 1, -3 * 1, 0 * 1, -5 * 1)]]
           false eq_refl).
Defined.

(** ** Light curves *)

Lemma comprehension_length {A B : Type} (f : A -> result B) (l : list A) (bs : list B) :
  comprehension f l = Ok bs -> List.length bs = List.length l.
Proof.
  revert bs. induction l as [|a l IH]; intros bs H; simpl in H.
  - inversion H. reflexivity.
  - destruct (f a) as [b| |]; cbn [bind] in H; try discriminate H.
    destruct (comprehension f l) as [bs'| |]; cbn [bind] in H; try discriminate H.
    inversion H. simpl. f_equal. apply IH. reflexivity.
Qed.

Lemma linspace_length (a b : R) (n : nat) : List.length (linspace a b n) = n.
Proof. unfold linspace. rewrite length_map, length_seq. reflexivity. Qed.

Lemma linspace_first (a b : R) (n : nat) (d : R) :
  (1 <= n)%nat -> hd d (linspace a b n) = a.
Proof.
  intros Hn. unfold linspace. destruct n as [|n]; [lia|].
  cbn [seq map hd INR]. ring.
Qed.

Lemma linspace_last (a b : R) (n : nat) (d : R) :
  (2 <= n)%nat -> last (linspace a b n) d = b.
Proof.
  intros Hn. unfold linspace. destruct n as [|n]; [lia|].
  rewrite seq_S, map_app. cbn [map]. rewrite last_last.
  replace (S n - 1)%nat with n by lia. cbn [Nat.add].
  assert (0 < INR n) by (apply lt_0_INR; lia).
  field. lra.
Qed.

(** X14.  [lightcurve_360] closes the light curve: with at least one
    rotation phase it returns the [n_cmls] fluxes followed by the first one
    again, against [n_cmls + 1] longitudes that run from 0 to 360; with no
    phase at all it raises [IndexError]. *)
Theorem lightcurve_360_closes (self : IntegratedImages.t) (ax : IntegratedImages.axes)
    (i_freq : Z) (i_stokes : IntegratedImages.selector) (lc : list R) :
  IntegratedImages.lightcurve self ax i_freq i_stokes = Ok lc ->
  ((1 <= IntegratedImages.n_cmls ax)%nat ->
   exists cmls lc_360,
     IntegratedImages.lightcurve_360 self ax i_freq i_stokes = Ok (cmls, lc_360) /\
     List.length cmls = S (IntegratedImages.n_cmls ax) /\
     List.length lc_360 = S (IntegratedImages.n_cmls ax) /\
     firstn (IntegratedImages.n_cmls ax) lc_360 = lc /\
     last lc_360 0 = hd 0 lc_360 /\
     hd 0 cmls = 0 /\ last cmls 0 = 360) /\
  (IntegratedImages.n_cmls ax = 0%nat ->
   IntegratedImages.lightcurve_360 self ax i_freq i_stokes = Raise IndexError).
Proof.
  intros Hlc. pose proof (comprehension_length _ _ _ Hlc) as Hlen.
  rewrite length_seq in Hlen.
  unfold IntegratedImages.lightcurve_360. rewrite Hlc. cbn [bind]. split.
  - intros Hn. destruct lc as [|lc0 rest]; [simpl in Hlen; lia|].
    exists (linspace 0 360 (IntegratedImages.n_cmls ax + 1)), ((lc0 :: rest) ++ [lc0]).
    split.
    { unfold py_index. cbn [List.length].
      replace (0 <? 0)%Z with false by reflexivity.
      replace ((0 <? 0)%Z || (Z.of_nat (S (List.length rest)) <=? 0)%Z)%bool with false
        by (symmetry; apply orb_false_iff; split; [reflexivity|apply Z.leb_gt; lia]).
      reflexivity. }
    split; [rewrite linspace_length; lia|].
    split; [rewrite length_app; simpl in *; lia|].
    split.
    { rewrite <- Hlen. rewrite firstn_app, firstn_all, Nat.sub_diag.
      cbn [firstn]. apply app_nil_r. }
    split; [rewrite last_last; reflexivity|].
    split; [apply linspace_first; lia|apply linspace_last; lia].
  - intros Hn. rewrite Hn in Hlen. destruct lc; [reflexivity|discriminate Hlen].
Qed.

Lemma lightcurve_360_closes_witness :
  let self := IntegratedImages.mk
                (fun i _ => if (i =? 0)%Z then Ok [[(1, 2, 3, 4)]]
                            else Ok [[(5, 6, 7, 8)]]) 1 in
  let ax := IntegratedImages.mkAxes 2 1 in
  exists lc,
    IntegratedImages.lightcurve self ax 0 (IntegratedImages.SelInt 0) = Ok lc /\
    exists cmls lc_360,
      IntegratedImages.lightcurve_360 self ax 0 (IntegratedImages.SelInt 0)
        = Ok (cmls, lc_360) /\
      List.length cmls = S (IntegratedImages.n_cmls ax) /\
      List.length lc_360 = S (IntegratedImages.n_cmls ax) /\
      firstn (IntegratedImages.n_cmls ax) lc_360 = lc /\
      last lc_360 0 = hd 0 lc_360 /\
      hd 0 cmls = 0 /\ last cmls 0 = 360.
Proof.
  intros self ax. eexists. split; [reflexivity|].
  apply (proj1 (lightcurve_360_closes self ax 0 (IntegratedImages.SelInt 0) _ eq_refl)).
  simpl. lia.
Defined.

Lemma fold_Rmin_le (l : list R) :
  forall a, fold_left Rmin l a <= a /\ Forall (fun v => fold_left Rmin l a <= v) l.
Proof.
  induction l as [|v l IH]; intros a; simpl; [split; [lra|constructor]|].
  destruct (IH (Rmin a v)) as [H1 H2].
  pose proof (Rmin_l a v). pose proof (Rmin_r a v).
  split; [lra|]. constructor; [lra|exact H2].
Qed.

Lemma fold_Rmax_ge (l : list R) :
  forall a, a <= fold_left Rmax l a /\ Forall (fun v => v <= fold_left Rmax l a) l.
Proof.
  induction l as [|v l IH]; intros a; simpl; [split; [lra|constructor]|].
  destruct (IH (Rmax a v)) as [H1 H2].
  pose proof (Rmax_l a v). pose proof (Rmax_r a v).
  split; [lra|]. constructor; [lra|exact H2].
Qed.

Lemma sum_between (lo hi : R) (l : list R) :
  Forall (fun v => lo <= v <= hi) l ->
  INR (List.length l) * lo <= fold_right Rplus 0 l <= INR (List.length l) * hi.
Proof.
  induction 1 as [|v l Hv _ IH].
  - simpl. lra.
  - cbn [List.length fold_right]. rewrite S_INR. lra.
Qed.

Lemma mean_between (lo hi : R) (l : list R) :
  l <> [] -> Forall (fun v => lo <= v <= hi) l -> lo <= np_mean l <= hi.
Proof.
  intros Hne H. pose proof (sum_between lo hi l H) as Hs.
  assert (Hn : 0 < INR (List.length l)).
  { apply lt_0_INR. destruct l; [contradiction|simpl; lia]. }
  unfold np_mean. split.
  - apply (Rmult_le_reg_r (INR (List.length l))); [exact Hn|].
    replace (fold_right Rplus 0 l / INR (List.length l) * INR (List.length l))
      with (fold_right Rplus 0 l) by (field; lra).
    lra.
  - apply (Rmult_le_reg_r (INR (List.length l))); [exact Hn|].
    replace (fold_right Rplus 0 l / INR (List.length l) * INR (List.length l))
      with (fold_right Rplus 0 l) by (field; lra).
    lra.
Qed.

(** X15.  The three numbers of [rot_flux_stats] are ordered, minimum <=
    mean <= maximum, and every flux of the light curve lies between the
    first and the last; with no rotation phase at all the call raises
    [ValueError] where the light curve itself is the empty array. *)
Theorem rot_flux_stats_are_ordered (self : IntegratedImages.t)
    (ax : IntegratedImages.axes) (i_freq : Z) (i_stokes : IntegratedImages.selector) :
  (forall lo avg hi,
     IntegratedImages.rot_flux_stats self ax i_freq i_stokes = Ok (lo, avg, hi) ->
     lo <= avg <= hi /\
     exists lc,
       IntegratedImages.lightcurve self ax i_freq i_stokes = Ok lc /\
       IntegratedImages.rot_avg_flux self ax i_freq i_stokes = Ok avg /\
       In lo lc /\ In hi lc /\ Forall (fun v => lo <= v <= hi) lc) /\
  (IntegratedImages.n_cmls ax = 0%nat ->
   IntegratedImages.lightcurve self ax i_freq i_stokes = Ok [] /\
   exists fmt args,
     IntegratedImages.rot_flux_stats self ax i_freq i_stokes
       = Raise (ValueError fmt args)).
Proof.
  split.
  - intros lo avg hi H.
    unfold IntegratedImages.rot_flux_stats, IntegratedImages.rot_avg_flux in *.
    destruct (IntegratedImages.lightcurve self ax i_freq i_stokes) as [lc| |];
      cbn [bind] in *; try discriminate H.
    destruct lc as [|a l]; [discriminate H|].
    cbn [np_min np_max bind] in H. inversion H; subst. clear H.
    destruct (fold_Rmin_le l a) as [Hmin1 Hmin2].
    destruct (fold_Rmax_ge l a) as [Hmax1 Hmax2].
    assert (Hall : Forall (fun v => fold_left Rmin l a <= v <= fold_left Rmax l a) (a :: l)).
    { constructor; [lra|].
      rewrite Forall_forall in *. intros v Hv.
      split; [apply Hmin2|apply Hmax2]; exact Hv. }
    split; [apply mean_between; [discriminate|exact Hall]|].
    exists (a :: l). split; [reflexivity|]. split; [reflexivity|].
    split; [|split; [|exact Hall]].
    + clear. revert a. induction l as [|v l IH]; intros a; simpl; [left; reflexivity|].
      destruct (IH (Rmin a v)) as [E|Hin].
      * unfold Rmin in E at 1. destruct (Rle_dec a v); [left|right; left]; exact E.
      * right. right. exact Hin.
    + clear. revert a. induction l as [|v l IH]; intros a; simpl; [left; reflexivity|].
      destruct (IH (Rmax a v)) as [E|Hin].
      * unfold Rmax in E at 1. destruct (Rle_dec a v); [right; left|left]; exact E.
      * right. right. exact Hin.
  - intros Hn.
    unfold IntegratedImages.rot_flux_stats, IntegratedImages.lightcurve.
    rewrite Hn. cbn [seq comprehension bind np_min]. split; [reflexivity|].
    do 2 eexists. reflexivity.
Qed.

Lemma rot_flux_stats_are_ordered_witness :
  let self := IntegratedImages.mk
                (fun i _ => if (i =? 0)%Z then Ok [[(1, 2, 3, 4)]]
                            else Ok [[(5, 6, 7, 8)]]) 1 in
  let ax := IntegratedImages.mkAxes 2 1 in
  exists lo avg hi,
    IntegratedImages.rot_flux_stats self ax 0 (IntegratedImages.SelInt 0)
      = Ok (lo, avg, hi) /\
    lo <= avg <= hi.
Proof.
  intros self ax. do 3 eexists. split; [reflexivity|].
  apply (proj1 (rot_flux_stats_are_ordered self ax 0 (IntegratedImages.SelInt 0))
           _ _ _ eq_refl).
Defined.

(** ** The two sampling strategies *)




(** X17.  A ray through the disk of the body starts on the sphere of
    radius [1 + surface_delta_radius], on the observer's side; a ray that
    misses the disk starts at [way_back_z]. *)
Theorem ray_starts_above_surface (self : BasicRayTracer.t) (x y : R) :
  0 <= BasicRayTracer.surface_delta_radius self ->
  (x ^ 2 + y ^ 2 <= 1 ->
   0 <= BasicRayTracer.start_z self x y /\
   x ^ 2 + y ^ 2 + BasicRayTracer.start_z self x y ^ 2 =
   (1 + BasicRayTracer.surface_delta_radius self) ^ 2) /\
  (1 < x ^ 2 + y ^ 2 ->
   BasicRayTracer.start_z self x y = BasicRayTracer.way_back_z self).
Proof.
  intros Hd. unfold BasicRayTracer.start_z.
  split; intros H.
  - destruct (Rle_dec (x ^ 2 + y ^ 2) 1) as [_|Hout]; [|contradiction].
    split; [apply sqrt_pos|].
    set (d := BasicRayTracer.surface_delta_radius self) in *.
    assert (Hpos : 0 <= (1 + d) ^ 2 - (x ^ 2 + y ^ 2)) by nra.
    replace (sqrt ((1 + d) ^ 2 - (x ^ 2 + y ^ 2)) ^ 2)
      with (sqrt ((1 + d) ^ 2 - (x ^ 2 + y ^ 2)) * sqrt ((1 + d) ^ 2 - (x ^ 2 + y ^ 2)))
      by ring.
    rewrite (sqrt_sqrt _ Hpos). ring.
  - destruct (Rle_dec (x ^ 2 + y ^ 2) 1) as [Hin|_]; [lra|reflexivity].
Qed.

Lemma ray_starts_above_surface_witness :
  (0.6 ^ 2 + 0 ^ 2 <= 1 ->
   0 <= BasicRayTracer.start_z BasicRayTracer.default 0.6 0 /\
   0.6 ^ 2 + 0 ^ 2 + BasicRayTracer.start_z BasicRayTracer.default 0.6 0 ^ 2 =
   (1 + BasicRayTracer.surface_delta_radius BasicRayTracer.default) ^ 2) /\
  (1 < 0.6 ^ 2 + 0 ^ 2 ->
   BasicRayTracer.start_z BasicRayTracer.default 0.6 0 =
   BasicRayTracer.way_back_z BasicRayTracer.default).
Proof.
  apply (ray_starts_above_surface BasicRayTracer.default 0.6 0). simpl. lra.
Defined.

Lemma existsb_some_above (cutoff : R) (l : list R) :
  (exists ne, In ne l /\ cutoff < ne) ->
  existsb (fun ne => Rltb cutoff ne) l = true.
Proof.
  intros (ne & Hin & Hlt). apply existsb_exists. exists ne.
  split; [exact Hin|apply Rltb_true; exact Hlt].
Qed.

(** X18.  Where the coarse samples (taken with a nonzero step) find
    particles and both the first and the last of them are at or above the
    cutoff, [create_ray] refines no bound: whatever the root finder is, it is
    not consulted, and the ray is sampled between the unrefined start point
    and [way_front_z]. *)
Theorem dense_ends_need_no_root_finding
    (brentq : (R -> R) -> R -> R -> result (R * RootResults))
    (sample_ray : R -> R -> R -> R -> VanAllenSetup -> result Ray.t)
    (self : BasicRayTracer.t) (x y : R) (setup : VanAllenSetup) :
  BasicRayTracer.delta_z self <> 0 ->
  (exists ne, In ne (BasicRayTracer.coarse_nesamps self x y setup) /\
              BasicRayTracer.ne0_cutoff self < ne) ->
  ~ hd 0 (BasicRayTracer.coarse_nesamps self x y setup) < BasicRayTracer.ne0_cutoff self ->
  ~ last (BasicRayTracer.coarse_nesamps self x y setup) 0 < BasicRayTracer.ne0_cutoff self ->
  BasicRayTracer.create_ray_via brentq sample_ray self x y setup =
  sample_ray x y (BasicRayTracer.start_z self x y) (BasicRayTracer.way_front_z self) setup.
Proof.
  intros Hstep Hsome Hfirst Hlast. unfold BasicRayTracer.create_ray_via.
  rewrite (np_arange_nonzero _ _ _ Hstep). cbn [bind].
  unfold BasicRayTracer.coarse_nesamps, BasicRayTracer.coarse_zsamps in *.
  rewrite (existsb_some_above _ _ Hsome). cbn [negb].
  rewrite (Rltb_false _ _ Hfirst), (Rltb_false _ _ Hlast). reflexivity.
Qed.

Lemma uniform_density (x y radius z : R) :
  BasicRayTracer.z_to_ne x y (example_setup uniform_distribution radius) z = 2.
Proof.
  unfold BasicRayTracer.z_to_ne.
  destruct (ObserverToBodycentric.__call__ _ x y z) as [[blat blon] br].
  destruct (TiltedDipoleField.__call__ _ blat blon br) as [[mlat mlon] L].
  reflexivity.
Qed.

Lemma dense_ends_need_no_root_finding_witness :
  BasicRayTracer.create_ray_via failing_brentq
    (BasicRayTracer._sample_ray BasicRayTracer.default)
    BasicRayTracer.default 0 0 (example_setup uniform_distribution 1) =
  BasicRayTracer._sample_ray BasicRayTracer.default 0 0
    (BasicRayTracer.start_z BasicRayTracer.default 0 0)
    (BasicRayTracer.way_front_z BasicRayTracer.default)
    (example_setup uniform_distribution 1).
Proof.
  assert (E : BasicRayTracer.coarse_nesamps BasicRayTracer.default 0 0
                (example_setup uniform_distribution 1) = repeat 2 14).
  { unfold BasicRayTracer.coarse_nesamps, BasicRayTracer.coarse_zsamps.
    cbn [BasicRayTracer.way_front_z BasicRayTracer.delta_z BasicRayTracer.default].
    change (BasicRayTracer.mk (-15) 15 0.03 1 1 300) with BasicRayTracer.default.
    rewrite centre_zsamps, map_map.
    cbn [seq map]. rewrite !uniform_density. reflexivity. }
  apply dense_ends_need_no_root_finding.
  - simpl. lra.
  - rewrite E. exists 2. split; [left; reflexivity|simpl; lra].
  - rewrite E. simpl. lra.
  - rewrite E. simpl. lra.
Defined.





(** ** The built-in particle distributions *)

Lemma sph_to_cart_cylinder (lat lon r : R) :
  let '(x, y, z) := sph_to_cart lat lon r in
  x ^ 2 + y ^ 2 = (r * cos lat) ^ 2 /\ z = r * sin lat.
Proof.
  unfold sph_to_cart. cbv zeta. split; [|reflexivity].
  pose proof (trig_one lon) as H.
  replace ((r * cos lat * cos lon) ^ 2 + (r * cos lat * sin lon) ^ 2)
    with ((r * cos lat) ^ 2 * (sin lon ^ 2 + cos lon ^ 2)) by ring.
  rewrite H. ring.
Qed.

Lemma torus_samples (self : SimpleTorusDistribution.t) (mlat mlon L : R) (just_ne : bool) :
  SimpleTorusDistribution.get_samples self mlat mlon L just_ne =
  let r := L * cos mlat ^ 2 in
  let a := SimpleTorusDistribution.r1 self in
  let b := SimpleTorusDistribution.r2 self in
  let q := (r ^ 2 - (a ^ 2 + b ^ 2)) ^ 2 - 4 * a * b * (b ^ 2 - (r * sin mlat) ^ 2) in
  [if Rltb q 0 then SimpleTorusDistribution.n_e self else 0;
   if Rltb q 0 then SimpleTorusDistribution.p self else 0].
Proof.
  unfold SimpleTorusDistribution.get_samples. cbv zeta.
  pose proof (sph_to_cart_norm mlat mlon (L * cos mlat ^ 2)) as Hn.
  pose proof (sph_to_cart_cylinder mlat mlon (L * cos mlat ^ 2)) as Hc.
  destruct (sph_to_cart mlat mlon (L * cos mlat ^ 2)) as [[x y] z].
  destruct Hc as [_ Hz]. rewrite Hn, Hz. reflexivity.
Qed.

Lemma washer_samples (self : SimpleWasherDistribution.t) (mlat mlon L : R)
    (just_ne : bool) :
  SimpleWasherDistribution.get_samples self mlat mlon L just_ne =
  let r := L * cos mlat ^ 2 in
  let inside :=
    (Rltb (SimpleWasherDistribution.r_inner self ^ 2) ((r * cos mlat) ^ 2)
     && Rltb ((r * cos mlat) ^ 2) (SimpleWasherDistribution.r_outer self ^ 2)
     && Rltb (Rabs (r * sin mlat)) (0.5 * SimpleWasherDistribution.thickness self))%bool in
  [if inside then
     SimpleWasherDistribution._density_factor self *
     np_power ((SimpleWasherDistribution.r_outer self - r) /
               (SimpleWasherDistribution.r_outer self -
                SimpleWasherDistribution.r_inner self))
              (SimpleWasherDistribution.radial_concentration self)
   else 0;
   if inside then SimpleWasherDistribution.p self else 0].
Proof.
  unfold SimpleWasherDistribution.get_samples. cbv zeta.
  pose proof (sph_to_cart_cylinder mlat mlon (L * cos mlat ^ 2)) as Hc.
  destruct (sph_to_cart mlat mlon (L * cos mlat ^ 2)) as [[x y] z].
  destruct Hc as [Hxy Hz]. rewrite Hxy, Hz. reflexivity.
Qed.

(** X20.  The torus and the washer are bodies of revolution about the
    magnetic axis, mirrored in the magnetic equator: their samples do not
    depend on the magnetic longitude (nor on [just_ne]), and are the same at
    the latitudes [mlat] and [- mlat]. *)
Theorem builtin_distributions_are_symmetric
    (torus : SimpleTorusDistribution.t) (washer : SimpleWasherDistribution.t)
    (mlat mlon mlon' L : R) (just_ne just_ne' : bool) :
  SimpleTorusDistribution.get_samples torus mlat mlon L just_ne =
    SimpleTorusDistribution.get_samples torus mlat mlon' L just_ne' /\
  SimpleTorusDistribution.get_samples torus (- mlat) mlon L just_ne =
    SimpleTorusDistribution.get_samples torus mlat mlon L just_ne /\
  SimpleWasherDistribution.get_samples washer mlat mlon L just_ne =
    SimpleWasherDistribution.get_samples washer mlat mlon' L just_ne' /\
  SimpleWasherDistribution.get_samples washer (- mlat) mlon L just_ne =
    SimpleWasherDistribution.get_samples washer mlat mlon L just_ne.
Proof.
  rewrite !torus_samples, !washer_samples. cbv zeta.
  rewrite cos_neg, sin_neg.
  replace ((L * cos mlat ^ 2 * - sin mlat) ^ 2)
    with ((L * cos mlat ^ 2 * sin mlat) ^ 2) by ring.
  replace (L * cos mlat ^ 2 * - sin mlat) with (- (L * cos mlat ^ 2 * sin mlat)) by ring.
  rewrite Rabs_Ropp. repeat split; reflexivity.
Qed.

(** X21.  The torus has hard edges: a sample is either [(n_e, p)] or
    [(0, 0)], and for radii [r1], [r2] of one sign a point with a nonzero
    density lies less than [|r2|] from the magnetic equatorial plane, its
    radius [r = L cos(mlat)^2] and height [z = r sin(mlat)] satisfying
    [(r^2 - r1^2 - r2^2)^2 < 4 r1 r2 (r2^2 - z^2)]. *)
Theorem torus_is_confined (self : SimpleTorusDistribution.t) (mlat mlon L : R)
    (just_ne : bool) :
  0 <= SimpleTorusDistribution.r1 self * SimpleTorusDistribution.r2 self ->
  let r := L * cos mlat ^ 2 in
  let z := r * sin mlat in
  (SimpleTorusDistribution.get_samples self mlat mlon L just_ne =
     [SimpleTorusDistribution.n_e self; SimpleTorusDistribution.p self] \/
   SimpleTorusDistribution.get_samples self mlat mlon L just_ne = [0; 0]) /\
  (hd 0 (SimpleTorusDistribution.get_samples self mlat mlon L just_ne) <> 0 ->
   Rabs z < Rabs (SimpleTorusDistribution.r2 self) /\
   (r ^ 2 - (SimpleTorusDistribution.r1 self ^ 2 + SimpleTorusDistribution.r2 self ^ 2)) ^ 2
   < 4 * SimpleTorusDistribution.r1 self * SimpleTorusDistribution.r2 self *
     (SimpleTorusDistribution.r2 self ^ 2 - z ^ 2)).
Proof.
  intros Hab. cbv zeta. rewrite torus_samples. cbv zeta.
  set (a := SimpleTorusDistribution.r1 self) in *.
  set (b := SimpleTorusDistribution.r2 self) in *.
  set (r := L * cos mlat ^ 2). set (z := r * sin mlat).
  unfold Rltb. destruct (Rlt_dec _ 0) as [Hq|Hq].
  - split; [left; reflexivity|]. intros _.
    assert (Hsq : 0 <= (r ^ 2 - (a ^ 2 + b ^ 2)) ^ 2) by apply pow2_ge_0.
    assert (Hpos : 0 < a * b * (b ^ 2 - z ^ 2)) by lra.
    split; [|lra].
    assert (Hz : z ^ 2 < b ^ 2).
    { destruct (Rlt_dec (z ^ 2) (b ^ 2)) as [H|H]; [exact H|]. exfalso.
      assert (b ^ 2 - z ^ 2 <= 0) by lra. nra. }
    apply Rsqr_lt_abs_0. unfold Rsqr. lra.
  - split; [right; reflexivity|]. intros H. exfalso. apply H. reflexivity.
Qed.

Lemma torus_is_confined_witness :
  let self := SimpleTorusDistribution.mk 5 2 100000 3 in
  let r := 5 * cos 0 ^ 2 in
  let z := r * sin 0 in
  Rabs z < Rabs 2 /\
  (r ^ 2 - (5 ^ 2 + 2 ^ 2)) ^ 2 < 4 * 5 * 2 * (2 ^ 2 - z ^ 2).
Proof.
  intros self r z.
  apply (proj2 (torus_is_confined self 0 0 5 false ltac:(simpl; lra))).
  rewrite torus_samples. cbv zeta. rewrite cos_0, sin_0.
  cbn [SimpleTorusDistribution.r1 SimpleTorusDistribution.r2
       SimpleTorusDistribution.n_e self hd].
  rewrite Rltb_true by lra. lra.
Defined.

Lemma np_power_zero (a : R) : np_power a 0 = 1.
Proof.
  unfold np_power. destruct (Rlt_dec 0 a) as [H|H]; [apply Rpower_O; exact H|].
  assert (E : Int_part 0 = 0%Z) by (symmetry; apply Int_part_spec; lra).
  rewrite E. destruct (Req_dec_T 0 0) as [_|Hn]; [reflexivity|contradiction].
Qed.

(** X22.  With [radial_concentration = 0] the washer is uniformly filled:
    for unequal radii that do not add up to zero its construction succeeds,
    the density factor is the [n_e] given, and every sample is [(n_e, p)]
    or [(0, 0)].  A washer whose two radii are equal cannot be constructed:
    the quotient for the density factor raises [ZeroDivisionError]. *)
Theorem washer_without_concentration_is_uniform (r_inner r_outer thickness n_e p : R) :
  (r_outer <> r_inner -> r_inner + r_outer <> 0 ->
   exists w,
     SimpleWasherDistribution.__init__ r_inner r_outer thickness n_e p 0 = Ok w /\
     SimpleWasherDistribution._density_factor w = n_e /\
     forall mlat mlon L just_ne,
       SimpleWasherDistribution.get_samples w mlat mlon L just_ne = [n_e; p] \/
       SimpleWasherDistribution.get_samples w mlat mlon L just_ne = [0; 0]) /\
  (forall c,
     SimpleWasherDistribution.__init__ r_inner r_inner thickness n_e p c
     = Raise ZeroDivisionError).
Proof.
  split.
  - intros Hne Hsum. unfold SimpleWasherDistribution.__init__. cbv zeta.
    destruct (Req_dec_T ((0 + 1) * (0 + 2)) 0) as [E|_]; [lra|].
    destruct (Req_dec_T _ 0) as [E|_].
    { exfalso.
      replace (2 * (r_outer - r_inner) * ((0 + 1) * r_inner + r_outer) / ((0 + 1) * (0 + 2)))
        with ((r_outer - r_inner) * (r_inner + r_outer)) in E by field.
      apply Rmult_integral in E. destruct E; lra. }
    eexists. split; [reflexivity|].
    assert (Ef : n_e * (r_outer ^ 2 - r_inner ^ 2) /
                 (2 * (r_outer - r_inner) * ((0 + 1) * r_inner + r_outer) /
                  ((0 + 1) * (0 + 2))) = n_e).
    { field. split; lra. }
    split; [exact Ef|].
    intros mlat mlon L just_ne. rewrite washer_samples. cbv zeta.
    cbn [SimpleWasherDistribution._density_factor
         SimpleWasherDistribution.radial_concentration SimpleWasherDistribution.p].
    rewrite np_power_zero, Ef, Rmult_1_r.
    destruct (_ && _ && _)%bool; [left|right]; reflexivity.
  - intros c. unfold SimpleWasherDistribution.__init__. cbv zeta.
    destruct (Req_dec_T ((c + 1) * (c + 2)) 0) as [_|Hc]; [reflexivity|].
    destruct (Req_dec_T _ 0) as [_|Hn]; [reflexivity|].
    exfalso. apply Hn. unfold Rdiv. ring.
Qed.

Lemma washer_without_concentration_is_uniform_witness :
  exists w,
    SimpleWasherDistribution.__init__ 2 7 0.7 100000 3 0 = Ok w /\
    SimpleWasherDistribution._density_factor w = 100000 /\
    forall mlat mlon L just_ne,
      SimpleWasherDistribution.get_samples w mlat mlon L just_ne = [100000; 3] \/
      SimpleWasherDistribution.get_samples w mlat mlon L just_ne = [0; 0].
Proof.
  apply (proj1 (washer_without_concentration_is_uniform 2 7 0.7 100000 3)); lra.
Defined.

(** ** The pixel grid of an image *)

Lemma py_index_inside {A : Type} (a : list A) (i : nat) (d : A) :
  (i < List.length a)%nat -> py_index a (Z.of_nat i) = Ok (nth i a d).
Proof.
  intros Hi. unfold py_index. cbv zeta.
  assert (E1 : (Z.of_nat i <? 0)%Z = false) by (apply Z.ltb_ge; lia).
  assert (E2 : (Z.of_nat (List.length a) <=? Z.of_nat i)%Z = false)
    by (apply Z.leb_gt; lia).
  rewrite E1. cbv iota. rewrite E1, E2. cbn [orb]. rewrite Nat2Z.id.
  destruct (nth_error a i) as [v|] eqn:E.
  - rewrite (nth_error_nth a i d E). reflexivity.
  - apply nth_error_None in E. lia.
Qed.

Lemma py_index_negative {A : Type} (a : list A) (i : Z) :
  (- Z.of_nat (List.length a) <= i < 0)%Z ->
  py_index a i = py_index a (i + Z.of_nat (List.length a)).
Proof.
  intros Hi. unfold py_index. cbv zeta.
  assert (E1 : (i <? 0)%Z = true) by (apply Z.ltb_lt; lia).
  assert (E2 : (i + Z.of_nat (List.length a) <? 0)%Z = false) by (apply Z.ltb_ge; lia).
  rewrite E1. cbv iota. rewrite E2. cbv iota. rewrite E2. reflexivity.
Qed.

Lemma py_index_outside {A : Type} (a : list A) (i : Z) :
  (i < - Z.of_nat (List.length a) \/ Z.of_nat (List.length a) <= i)%Z ->
  py_index a i = Raise IndexError.
Proof.
  intros Hi. unfold py_index. cbv zeta.
  destruct (i <? 0)%Z eqn:E.
  - apply Z.ltb_lt in E.
    assert (E2 : (i + Z.of_nat (List.length a) <? 0)%Z = true) by (apply Z.ltb_lt; lia).
    cbv iota. rewrite E2. reflexivity.
  - apply Z.ltb_ge in E.
    assert (E2 : (Z.of_nat (List.length a) <=? i)%Z = true) by (apply Z.leb_le; lia).
    cbv iota. rewrite E2, orb_true_r. reflexivity.
Qed.

Lemma py_index_raises_index_error {A : Type} (a : list A) (i : Z) (e : exn) :
  py_index a i = Raise e -> e = IndexError.
Proof.
  unfold py_index. cbv zeta. intros H.
  destruct (_ || _)%bool; [inversion H; reflexivity|].
  destruct (nth_error a _); [discriminate H|inversion H; reflexivity].
Qed.

Lemma py_index_never_out_of_fuel {A : Type} (a : list A) (i : Z) :
  py_index a i <> OutOfFuel.
Proof.
  unfold py_index. cbv zeta.
  destruct (_ || _)%bool; [discriminate|].
  destruct (nth_error a _); discriminate.
Qed.

Lemma linspace_nth (a b : R) (n i : nat) (d : R) :
  (i < n)%nat -> nth i (linspace a b n) d = a + INR i * ((b - a) / INR (n - 1)).
Proof.
  intros Hi. unfold linspace.
  rewrite (nth_indep _ d (a + INR 0 * ((b - a) / INR (n - 1))))
    by (rewrite length_map, length_seq; exact Hi).
  rewrite (map_nth (fun i => a + INR i * ((b - a) / INR (n - 1))) (seq 0 n) 0%nat i).
  rewrite seq_nth by exact Hi. reflexivity.
Qed.

Lemma grid_value (h : R) (n i : nat) :
  (2 <= n)%nat -> (i < n)%nat ->
  py_index (linspace (- h) h n) (Z.of_nat i) =
    Ok (h * (2 * INR i / INR (n - 1) - 1)) /\
  - Rabs h <= h * (2 * INR i / INR (n - 1) - 1) <= Rabs h.
Proof.
  intros Hn Hi.
  assert (Hd : 0 < INR (n - 1)) by (apply lt_0_INR; lia).
  split.
  - rewrite (py_index_inside _ i 0) by (rewrite linspace_length; exact Hi).
    rewrite linspace_nth by exact Hi. f_equal. field. lra.
  - assert (Hq : 0 <= INR i / INR (n - 1) <= 1).
    { split.
      - apply Rle_mult_inv_pos; [apply pos_INR|exact Hd].
      - apply (Rmult_le_reg_r (INR (n - 1))); [exact Hd|].
        replace (INR i / INR (n - 1) * INR (n - 1)) with (INR i) by (field; lra).
        rewrite Rmult_1_l. apply le_INR. lia. }
    replace (2 * INR i / INR (n - 1)) with (2 * (INR i / INR (n - 1))) by (field; lra).
    set (q := INR i / INR (n - 1)) in *.
    unfold Rabs. destruct (Rcase_abs h); nra.
Qed.

Lemma grid_mirror (h : R) (n i : nat) :
  (2 <= n)%nat -> (i < n)%nat ->
  h * (2 * INR (n - 1 - i) / INR (n - 1) - 1) = - (h * (2 * INR i / INR (n - 1) - 1)).
Proof.
  intros Hn Hi.
  assert (Hd : 0 < INR (n - 1)) by (apply lt_0_INR; lia).
  rewrite minus_INR by lia. field. lra.
Qed.

(** X23.  The pixels of an image (of at least two by two pixels) are
    evenly spaced over [-xhalfsize, xhalfsize] by [-yhalfsize, yhalfsize]:
    pixel [(ix, iy)] looks along [x = xhalfsize * (2 ix / (nx - 1) - 1)] and
    likewise in y, so that the first pixel is at [- xhalfsize], the last at
    [xhalfsize], no pixel lies outside, and the pixel mirrored through the
    centre of the grid looks along [(- x, - y)]. *)
Theorem pixel_grid_is_centred (self : ImageMaker.t) (ix iy : nat) :
  (2 <= ImageMaker.nx self)%nat -> (2 <= ImageMaker.ny self)%nat ->
  (ix < ImageMaker.nx self)%nat -> (iy < ImageMaker.ny self)%nat ->
  let x := ImageMaker.xhalfsize self * (2 * INR ix / INR (ImageMaker.nx self - 1) - 1) in
  let y := ImageMaker.yhalfsize self * (2 * INR iy / INR (ImageMaker.ny self - 1) - 1) in
  ImageMaker.map_pixel self (Z.of_nat ix) (Z.of_nat iy) = Ok (x, y) /\
  - Rabs (ImageMaker.xhalfsize self) <= x <= Rabs (ImageMaker.xhalfsize self) /\
  - Rabs (ImageMaker.yhalfsize self) <= y <= Rabs (ImageMaker.yhalfsize self) /\
  ImageMaker.map_pixel self (Z.of_nat (ImageMaker.nx self - 1 - ix))
                            (Z.of_nat (ImageMaker.ny self - 1 - iy)) = Ok (- x, - y) /\
  ImageMaker.map_pixel self 0 0 =
    Ok (- ImageMaker.xhalfsize self, - ImageMaker.yhalfsize self) /\
  ImageMaker.map_pixel self (Z.of_nat (ImageMaker.nx self - 1))
                            (Z.of_nat (ImageMaker.ny self - 1)) =
    Ok (ImageMaker.xhalfsize self, ImageMaker.yhalfsize self).
Proof.
  intros Hnx Hny Hix Hiy. cbv zeta.
  unfold ImageMaker.map_pixel, ImageMaker._xvals, ImageMaker._yvals.
  set (nx := ImageMaker.nx self) in *. set (ny := ImageMaker.ny self) in *.
  set (xh := ImageMaker.xhalfsize self). set (yh := ImageMaker.yhalfsize self).
  destruct (grid_value xh nx ix Hnx Hix) as [Ex Bx].
  destruct (grid_value yh ny iy Hny Hiy) as [Ey By].
  destruct (grid_value xh nx (nx - 1 - ix) Hnx ltac:(lia)) as [Ex' _].
  destruct (grid_value yh ny (ny - 1 - iy) Hny ltac:(lia)) as [Ey' _].
  destruct (grid_value xh nx 0 Hnx ltac:(lia)) as [Ex0 _].
  destruct (grid_value yh ny 0 Hny ltac:(lia)) as [Ey0 _].
  destruct (grid_value xh nx (nx - 1) Hnx ltac:(lia)) as [Ex1 _].
  destruct (grid_value yh ny (ny - 1) Hny ltac:(lia)) as [Ey1 _].
  rewrite (grid_mirror xh nx ix Hnx Hix) in Ex'.
  rewrite (grid_mirror yh ny iy Hny Hiy) in Ey'.
  assert (Hdx : 0 < INR (nx - 1)) by (apply lt_0_INR; lia).
  assert (Hdy : 0 < INR (ny - 1)) by (apply lt_0_INR; lia).
  change (Z.of_nat 0) with 0%Z in Ex0, Ey0.
  rewrite Ex, Ey, Ex', Ey', Ex0, Ey0, Ex1, Ey1. cbn [bind].
  split; [reflexivity|]. split; [exact Bx|]. split; [exact By|].
  split; [reflexivity|].
  split; f_equal; f_equal; cbn [INR]; field; lra.
Qed.

Lemma pixel_grid_is_centred_witness :
  let x := ImageMaker.xhalfsize ImageMaker.default *
           (2 * INR 11 / INR (ImageMaker.nx ImageMaker.default - 1) - 1) in
  let y := ImageMaker.yhalfsize ImageMaker.default *
           (2 * INR 0 / INR (ImageMaker.ny ImageMaker.default - 1) - 1) in
  ImageMaker.map_pixel ImageMaker.default (Z.of_nat 11) (Z.of_nat 0) = Ok (x, y) /\
  - Rabs (ImageMaker.xhalfsize ImageMaker.default) <= x
    <= Rabs (ImageMaker.xhalfsize ImageMaker.default) /\
  - Rabs (ImageMaker.yhalfsize ImageMaker.default) <= y
    <= Rabs (ImageMaker.yhalfsize ImageMaker.default) /\
  ImageMaker.map_pixel ImageMaker.default
    (Z.of_nat (ImageMaker.nx ImageMaker.default - 1 - 11))
    (Z.of_nat (ImageMaker.ny ImageMaker.default - 1 - 0)) = Ok (- x, - y) /\
  ImageMaker.map_pixel ImageMaker.default 0 0 =
    Ok (- ImageMaker.xhalfsize ImageMaker.default,
        - ImageMaker.yhalfsize ImageMaker.default) /\
  ImageMaker.map_pixel ImageMaker.default
    (Z.of_nat (ImageMaker.nx ImageMaker.default - 1))
    (Z.of_nat (ImageMaker.ny ImageMaker.default - 1)) =
    Ok (ImageMaker.xhalfsize ImageMaker.default, ImageMaker.yhalfsize ImageMaker.default).
Proof.
  apply (pixel_grid_is_centred ImageMaker.default 11 0); simpl; lia.
Defined.

(** X24.  [map_pixel] indexes the grid as Python indexes a sequence: a
    negative index counts from the far edge ([-1] is the last column or
    row), and an index at or beyond the size of the grid, or below its
    negation, raises [IndexError]; [get_ray] then raises it too, whatever
    the ray tracer, which is not called. *)
Theorem map_pixel_follows_python_indexing (self : ImageMaker.t) (ix iy : Z) :
  ((- Z.of_nat (ImageMaker.nx self) <= ix < 0)%Z ->
   ImageMaker.map_pixel self ix iy =
   ImageMaker.map_pixel self (ix + Z.of_nat (ImageMaker.nx self)) iy) /\
  ((- Z.of_nat (ImageMaker.ny self) <= iy < 0)%Z ->
   ImageMaker.map_pixel self ix iy =
   ImageMaker.map_pixel self ix (iy + Z.of_nat (ImageMaker.ny self))) /\
  ((ix < - Z.of_nat (ImageMaker.nx self) \/ Z.of_nat (ImageMaker.nx self) <= ix \/
    iy < - Z.of_nat (ImageMaker.ny self) \/ Z.of_nat (ImageMaker.ny self) <= iy)%Z ->
   ImageMaker.map_pixel self ix iy = Raise IndexError /\
   forall create_ray setup,
     ImageMaker.get_ray create_ray self setup ix iy = Raise IndexError).
Proof.
  assert (G : ImageMaker.map_pixel self ix iy = Raise IndexError ->
              ImageMaker.map_pixel self ix iy = Raise IndexError /\
              forall create_ray setup,
                ImageMaker.get_ray create_ray self setup ix iy = Raise IndexError).
  { intros E. split; [exact E|]. intros create_ray setup.
    unfold ImageMaker.get_ray. rewrite E. reflexivity. }
  revert G. unfold ImageMaker.map_pixel. intros G.
  pose proof (linspace_length (- ImageMaker.xhalfsize self) (ImageMaker.xhalfsize self)
                (ImageMaker.nx self)) as Lx.
  pose proof (linspace_length (- ImageMaker.yhalfsize self) (ImageMaker.yhalfsize self)
                (ImageMaker.ny self)) as Ly.
  fold (ImageMaker._xvals self) in Lx. fold (ImageMaker._yvals self) in Ly.
  split; [|split].
  - intros H. rewrite (py_index_negative (ImageMaker._xvals self) ix) by (rewrite Lx; exact H).
    rewrite Lx. reflexivity.
  - intros H. rewrite (py_index_negative (ImageMaker._yvals self) iy) by (rewrite Ly; exact H).
    rewrite Ly. reflexivity.
  - intros H. apply G.
    destruct (Z_lt_dec ix (- Z.of_nat (ImageMaker.nx self))) as [Hx|Hx];
      [rewrite (py_index_outside (ImageMaker._xvals self) ix) by (rewrite Lx; lia);
       reflexivity|].
    destruct (Z_le_dec (Z.of_nat (ImageMaker.nx self)) ix) as [Hx'|Hx'];
      [rewrite (py_index_outside (ImageMaker._xvals self) ix) by (rewrite Lx; lia);
       reflexivity|].
    rewrite (py_index_outside (ImageMaker._yvals self) iy) by (rewrite Ly; lia).
    destruct (py_index (ImageMaker._xvals self) ix) as [v|e|] eqn:E; cbn [bind].
    + reflexivity.
    + rewrite (py_index_raises_index_error _ _ _ E). reflexivity.
    + exfalso. exact (py_index_never_out_of_fuel _ _ E).
Qed.

Lemma map_pixel_follows_python_indexing_witness :
  ImageMaker.map_pixel ImageMaker.default (-1) 0 =
  ImageMaker.map_pixel ImageMaker.default
    (-1 + Z.of_nat (ImageMaker.nx ImageMaker.default)) 0 /\
  (ImageMaker.map_pixel ImageMaker.default 23 0 = Raise IndexError /\
   forall create_ray setup,
     ImageMaker.get_ray create_ray ImageMaker.default setup 23 0 = Raise IndexError).
Proof.
  split.
  - apply (proj1 (map_pixel_follows_python_indexing ImageMaker.default (-1) 0)).
    simpl. lia.
  - apply (proj2 (proj2 (map_pixel_follows_python_indexing ImageMaker.default 23 0))).
    simpl. lia.
Defined.

(** ** Imaging by blocks of rows *)

Section SerialImaging.

Variable ray_t : Type.
Variable get_ray : Z -> Z -> result ray_t.
Variable func : ray_t -> result (list R).
Variable v : Z -> Z -> list R.
Variable k : nat.

Let traced (ix iy : Z) : Prop :=
  exists ray, get_ray ix iy = Ok ray /\ func ray = Ok (v ix iy) /\
              List.length (v ix iy) = k.

Lemma pixel_stored (ko : option nat) (ix iy : Z) :
  ko = None \/ ko = Some k -> traced ix iy ->
  ImageMaker.pixel ray_t get_ray func ko ix iy = Ok (k, v ix iy).
Proof.
  intros Hk (ray & Hray & Hval & Hlen). unfold ImageMaker.pixel.
  rewrite Hray. cbn [bind]. rewrite Hval. cbn [bind]. cbv zeta.
  destruct Hk as [E|E]; subst ko; rewrite Hlen, Nat.eqb_refl; reflexivity.
Qed.

Lemma row_loop_stored (iy : Z) (ixs : list nat) :
  forall ko,
    ko = None \/ ko = Some k ->
    (forall ix, In ix ixs -> traced (Z.of_nat ix) iy) ->
    ImageMaker.row_loop ray_t get_ray func ko iy ixs =
    Ok (match ixs with [] => ko | _ :: _ => Some k end,
        map (fun ix => v (Z.of_nat ix) iy) ixs).
Proof.
  induction ixs as [|ix ixs IH]; intros ko Hk Hall; [reflexivity|].
  cbn [ImageMaker.row_loop].
  rewrite (pixel_stored ko (Z.of_nat ix) iy Hk (Hall ix (or_introl eq_refl))).
  cbn [bind fst snd].
  rewrite (IH (Some k) (or_intror eq_refl) (fun i Hi => Hall i (or_intror Hi))).
  cbn [bind fst snd map]. destruct ixs; reflexivity.
Qed.

Lemma rows_loop_stored (nx : nat) (iys : list Z) :
  (1 <= nx)%nat ->
  forall ko,
    ko = None \/ ko = Some k ->
    (forall ix iy, (ix < nx)%nat -> In iy iys -> traced (Z.of_nat ix) iy) ->
    ImageMaker.rows_loop ray_t get_ray func ko nx iys =
    Ok (match iys with [] => ko | _ :: _ => Some k end,
        map (fun iy => map (fun ix => v (Z.of_nat ix) iy) (seq 0 nx)) iys).
Proof.
  intros Hnx. induction iys as [|iy iys IH]; intros ko Hk Hall; [reflexivity|].
  cbn [ImageMaker.rows_loop].
  rewrite (row_loop_stored iy (seq 0 nx) ko Hk).
  2:{ intros ix Hix. apply in_seq in Hix. apply Hall; [lia|left; reflexivity]. }
  cbn [bind fst snd].
  destruct nx as [|nx']; [lia|]. cbn [seq].
  rewrite (IH (Some k) (or_intror eq_refl)
              (fun ix iy' Hix Hiy => Hall ix iy' Hix (or_intror Hiy))).
  cbn [bind fst snd map seq]. destruct iys; reflexivity.
Qed.

Lemma row_range_app (first_row : Z) (n1 n2 : nat) :
  ImageMaker.row_range first_row (Z.of_nat (n1 + n2)) =
  ImageMaker.row_range first_row (Z.of_nat n1) ++
  ImageMaker.row_range (first_row + Z.of_nat n1) (Z.of_nat n2).
Proof.
  unfold ImageMaker.row_range. rewrite !Nat2Z.id.
  rewrite seq_app, map_app. f_equal. cbn [Nat.add].
  assert (G : forall n s,
             map (fun i => (first_row + Z.of_nat i)%Z) (seq s n) =
             map (fun i => (first_row + Z.of_nat s + Z.of_nat i)%Z) (seq 0 n)).
  { induction n as [|n IH]; intros s; [reflexivity|].
    cbn [seq map]. f_equal; [lia|].
    rewrite IH, <- (seq_shift n 0), map_map.
    apply map_ext. intros i. lia. }
  apply G.
Qed.

Lemma row_range_in (first_row : Z) (n : nat) (iy : Z) :
  In iy (ImageMaker.row_range first_row (Z.of_nat n)) ->
  (first_row <= iy < first_row + Z.of_nat n)%Z.
Proof.
  unfold ImageMaker.row_range. rewrite Nat2Z.id. intros H.
  apply in_map_iff in H. destruct H as (i & E & Hi). apply in_seq in Hi. lia.
Qed.

Lemma serial_block (self : ImageMaker.t) (first_row : Z) (n : nat) :
  (1 <= ImageMaker.nx self)%nat -> (1 <= n)%nat ->
  (forall ix iy, (ix < ImageMaker.nx self)%nat ->
                 (first_row <= iy < first_row + Z.of_nat n)%Z ->
                 traced (Z.of_nat ix) iy) ->
  ImageMaker._image_ray_func_serial ray_t get_ray func self first_row
    (Some (Z.of_nat n)) =
  Ok (Some (map (fun iy => map (fun ix => v (Z.of_nat ix) iy)
                               (seq 0 (ImageMaker.nx self)))
                (ImageMaker.row_range first_row (Z.of_nat n)))).
Proof.
  intros Hnx Hn Hall. unfold ImageMaker._image_ray_func_serial.
  rewrite (rows_loop_stored (ImageMaker.nx self) _ Hnx None (or_introl eq_refl)).
  2:{ intros ix iy Hix Hiy. apply Hall; [exact Hix|apply row_range_in; exact Hiy]. }
  cbn [bind fst snd].
  destruct (ImageMaker.row_range first_row (Z.of_nat n)) eqn:E; [|reflexivity].
  unfold ImageMaker.row_range in E. rewrite Nat2Z.id in E.
  destruct n; [lia|discriminate E].
Qed.

(** X25.  An image can be computed by blocks of rows.  Where every ray of
    the rows [first_row, first_row + n1 + n2) can be traced and [func]
    gives a vector of one length for each, the serial computation of the
    first [n1] rows followed by that of the next [n2] rows is the serial
    computation of all [n1 + n2] rows: each returns the rows of its block,
    every row [nx] pixels wide and every pixel the value of [func] on the
    ray of that pixel. *)
Theorem serial_imaging_by_row_blocks (self : ImageMaker.t) (first_row : Z)
    (n1 n2 : nat) :
  (1 <= ImageMaker.nx self)%nat -> (1 <= n1)%nat -> (1 <= n2)%nat ->
  (forall ix iy, (ix < ImageMaker.nx self)%nat ->
                 (first_row <= iy < first_row + Z.of_nat (n1 + n2))%Z ->
                 exists ray, get_ray (Z.of_nat ix) iy = Ok ray /\
                             func ray = Ok (v (Z.of_nat ix) iy) /\
                             List.length (v (Z.of_nat ix) iy) = k) ->
  exists top bottom,
    ImageMaker._image_ray_func_serial ray_t get_ray func self first_row
      (Some (Z.of_nat n1)) = Ok (Some top) /\
    ImageMaker._image_ray_func_serial ray_t get_ray func self
      (first_row + Z.of_nat n1) (Some (Z.of_nat n2)) = Ok (Some bottom) /\
    ImageMaker._image_ray_func_serial ray_t get_ray func self first_row
      (Some (Z.of_nat (n1 + n2))) = Ok (Some (top ++ bottom)) /\
    List.length top = n1 /\ List.length bottom = n2 /\
    Forall (fun row => List.length row = ImageMaker.nx self) (top ++ bottom) /\
    (forall ix iy, (ix < ImageMaker.nx self)%nat -> (iy < n1 + n2)%nat ->
       nth ix (nth iy (top ++ bottom) []) [] =
       v (Z.of_nat ix) (first_row + Z.of_nat iy)).
Proof.
  intros Hnx H1 H2 Hall.
  do 2 eexists.
  split; [apply (serial_block self first_row n1 Hnx H1);
          intros ix iy Hix Hiy; apply Hall; [exact Hix|lia]|].
  split; [apply (serial_block self (first_row + Z.of_nat n1) n2 Hnx H2);
          intros ix iy Hix Hiy; apply Hall; [exact Hix|lia]|].
  split.
  { rewrite (serial_block self first_row (n1 + n2) Hnx ltac:(lia) Hall).
    rewrite row_range_app, map_app. reflexivity. }
  unfold ImageMaker.row_range. rewrite !Nat2Z.id.
  split; [rewrite !length_map, length_seq; reflexivity|].
  split; [rewrite !length_map, length_seq; reflexivity|].
  split.
  { apply Forall_app. split; apply Forall_map, Forall_map, Forall_forall;
      intros i _; rewrite length_map, length_seq; reflexivity. }
  intros ix iy Hix Hiy.
  rewrite <- map_app.
  pose proof (row_range_app first_row n1 n2) as Happ.
  unfold ImageMaker.row_range in Happ. rewrite !Nat2Z.id in Happ. rewrite <- Happ.
  rewrite map_map.
  rewrite (nth_indep _ [] (map (fun ix0 => v (Z.of_nat ix0) (first_row + Z.of_nat 0))
                               (seq 0 (ImageMaker.nx self))))
    by (rewrite length_map, length_seq; exact Hiy).
  rewrite (map_nth (fun i => map (fun ix0 => v (Z.of_nat ix0) (first_row + Z.of_nat i))
                                 (seq 0 (ImageMaker.nx self)))
                   (seq 0 (n1 + n2)) 0%nat iy).
  rewrite seq_nth by exact Hiy. cbn [Nat.add].
  rewrite (nth_indep _ [] (v (Z.of_nat 0) (first_row + Z.of_nat iy)))
    by (rewrite length_map, length_seq; exact Hix).
  rewrite (map_nth (fun ix0 => v (Z.of_nat ix0) (first_row + Z.of_nat iy))
                   (seq 0 (ImageMaker.nx self)) 0%nat ix).
  rewrite seq_nth by exact Hix. reflexivity.
Qed.

End SerialImaging.

Lemma serial_imaging_by_row_blocks_witness :
  exists top bottom,
    ImageMaker._image_ray_func_serial unit (fun _ _ => Ok tt) (fun _ => Ok [1; 2; 3; 4])
      ImageMaker.default 0 (Some (Z.of_nat 1)) = Ok (Some top) /\
    ImageMaker._image_ray_func_serial unit (fun _ _ => Ok tt) (fun _ => Ok [1; 2; 3; 4])
      ImageMaker.default (0 + Z.of_nat 1) (Some (Z.of_nat 2)) = Ok (Some bottom) /\
    ImageMaker._image_ray_func_serial unit (fun _ _ => Ok tt) (fun _ => Ok [1; 2; 3; 4])
      ImageMaker.default 0 (Some (Z.of_nat (1 + 2))) = Ok (Some (top ++ bottom)) /\
    List.length top = 1%nat /\ List.length bottom = 2%nat /\
    Forall (fun row => List.length row = ImageMaker.nx ImageMaker.default)
           (top ++ bottom) /\
    (forall ix iy, (ix < ImageMaker.nx ImageMaker.default)%nat -> (iy < 1 + 2)%nat ->
       nth ix (nth iy (top ++ bottom) []) [] = [1; 2; 3; 4]).
Proof.
  apply (serial_imaging_by_row_blocks unit (fun _ _ => Ok tt) (fun _ => Ok [1; 2; 3; 4])
           (fun _ _ => [1; 2; 3; 4]) 4 ImageMaker.default 0 1 2).
  - simpl. lia.
  - lia.
  - lia.
  - intros ix iy _ _. exists tt. repeat split.
Defined.

(** ** Rays read from a file *)




Lemma clip_bounds (a lo hi : R) : lo <= hi -> lo <= clip a lo hi <= hi.
Proof.
  intros H. unfold clip.
  pose proof (Rmax_r a lo). pose proof (Rmin_r (Rmax a lo) hi).
  split; [apply Rmin_glb; lra|exact H1].
Qed.

Lemma load_item_invariant (P : string -> list R -> Prop) (iy ix : Z) (n : nat)
    (r r' : PrecomputedImageMaker.ray) (item : string * list (list (list R))) :
  (forall name cell,
     name <> "counts"%string ->
     P name (let data := firstn n cell in
             if String.eqb name "p" then map (fun v => clip v 1.5 7) data
             else if String.eqb name "k" then map (fun v => clip v 0 9) data
             else data)) ->
  (forall name data,
     dict_get (PrecomputedImageMaker.ray_attrs r) name = Some data -> P name data) ->
  PrecomputedImageMaker.load_item iy ix n r item = Ok r' ->
  forall name data,
    dict_get (PrecomputedImageMaker.ray_attrs r') name = Some data -> P name data.
Proof.
  intros Hnew Hold H name data Hget. destruct item as [itemname arr].
  unfold PrecomputedImageMaker.load_item in H.
  destruct (String.eqb_spec itemname "counts") as [Ec|Ec].
  - inversion H; subst. apply Hold. exact Hget.
  - destruct (PrecomputedImageMaker.at2 arr iy ix) as [cell| |]; cbn [bind] in H;
      try discriminate H.
    inversion H; subst r'. cbn [PrecomputedImageMaker.ray_attrs] in Hget.
    destruct (String.eqb_spec itemname name) as [E|E].
    + subst name. rewrite dict_get_set_same in Hget. inversion Hget; subst data.
      apply (Hnew itemname cell Ec).
    + rewrite dict_get_set_other in Hget by exact E. apply Hold. exact Hget.
Qed.

Lemma load_items_invariant (P : string -> list R -> Prop) (iy ix : Z) (n : nat)
    (l : list (string * list (list (list R)))) :
  (forall name cell,
     name <> "counts"%string ->
     P name (let data := firstn n cell in
             if String.eqb name "p" then map (fun v => clip v 1.5 7) data
             else if String.eqb name "k" then map (fun v => clip v 0 9) data
             else data)) ->
  forall r r',
    (forall name data,
       dict_get (PrecomputedImageMaker.ray_attrs r) name = Some data -> P name data) ->
    PrecomputedImageMaker.load_items iy ix n r l = Ok r' ->
    forall name data,
      dict_get (PrecomputedImageMaker.ray_attrs r') name = Some data -> P name data.
Proof.
  intros Hnew. induction l as [|item l IH]; intros r r' Hold H;
    cbn [PrecomputedImageMaker.load_items] in H.
  - inversion H; subst. exact Hold.
  - destruct (PrecomputedImageMaker.load_item iy ix n r item) as [r1| |] eqn:E;
      cbn [bind] in H; try discriminate H.
    apply (IH r1 r'); [|exact H].
    exact (load_item_invariant P iy ix n r r1 item Hnew Hold E).
Qed.

(** X27.  The data of a ray read from the file are clipped and cut to
    length: on a ray that [get_ray] returns, every value of the attribute
    [p] lies in [1.5, 7] and every value of [k] in [0, 9], no attribute holds
    more samples than the [counts] entry of the pixel, and no attribute is
    called [counts]. *)
Theorem precomputed_ray_is_clipped (self : PrecomputedImageMaker.t) (ix iy : Z)
    (r : PrecomputedImageMaker.ray) :
  PrecomputedImageMaker.get_ray self ix iy = Ok r ->
  exists n,
    PrecomputedImageMaker.at2
      (PrecomputedImageMaker.counts (PrecomputedImageMaker.cur_frame_group self)) iy ix
      = Ok n /\
    forall name data,
      dict_get (PrecomputedImageMaker.ray_attrs r) name = Some data ->
      name <> "counts"%string /\
      (List.length data <= n)%nat /\
      (name = "p"%string -> Forall (fun v => 1.5 <= v <= 7) data) /\
      (name = "k"%string -> Forall (fun v => 0 <= v <= 9) data).
Proof.
  unfold PrecomputedImageMaker.get_ray. intros H.
  destruct ((ix <? 0) || (PrecomputedImageMaker.nx self <=? ix))%Z; [discriminate H|].
  destruct ((iy <? 0) || (PrecomputedImageMaker.ny self <=? iy))%Z; [discriminate H|].
  destruct (PrecomputedImageMaker.at2 _ iy ix) as [n| |]; cbn [bind] in H;
    try discriminate H.
  exists n. split; [reflexivity|].
  refine (load_items_invariant
            (fun name data =>
               name <> "counts"%string /\ (List.length data <= n)%nat /\
               (name = "p"%string -> Forall (fun v => 1.5 <= v <= 7) data) /\
               (name = "k"%string -> Forall (fun v => 0 <= v <= 9) data))
            iy ix n _ _ _ r _ H).
  - intros name cell Hc. cbv zeta. split; [exact Hc|].
    pose proof (firstn_le_length n cell) as Hlen.
    destruct (String.eqb_spec name "p") as [Ep|Ep];
      [|destruct (String.eqb_spec name "k") as [Ek|Ek]].
    + split; [rewrite length_map; exact Hlen|]. split.
      * intros _. apply Forall_map, Forall_forall. intros v _. apply clip_bounds. lra.
      * intros E. subst name. discriminate E.
    + split; [rewrite length_map; exact Hlen|]. split.
      * intros E. contradiction.
      * intros _. apply Forall_map, Forall_forall. intros v _. apply clip_bounds. lra.
    + split; [exact Hlen|]. split; intros E; contradiction.
  - intros name data Hget. discriminate Hget.
Qed.

Lemma precomputed_ray_is_clipped_witness :
  let self := PrecomputedImageMaker.mk 2 1
                (PrecomputedImageMaker.mkGroup [[3; 1]]%nat
                   [("p"%string, [[[0.5; 2; 9; 4]; [8]]])]) in
  exists r n,
    PrecomputedImageMaker.get_ray self 0 0 = Ok r /\
    PrecomputedImageMaker.at2
      (PrecomputedImageMaker.counts (PrecomputedImageMaker.cur_frame_group self)) 0 0
      = Ok n /\
    forall name data,
      dict_get (PrecomputedImageMaker.ray_attrs r) name = Some data ->
      name <> "counts"%string /\
      (List.length data <= n)%nat /\
      (name = "p"%string -> Forall (fun v => 1.5 <= v <= 7) data) /\
      (name = "k"%string -> Forall (fun v => 0 <= v <= 9) data).
Proof.
  intros self. eexists.
  destruct (precomputed_ray_is_clipped self 0 0 _ eq_refl) as (n & Hn & Hall).
  exists n. split; [reflexivity|]. split; [exact Hn|exact Hall].
Defined.

(** ** The row groups of the cluster jobs *)

Lemma row_groups_fold (rest : Z) (m : nat) :
  forall (s : nat) (sr rh : list Z),
    fold_left
      (fun (acc : list Z * list Z) (_ : nat) =>
         (fst acc ++ [(last (fst acc) 0 + rest)%Z], snd acc ++ [rest]))
      (seq s m) (sr, rh) =
    (sr ++ map (fun i => (last sr 0 + Z.of_nat (S i) * rest)%Z) (seq 0 m),
     rh ++ repeat rest m).
Proof.
  induction m as [|m IH]; intros s sr rh.
  - cbn [seq fold_left map repeat]. rewrite !app_nil_r. reflexivity.
  - cbn [seq fold_left fst snd]. rewrite IH. rewrite last_last.
    rewrite <- !app_assoc. cbn [app repeat map seq]. f_equal.
    f_equal. f_equal; [lia|].
    rewrite <- (seq_shift m 0), map_map. apply map_ext. intros i. lia.
Qed.

Lemma py_index_app {A : Type} (pre : list A) (x : A) (post : list A) :
  py_index (pre ++ x :: post) (Z.of_nat (List.length pre)) = Ok x.
Proof.
  rewrite (py_index_inside _ _ x) by (rewrite length_app; simpl; lia).
  rewrite app_nth2 by lia. rewrite Nat.sub_diag. reflexivity.
Qed.

Lemma tasks_are_pairs (a b : list Z) :
  forall (pa pb : list Z),
    List.length pa = List.length pb -> List.length a = List.length b ->
    comprehension
      (fun icg =>
         (start_row <- py_index (pa ++ a) (Z.of_nat icg) ;;
          n_rows <- py_index (pb ++ b) (Z.of_nat icg) ;;
          Ok (start_row, n_rows))%result)
      (seq (List.length pa) (List.length a)) = Ok (combine a b).
Proof.
  revert b. induction a as [|x a IH]; intros b pa pb Hp Hab.
  - reflexivity.
  - destruct b as [|y b]; [discriminate Hab|].
    cbn [List.length seq comprehension combine].
    rewrite py_index_app. rewrite Hp, py_index_app. cbn [bind].
    pose proof (IH b (pa ++ [x]) (pb ++ [y])) as H.
    rewrite !length_app in H. cbn [List.length] in H.
    rewrite <- !app_assoc in H. cbn [app] in H.
    replace (List.length pa + 1)%nat with (S (List.length pa)) in H by lia.
    rewrite <- Hp. rewrite H; [reflexivity|lia|simpl in Hab; lia].
Qed.

Lemma tiles_even (a rest : Z) (m : nat) :
  (0 <= rest)%Z ->
  forall k : nat,
    tiles (a + Z.of_nat k * rest)
          (combine (map (fun i => (a + Z.of_nat i * rest)%Z) (seq k m)) (repeat rest m))
          (a + Z.of_nat (k + m) * rest).
Proof.
  intros Hr. induction m as [|m IH]; intros k.
  - cbn [seq map repeat combine]. replace (k + 0)%nat with k by lia. constructor.
  - cbn [seq map repeat combine]. constructor; [exact Hr|].
    replace (a + Z.of_nat k * rest + rest)%Z with (a + Z.of_nat (S k) * rest)%Z by lia.
    replace (k + S m)%nat with (S k + m)%nat by lia. apply IH.
Qed.

(** X28.  The row groups of [seed_cli] tile the image: for an image of
    [n_rows >= 0] rows cut into [n_row_groups >= 1] groups, one task is
    printed per group, the tasks follow one another without gap or overlap
    from row 0 to row [n_rows], every group after the first has
    [n_rows // n_row_groups] rows, and the first takes the remainder as
    well.  Asking for zero groups raises [ZeroDivisionError]. *)
Theorem seed_row_groups_tile_the_image (n_rows n_row_groups : Z) :
  ((0 <= n_rows)%Z -> (1 <= n_row_groups)%Z ->
   exists groups tasks,
     row_groups n_rows n_row_groups = Ok groups /\
     row_tasks groups n_row_groups = Ok tasks /\
     Z.of_nat (List.length tasks) = n_row_groups /\
     tiles 0 tasks n_rows /\
     hd (0, 0)%Z tasks =
       (0, n_rows / n_row_groups + n_rows mod n_row_groups)%Z /\
     Forall (fun t => snd t = (n_rows / n_row_groups)%Z) (tl tasks)) /\
  row_groups n_rows 0 = Raise ZeroDivisionError.
Proof.
  split; [|reflexivity].
  intros Hn Hg. unfold row_groups.
  destruct (Z.eqb_spec n_row_groups 1) as [E1|E1].
  - subst. exists ([0%Z], [n_rows]), [(0%Z, n_rows)].
    split; [reflexivity|]. split; [reflexivity|]. split; [reflexivity|].
    split; [constructor; [exact Hn|rewrite Z.add_0_l; constructor]|].
    split; [cbn [hd]; rewrite Z.div_1_r, Z.mod_1_r, Z.add_0_r; reflexivity|constructor].
  - destruct (Z.eqb_spec n_row_groups 0) as [E0|E0]; [lia|].
    cbv zeta. rewrite row_groups_fold. cbn [last app].
    set (rest := (n_rows / n_row_groups)%Z).
    set (first := (n_rows - (n_row_groups - 1) * rest)%Z).
    set (m := Z.to_nat (n_row_groups - 2)).
    assert (Hrest : (0 <= rest)%Z) by (apply Z.div_pos; lia).
    assert (Hmul : (n_row_groups * rest <= n_rows)%Z) by (apply Z.mul_div_le; lia).
    assert (Emul : ((n_row_groups - 1) * rest = n_row_groups * rest - rest)%Z) by ring.
    assert (Hfirst : (0 <= first)%Z) by (unfold first; lia).
    assert (Hm : Z.of_nat m = (n_row_groups - 2)%Z) by (unfold m; lia).
    assert (Es : 0%Z :: first :: map (fun i => (first + Z.of_nat (S i) * rest)%Z) (seq 0 m)
                 = 0%Z :: map (fun i => (first + Z.of_nat i * rest)%Z) (seq 0 (S m))).
    { cbn [seq map]. f_equal. f_equal; [lia|].
      rewrite <- (seq_shift m 0), map_map. reflexivity. }
    assert (Eh : first :: rest :: repeat rest m = first :: repeat rest (S m))
      by reflexivity.
    rewrite Es, Eh.
    eexists. exists (combine (0%Z :: map (fun i => (first + Z.of_nat i * rest)%Z) (seq 0 (S m)))
                             (first :: repeat rest (S m))).
    split; [reflexivity|]. split.
    { unfold row_tasks. cbn [fst snd].
      replace (Z.to_nat n_row_groups)
        with (List.length (0%Z :: map (fun i => (first + Z.of_nat i * rest)%Z) (seq 0 (S m))))
        by (cbn [List.length]; rewrite length_map, length_seq; lia).
      apply (tasks_are_pairs _ _ [] []); [reflexivity|].
      cbn [List.length]. rewrite length_map, length_seq, repeat_length. reflexivity. }
    split.
    { rewrite length_combine. cbn [List.length].
      rewrite length_map, length_seq, repeat_length. lia. }
    split.
    { cbn [combine]. constructor; [exact Hfirst|].
      pose proof (tiles_even first rest (S m) Hrest 0) as Ht.
      change (0 + S m)%nat with (S m) in Ht. change (Z.of_nat 0) with 0%Z in Ht.
      assert (ESm : Z.of_nat (S m) = (n_row_groups - 1)%Z) by lia.
      rewrite ESm in Ht.
      replace (first + 0 * rest)%Z with (0 + first)%Z in Ht by lia.
      replace (first + (n_row_groups - 1) * rest)%Z with n_rows in Ht
        by (unfold first; lia).
      exact Ht. }
    split.
    { cbn [combine hd]. f_equal. unfold first.
      pose proof (Z.div_mod n_rows n_row_groups E0) as Hdm. fold rest in Hdm. lia. }
    cbn [combine tl].
    apply Forall_forall. intros [s h] Hin. apply in_combine_r in Hin.
    apply repeat_spec in Hin. exact Hin.
Qed.

Lemma seed_row_groups_tile_the_image_witness :
  exists groups tasks,
    row_groups 23 4 = Ok groups /\
    row_tasks groups 4 = Ok tasks /\
    Z.of_nat (List.length tasks) = 4%Z /\
    tiles 0 tasks 23 /\
    hd (0, 0)%Z tasks = (0, 23 / 4 + 23 mod 4)%Z /\
    Forall (fun t => snd t = (23 / 4)%Z) (tl tasks).
Proof.
  apply (proj1 (seed_row_groups_tile_the_image 23 4)); lia.
Defined.

(** ** Movies and light curves; the built-in distributions in a setup *)

Lemma comprehension_map {A B C : Type} (f : A -> result B) (g : A -> result C)
    (h : B -> C) (l : list A) :
  (forall a b, f a = Ok b -> g a = Ok (h b)) ->
  forall bs, comprehension f l = Ok bs -> comprehension g l = Ok (map h bs).
Proof.
  intros Hfg. induction l as [|a l IH]; intros bs H; cbn [comprehension] in *.
  - inversion H. reflexivity.
  - destruct (f a) as [b| |] eqn:E; cbn [bind] in H; try discriminate H.
    destruct (comprehension f l) as [bs'| |]; cbn [bind] in H; try discriminate H.
    inversion H; subst bs. rewrite (Hfg a b E). cbn [bind].
    rewrite (IH bs' eq_refl). reflexivity.
Qed.

Lemma flux_sums_frame (self : IntegratedImages.t) (i_cml i_freq k : Z) (yflip : bool)
    (a : img) :
  IntegratedImages.frame self i_cml i_freq (IntegratedImages.SelInt k) yflip = Ok a ->
  IntegratedImages.flux self i_cml i_freq (IntegratedImages.SelInt k) = Ok (nansum a).
Proof.
  rewrite frame_flips.
  unfold IntegratedImages.frame_noflip, IntegratedImages.frame_noflip_with,
    IntegratedImages.flux, IntegratedImages.flux_with, IntegratedImages.flux_index.
  destruct (IntegratedImages.frame_index self i_cml i_freq k)
    as [a0| |]; destruct yflip; cbn [bind]; intros H; try discriminate H;
    inversion H; subst a; rewrite ?nansum_rev; reflexivity.
Qed.

(** X29.  For an integer selector the light curve is the movie summed
    frame by frame: where [rotmovie] returns its frames (flipped or not),
    [lightcurve] returns their pixel sums, one per rotation phase, and
    likewise [spectrum] returns the sums of the frames of [specmovie], one
    per frequency. *)
Theorem light_curve_sums_the_movie (self : IntegratedImages.t)
    (ax : IntegratedImages.axes) (i k : Z) (yflip : bool) (frames : list img) :
  (IntegratedImages.rotmovie self ax i (IntegratedImages.SelInt k) yflip = Ok frames ->
   IntegratedImages.lightcurve self ax i (IntegratedImages.SelInt k)
     = Ok (map nansum frames) /\
   List.length frames = IntegratedImages.n_cmls ax) /\
  (IntegratedImages.specmovie self ax i (IntegratedImages.SelInt k) yflip = Ok frames ->
   IntegratedImages.spectrum self ax i (IntegratedImages.SelInt k)
     = Ok (map nansum frames) /\
   List.length frames = IntegratedImages.n_freqs ax).
Proof.
  split; intros H.
  - split.
    + unfold IntegratedImages.lightcurve, IntegratedImages.rotmovie in *.
      refine (comprehension_map _ _ nansum _ _ frames H).
      intros a b. apply flux_sums_frame.
    + rewrite (comprehension_length _ _ _ H). apply length_seq.
  - split.
    + unfold IntegratedImages.spectrum, IntegratedImages.specmovie in *.
      refine (comprehension_map _ _ nansum _ _ frames H).
      intros a b. apply flux_sums_frame.
    + rewrite (comprehension_length _ _ _ H). apply length_seq.
Qed.

Lemma light_curve_sums_the_movie_witness :
  let self := IntegratedImages.mk
                (fun i _ => if (i =? 0)%Z then Ok [[(1, 2, 3, 4)]]
                            else Ok [[(5, 6, 7, 8)]]) 1 in
  let ax := IntegratedImages.mkAxes 2 1 in
  exists frames,
    IntegratedImages.rotmovie self ax 0 (IntegratedImages.SelInt 0) true = Ok frames /\
    IntegratedImages.lightcurve self ax 0 (IntegratedImages.SelInt 0)
      = Ok (map nansum frames) /\
    List.length frames = IntegratedImages.n_cmls ax.
Proof.
  intros self ax. eexists. split; [reflexivity|].
  apply (proj1 (light_curve_sums_the_movie self ax 0 0 true _)). reflexivity.
Defined.



